(** * Test-case generation pipeline: record normaliser, response parser,
      token accountant, provider dispatch and the three generation routes.

    The development follows the TypeScript sources:

    - [src/lib/tokenCounter.ts]             : [estimateTokens] and the counters
    - [src/lib/utils/normalizeTestCase.ts]  : [normalizeTestCase], [normalizeTestCases]
    - [src/lib/utils/parseLLMResponse.ts]   : [cleanLLMJsonResponse],
                                              [parseTestCasesFromLLM], [parseTestCaseFromLLM]
    - [src/lib/providers/index.ts]          : [createProvider]
    - [src/lib/prompt.ts]                   : the prompt builders
    - [src/app/api/generate-cases/route.ts],
      [src/app/api/add-more-cases/route.ts],
      [src/app/api/refine-test-case/route.ts] : the request handlers

    The JavaScript built-ins the sources rely on ([String.prototype.trim],
    [padStart], [Set], [JSON.parse], property access, truthiness) are
    modelled in module [JS]. *)

From Stdlib Require Import NArith ZArith QArith Qround List Ascii String Lia Bool.
From Stdlib Require Import DecimalNat DecimalFacts.
From Stdlib.Strings Require Import Byte.
From stdpp Require Import base tactics option list.
Import ListNotations.

(** ** JavaScript strings

    A JavaScript string is a finite sequence of UTF-16 code units; it is
    modelled as a list of code-unit values.  String literals are read in
    [js_scope]. *)

Inductive jslit := JLit (units : list N).
Definition jsstring := list N.
Definition mkstr (units : list N) : jsstring := units.
Arguments mkstr _ /.

Definition lit_of_bytes (bs : list byte) : jslit :=
  JLit (map (fun b => N.of_nat (nat_of_ascii (ascii_of_byte b))) bs).
Definition bytes_of_lit (l : jslit) : option (list byte) :=
  match l with
  | JLit us =>
      if forallb (fun u => N.ltb u 256) us
      then Some (map (fun u => byte_of_ascii (ascii_of_N u)) us)
      else None
  end.

Declare Scope js_scope.
Delimit Scope js_scope with js.
#[warnings="-via-type-remapping,-via-type-mismatch"]
String Notation jsstring lit_of_bytes bytes_of_lit
  (via jslit mapping [mkstr => JLit]) : js_scope.
Open Scope js_scope.

Module JS.

(** *** Characters *)

(** The double quote, U+0022. *)
Definition dq : N := 34%N.
Definition backslash : N := 92%N.

(** [WhiteSpace] and [LineTerminator] of ECMAScript: the characters
    removed by [trim] and matched by the regular-expression class [\s]. *)
Definition whiteSpaceUnits : list N :=
  [9; 10; 11; 12; 13; 32; 160; 5760;
   8192; 8193; 8194; 8195; 8196; 8197; 8198; 8199; 8200; 8201; 8202;
   8232; 8233; 8239; 8287; 12288; 65279]%N.

Definition isWhiteSpace (c : N) : bool := existsb (N.eqb c) whiteSpaceUnits.
Arguments isWhiteSpace : simpl never.

(** *** String methods *)

Fixpoint trimStart (s : jsstring) : jsstring :=
  match s with
  | c :: r => if isWhiteSpace c then trimStart r else s
  | [] => []
  end.

Fixpoint trimEnd (s : jsstring) : jsstring :=
  match s with
  | c :: r =>
      match trimEnd r with
      | [] => if isWhiteSpace c then [] else [c]
      | r' => c :: r'
      end
  | [] => []
  end.

Definition trim (s : jsstring) : jsstring := trimEnd (trimStart s).

Fixpoint startsWith (s p : jsstring) {struct p} : bool :=
  match p, s with
  | [], _ => true
  | a :: p', b :: s' => N.eqb a b && startsWith s' p'
  | _ :: _, [] => false
  end.

(** [s.substring(0, n)] *)
Definition substring0 (s : jsstring) (n : nat) : jsstring := take n s.

(** [s.padStart(n, c)] for a one-character filler [c]. *)
Definition padStart (s : jsstring) (n : nat) (c : N) : jsstring :=
  repeat c (n - length s) ++ s.

(** The digits of a decimal numeral, as code units. *)
Fixpoint uint_units (d : Decimal.uint) : jsstring :=
  match d with
  | Decimal.Nil => []
  | Decimal.D0 r => 48%N :: uint_units r
  | Decimal.D1 r => 49%N :: uint_units r
  | Decimal.D2 r => 50%N :: uint_units r
  | Decimal.D3 r => 51%N :: uint_units r
  | Decimal.D4 r => 52%N :: uint_units r
  | Decimal.D5 r => 53%N :: uint_units r
  | Decimal.D6 r => 54%N :: uint_units r
  | Decimal.D7 r => 55%N :: uint_units r
  | Decimal.D8 r => 56%N :: uint_units r
  | Decimal.D9 r => 57%N :: uint_units r
  end.

(** [String(n)] for a non-negative integer [n]: its decimal numeral. *)
Definition String_of_nat (n : nat) : jsstring := uint_units (Nat.to_uint n).

Definition string_eqb (a b : jsstring) : bool := bool_decide (a = b).

(** *** Values

    [VNum] carries the numeral as it is written; no function of this
    program computes with numbers read from a response. *)
#[warnings="-register-all"]
Inductive value :=
| VUndefined
| VNull
| VBool (b : bool)
| VNum (lit : jsstring)
| VStr (s : jsstring)
| VArr (elems : list value)
| VObj (props : list (jsstring * value)).

(** A numeral denotes zero when its mantissa has no non-zero digit.  The
    numeral is judged as it is written: one that only rounds to zero (an
    exponent below the range of doubles) counts as non-zero here.  No
    statement below depends on the truthiness of a number. *)
Fixpoint num_is_zero (lit : jsstring) : bool :=
  match lit with
  | [] => true
  | c :: r =>
      if (N.eqb c 101 || N.eqb c 69)%N then true
      else if (N.leb 49 c && N.leb c 57)%N then false
      else num_is_zero r
  end.

(** [ToBoolean] *)
Definition truthy (v : value) : bool :=
  match v with
  | VUndefined | VNull => false
  | VBool b => b
  | VNum lit => negb (num_is_zero lit)
  | VStr s => match s with [] => false | _ => true end
  | VArr _ | VObj _ => true
  end.

(** [a || b] *)
Definition or (a b : value) : value := if truthy a then a else b.

Definition isArray (v : value) : bool :=
  match v with VArr _ => true | _ => false end.

Definition is_null (v : value) : bool :=
  match v with VNull => true | _ => false end.

(** [typeof v === 'object'] *)
Definition typeof_object (v : value) : bool :=
  match v with VNull | VArr _ | VObj _ => true | _ => false end.

(** *** Objects: own properties in insertion order, keys unique. *)

Fixpoint lookup_prop (k : jsstring) (props : list (jsstring * value)) : value :=
  match props with
  | [] => VUndefined
  | (k', v) :: r => if string_eqb k k' then v else lookup_prop k r
  end.

Fixpoint set_prop (k : jsstring) (v : value) (props : list (jsstring * value))
  : list (jsstring * value) :=
  match props with
  | [] => [(k, v)]
  | (k', v') :: r =>
      if string_eqb k k' then (k', v) :: r else (k', v') :: set_prop k v r
  end.

(** *** Errors and outcomes *)

Inductive error :=
| SyntaxError (text : jsstring)   (* thrown by [JSON.parse] on [text] *)
| TypeError (prop : jsstring)     (* property [prop] read from null/undefined *)
| Error (message : jsstring).     (* [new Error(message)] *)

(** The outcome of running a piece of code: a value, an exception, or
    a loop that was still running when its fuel ran out. *)
Inductive outcome (A : Type) :=
| Ok (a : A)
| Throw (e : error)
| Diverge.
Arguments Ok {A} a.
Arguments Throw {A} e.
Arguments Diverge {A}.

Definition bind {A B} (m : outcome A) (k : A -> outcome B) : outcome B :=
  match m with
  | Ok a => k a
  | Throw e => Throw e
  | Diverge => Diverge
  end.

(** [v.k] for the property names this program reads ([testId], [title],
    [description], [preconditions], [steps], [expectedResult],
    [priority], [type]); none of them is a built-in property of arrays,
    strings, numbers or booleans. *)
Definition get (v : value) (k : jsstring) : outcome value :=
  match v with
  | VUndefined | VNull => Throw (TypeError k)
  | VObj props => Ok (lookup_prop k props)
  | _ => Ok VUndefined
  end.

(** *** [Set]

    A [Set] keeps its members in insertion order and compares them with
    SameValueZero.  Primitives are compared by value, numbers by their
    numerals as written (two numerals of one number, such as [1] and
    [1.0], count as two members here: the statements about identifiers are
    about strings); arrays and objects are compared by reference, and every
    array or object met here is a fresh result of [JSON.parse], so no two
    of them are the same reference. *)

Definition sameValueZero (a b : value) : bool :=
  match a, b with
  | VUndefined, VUndefined => true
  | VNull, VNull => true
  | VBool x, VBool y => Bool.eqb x y
  | VNum x, VNum y => string_eqb x y
  | VStr x, VStr y => string_eqb x y
  | _, _ => false
  end.

Definition Set_has (s : list value) (v : value) : bool :=
  existsb (sameValueZero v) s.

Definition Set_add (s : list value) (v : value) : list value :=
  if Set_has s v then s else s ++ [v].

(** [new Set(l)] *)
Definition Set_of (l : list value) : list value := fold_left Set_add l [].

(** *** [JSON.parse]: tokens *)

Inductive token :=
| TLBrace | TRBrace | TLBracket | TRBracket | TColon | TComma
| TString (s : jsstring)
| TNumber (lit : jsstring)
| TTrue | TFalse | TNull.

(** The four whitespace characters of the JSON grammar. *)
Definition isJsonWs (c : N) : bool :=
  match c with 9 | 10 | 13 | 32 => true | _ => false end%N.

Definition isDigit (c : N) : bool := (N.leb 48 c && N.leb c 57)%N.

Definition punct (c : N) : option token :=
  match c with
  | 123 => Some TLBrace | 125 => Some TRBrace
  | 91 => Some TLBracket | 93 => Some TRBracket
  | 58 => Some TColon | 44 => Some TComma
  | _ => None
  end%N.

(** Characters that can occur in a numeral. *)
Definition isNumChar (c : N) : bool :=
  isDigit c ||
  match c with 43 | 45 | 46 | 69 | 101 => true | _ => false end%N.

Fixpoint skip_digits (s : jsstring) : jsstring :=
  match s with
  | c :: r => if isDigit c then skip_digits r else s
  | [] => []
  end.

(** [0] or a non-empty digit sequence without a leading zero. *)
Definition int_part (s : jsstring) : option jsstring :=
  match s with
  | c :: r =>
      if N.eqb c 48 then Some r
      else if isDigit c then Some (skip_digits r)
      else None
  | [] => None
  end.

Definition frac_part (s : jsstring) : option jsstring :=
  match s with
  | 46%N :: c :: r => if isDigit c then Some (skip_digits r) else None
  | 46%N :: [] => None
  | _ => Some s
  end.

Definition exp_digits (s : jsstring) : option jsstring :=
  match s with
  | c :: r => if isDigit c then Some (skip_digits r) else None
  | [] => None
  end.

Definition exp_part (s : jsstring) : option jsstring :=
  match s with
  | c :: r =>
      if (N.eqb c 101 || N.eqb c 69)%N then
        match r with
        | d :: r' => if (N.eqb d 43 || N.eqb d 45)%N then exp_digits r' else exp_digits r
        | [] => None
        end
      else Some s
  | [] => Some s
  end.

(** The JSON number grammar: an optional minus sign, an integer part, an
    optional fraction (a dot and digits) and an optional exponent ([e] or
    [E], an optional sign, digits). *)
Definition valid_number (lit : jsstring) : bool :=
  let s := match lit with 45%N :: r => r | _ => lit end in
  match int_part s with
  | Some r1 =>
      match frac_part r1 with
      | Some r2 =>
          match exp_part r2 with
          | Some [] => true
          | _ => false
          end
      | None => false
      end
  | None => false
  end.

Definition hex_value (c : N) : option N :=
  if isDigit c then Some (c - 48)%N
  else if (N.leb 97 c && N.leb c 102)%N then Some (c - 87)%N
  else if (N.leb 65 c && N.leb c 70)%N then Some (c - 55)%N
  else None.

Definition hex_code (ds : list N) : N :=
  fold_left (fun acc d => (16 * acc + d)%N) ds 0%N.

(** *** [JSON.parse]: the lexer, one character at a time *)

Inductive keyword := KwTrue | KwFalse | KwNull.

Definition spelling (w : keyword) : jsstring :=
  match w with
  | KwTrue => "true"
  | KwFalse => "false"
  | KwNull => "null"
  end.

Definition keyword_token (w : keyword) : token :=
  match w with
  | KwTrue => TTrue
  | KwFalse => TFalse
  | KwNull => TNull
  end.

Inductive lex_state :=
| LxOut                                  (* between tokens *)
| LxStr (acc : jsstring)                 (* in a string; [acc] newest first *)
| LxEsc (acc : jsstring)                 (* after a backslash in a string *)
| LxUni (acc : jsstring) (ds : list N)   (* in the digits of a [\u] escape *)
| LxNum (acc : jsstring)                 (* in a numeral; [acc] newest first *)
| LxKw (w : keyword) (n : nat).          (* after [n] characters of [w] *)

Definition step_out (c : N) : option (list token * lex_state) :=
  if isJsonWs c then Some ([], LxOut)
  else if N.eqb c dq then Some ([], LxStr [])
  else
    match punct c with
    | Some t => Some ([t], LxOut)
    | None =>
        if (N.eqb c 45 || isDigit c)%N then Some ([], LxNum [c])
        else if N.eqb c 116 then Some ([], LxKw KwTrue 1)
        else if N.eqb c 102 then Some ([], LxKw KwFalse 1)
        else if N.eqb c 110 then Some ([], LxKw KwNull 1)
        else None
    end.

Definition unescape (c : N) : option N :=
  match c with
  | 34 => Some 34 | 92 => Some 92 | 47 => Some 47
  | 98 => Some 8 | 102 => Some 12 | 110 => Some 10
  | 114 => Some 13 | 116 => Some 9
  | _ => None
  end%N.

Definition lex_step (st : lex_state) (c : N) : option (list token * lex_state) :=
  match st with
  | LxOut => step_out c
  | LxStr acc =>
      if N.eqb c dq then Some ([TString (rev acc)], LxOut)
      else if N.eqb c backslash then Some ([], LxEsc acc)
      else if N.ltb c 32 then None
      else Some ([], LxStr (c :: acc))
  | LxEsc acc =>
      if N.eqb c 117 then Some ([], LxUni acc [])
      else
        match unescape c with
        | Some u => Some ([], LxStr (u :: acc))
        | None => None
        end
  | LxUni acc ds =>
      match hex_value c with
      | Some h =>
          let ds' := ds ++ [h] in
          if Nat.eqb (length ds') 4 then Some ([], LxStr (hex_code ds' :: acc))
          else Some ([], LxUni acc ds')
      | None => None
      end
  | LxNum acc =>
      if isNumChar c then Some ([], LxNum (c :: acc))
      else if valid_number (rev acc) then
        match step_out c with
        | Some (ts, st') => Some (TNumber (rev acc) :: ts, st')
        | None => None
        end
      else None
  | LxKw w n =>
      match nth_error (spelling w) n with
      | Some c' =>
          if N.eqb c c' then
            if Nat.eqb (S n) (length (spelling w)) then Some ([keyword_token w], LxOut)
            else Some ([], LxKw w (S n))
          else None
      | None => None
      end
  end.

Definition lex_end (st : lex_state) : option (list token) :=
  match st with
  | LxOut => Some []
  | LxNum acc => if valid_number (rev acc) then Some [TNumber (rev acc)] else None
  | _ => None
  end.

Fixpoint lex (st : lex_state) (s : jsstring) : option (list token) :=
  match s with
  | [] => lex_end st
  | c :: r =>
      match lex_step st c with
      | Some (ts, st') =>
          match lex st' r with
          | Some ts' => Some (ts ++ ts')
          | None => None
          end
      | None => None
      end
  end.

(** The lexer on a part of the input: the tokens completed in it and the
    state it is left in. *)
Fixpoint lex_run (st : lex_state) (s : jsstring) : option (list token * lex_state) :=
  match s with
  | [] => Some ([], st)
  | c :: r =>
      match lex_step st c with
      | Some (ts, st') =>
          match lex_run st' r with
          | Some (ts', st'') => Some (ts ++ ts', st'')
          | None => None
          end
      | None => None
      end
  end.

(** *** [JSON.parse]: the grammar, one token at a time *)

Inductive frame :=
| FArr (done : list value)                              (* elements, newest first *)
| FObj (done : list (jsstring * value)) (key : jsstring).

Inductive parse_state :=
| PValue (stk : list frame)                             (* a value must follow *)
| PArrFirst (stk : list frame)                          (* after [[] *)
| PArrNext (done : list value) (stk : list frame)       (* after an element *)
| PObjFirst (stk : list frame)                          (* after [{] *)
| PObjKey (done : list (jsstring * value)) (stk : list frame)   (* after [,] *)
| PObjColon (done : list (jsstring * value)) (key : jsstring) (stk : list frame)
| PObjNext (done : list (jsstring * value)) (stk : list frame)  (* after a member *)
| PDone (v : value).

(** A value is complete: hand it to the enclosing array or object. *)
Definition deliver (v : value) (stk : list frame) : parse_state :=
  match stk with
  | [] => PDone v
  | FArr done :: stk' => PArrNext (v :: done) stk'
  | FObj done key :: stk' => PObjNext (set_prop key v done) stk'
  end.

Definition value_start (t : token) (stk : list frame) : option parse_state :=
  match t with
  | TLBracket => Some (PArrFirst stk)
  | TLBrace => Some (PObjFirst stk)
  | TString s => Some (deliver (VStr s) stk)
  | TNumber lit => Some (deliver (VNum lit) stk)
  | TTrue => Some (deliver (VBool true) stk)
  | TFalse => Some (deliver (VBool false) stk)
  | TNull => Some (deliver VNull stk)
  | TRBrace | TRBracket | TColon | TComma => None
  end.

Definition parse_step (st : parse_state) (t : token) : option parse_state :=
  match st with
  | PValue stk => value_start t stk
  | PArrFirst stk =>
      match t with
      | TRBracket => Some (deliver (VArr []) stk)
      | _ => value_start t (FArr [] :: stk)
      end
  | PArrNext done stk =>
      match t with
      | TComma => Some (PValue (FArr done :: stk))
      | TRBracket => Some (deliver (VArr (rev done)) stk)
      | _ => None
      end
  | PObjFirst stk =>
      match t with
      | TRBrace => Some (deliver (VObj []) stk)
      | TString k => Some (PObjColon [] k stk)
      | _ => None
      end
  | PObjKey done stk =>
      match t with
      | TString k => Some (PObjColon done k stk)
      | _ => None
      end
  | PObjColon done k stk =>
      match t with
      | TColon => Some (PValue (FObj done k :: stk))
      | _ => None
      end
  | PObjNext done stk =>
      match t with
      | TComma => Some (PObjKey done stk)
      | TRBrace => Some (deliver (VObj done) stk)
      | _ => None
      end
  | PDone _ => None
  end.

Fixpoint parse_tokens (st : parse_state) (ts : list token) : option value :=
  match ts with
  | [] => match st with PDone v => Some v | _ => None end
  | t :: r =>
      match parse_step st t with
      | Some st' => parse_tokens st' r
      | None => None
      end
  end.

(** [JSON.parse(text)]: the parsed value, or a [SyntaxError]. *)
Definition JSON_parse (text : jsstring) : outcome value :=
  match lex LxOut text with
  | Some ts =>
      match parse_tokens (PValue []) ts with
      | Some v => Ok v
      | None => Throw (SyntaxError text)
      end
  | None => Throw (SyntaxError text)
  end.

End JS.

Import JS.

#[global] Instance outcome_ret : MRet outcome := @Ok.
#[global] Instance outcome_bind : MBind outcome := fun A B k m => JS.bind m k.

(** ** Token accountant — [src/lib/tokenCounter.ts] *)

(** [Math.ceil(n / 4)]: the quotient is exact, then rounded up. *)
Definition Math_ceil (q : Q) : Z := Qceiling q.

Definition estimateTokens (text : jsstring) : Z :=
  match text with
  | [] => 0                                                (* [if (!text) return 0] *)
  | _ => Math_ceil (inject_Z (Z.of_nat (length text)) / 4)
  end.

Definition countPrdTokens (prdText : jsstring) : Z := estimateTokens prdText.

Definition countSummaryTokens (summaryText : jsstring) : Z := estimateTokens summaryText.

Record TokenCount := { input : Z; output : Z; total : Z }.

Definition countTestCaseTokens (prdText testCasesJson : jsstring) : TokenCount :=
  let promptOverhead := 200%Z in
  let inputTokens := (estimateTokens prdText + promptOverhead)%Z in
  let outputTokens := estimateTokens testCasesJson in
  {| input := inputTokens; output := outputTokens;
     total := (inputTokens + outputTokens)%Z |}.

Definition countSummaryGenerationTokens (prdText summaryText : jsstring) : TokenCount :=
  let promptOverhead := 150%Z in
  let inputTokens := (estimateTokens prdText + promptOverhead)%Z in
  let outputTokens := estimateTokens summaryText in
  {| input := inputTokens; output := outputTokens;
     total := (inputTokens + outputTokens)%Z |}.

(** ** Record normaliser — [src/lib/utils/normalizeTestCase.ts] *)

(** A normalised record.  The TypeScript types are erased at run time, so
    a field holds whatever value the response carried when that value is
    truthy; [steps] always holds the elements of an array. *)
Record TestCase := {
  testId : value;
  title : value;
  description : value;
  preconditions : value;
  steps : list value;
  expectedResult : value;
  priority : value;
  type : value
}.

(** The template literal [TC-${String(n).padStart(3, '0')}]. *)
Definition tcId (n : nat) : jsstring := "TC-" ++ padStart (String_of_nat n) 3 48%N.

(** [while (existingIds.has(testId)) { testId = tcId(counter); counter++ }] *)
Fixpoint claim_loop (fuel : nat) (existingIds : list value) (testId : value)
  (counter : nat) {struct fuel} : outcome value :=
  if Set_has existingIds testId then
    match fuel with
    | 0 => Diverge
    | S fuel' => claim_loop fuel' existingIds (VStr (tcId counter)) (S counter)
    end
  else Ok testId.

(** [normalizeTestCase(tc, index, existingIds?)].  The set is mutated in
    place by the source; here the updated set is returned with the record. *)
Definition normalizeTestCase (tc : value) (index : nat) (existingIds : option (list value))
  : outcome (TestCase * option (list value)) :=
  tc_testId ← get tc "testId";
  let testId0 := JS.or tc_testId (VStr (tcId (index + 1))) in
  claimed ←
    match existingIds with
    | Some ids =>
        let counter := index + 1 in
        testId ← claim_loop (S (length ids)) ids testId0 counter;
        mret (testId, Some (Set_add ids testId))
    | None => mret (testId0, None)
    end;
  tc_title ← get tc "title";
  tc_description ← get tc "description";
  tc_preconditions ← get tc "preconditions";
  tc_steps ← get tc "steps";
  tc_expectedResult ← get tc "expectedResult";
  tc_priority ← get tc "priority";
  tc_type ← get tc "type";
  mret ({| testId := claimed.1;
           title := JS.or tc_title (VStr ("Test Case " ++ String_of_nat (index + 1)));
           description := JS.or tc_description (VStr "");
           preconditions := JS.or tc_preconditions (VStr "");
           steps := match tc_steps with VArr l => l | _ => [] end;
           expectedResult := JS.or tc_expectedResult (VStr "");
           priority := JS.or tc_priority (VStr "Medium");
           type := JS.or tc_type (VStr "Functional") |},
        claimed.2).

(** [existingTestCases.map(tc => tc.testId)] *)
Fixpoint map_testId (l : list value) : outcome (list value) :=
  match l with
  | [] => mret []
  | tc :: r => id ← get tc "testId"; ids ← map_testId r; mret (id :: ids)
  end.

(** [testCases.map((tc, index) => normalizeTestCase(tc, offset + index + 1, existingIds))],
    with [index] counted from [start]. *)
Fixpoint normalize_from (offset start : nat) (testCases : list value)
  (existingIds : list value) : outcome (list TestCase) :=
  match testCases with
  | [] => mret []
  | tc :: r =>
      res ← normalizeTestCase tc (offset + start + 1) (Some existingIds);
      rest ← normalize_from offset (S start) r (default existingIds res.2);
      mret (res.1 :: rest)
  end.

(** [normalizeTestCases(testCases, existingTestCases = [])] *)
Definition normalizeTestCases (testCases existingTestCases : list value)
  : outcome (list TestCase) :=
  ids ← map_testId existingTestCases;
  let existingIds := Set_of ids in
  normalize_from (length existingTestCases) 0 testCases existingIds.

(** ** Response parser — [src/lib/utils/parseLLMResponse.ts] *)

Definition is_json_tag (a b c d : N) : bool :=
  ((N.eqb a 106 || N.eqb a 74) && (N.eqb b 115 || N.eqb b 83) &&
   (N.eqb c 111 || N.eqb c 79) && (N.eqb d 110 || N.eqb d 78))%N.

(** [s.replace(re, '')] for the regular expression [re] made of: start of
    input, three backticks, an optional [json] (any letter case), and any
    run of whitespace. *)
Definition strip_open_fence (s : jsstring) : jsstring :=
  match s with
  | 96%N :: 96%N :: 96%N :: r =>
      let r' := match r with
                | a :: b :: c :: d :: r4 => if is_json_tag a b c d then r4 else r
                | _ => r
                end in
      trimStart r'
  | _ => s
  end.

(** Is [s] a run of whitespace followed by three backticks and the end of
    input? *)
Definition close_fence_here (s : jsstring) : bool :=
  string_eqb (trimStart s) [96%N; 96%N; 96%N].

(** [s.replace(re, '')] for the regular expression [re] made of: any run
    of whitespace, three backticks, end of input.  The leftmost match is
    removed. *)
Fixpoint strip_close_fence (s : jsstring) {struct s} : jsstring :=
  if close_fence_here s then []
  else match s with
       | [] => []
       | c :: r => c :: strip_close_fence r
       end.

(** [p] is a prefix of [s]: what follows it. *)
Fixpoint after_prefix (p s : jsstring) : option jsstring :=
  match p, s with
  | [], _ => Some s
  | a :: p', b :: s' => if N.eqb a b then after_prefix p' s' else None
  | _ :: _, [] => None
  end.

(** The longest prefix free of double quotes, and what follows it. *)
Fixpoint span_unquoted (s : jsstring) : jsstring * jsstring :=
  match s with
  | c :: r =>
      if N.eqb c dq then ([], s)
      else let '(x, r') := span_unquoted r in (c :: x, r')
  | [] => ([], [])
  end.

(** A match, at the start of [s], of the regular expression made of: the
    quoted word [preconditions], a colon, any whitespace, a quote, a
    captured run of characters other than quotes, a quote, any whitespace,
    and the quoted word [steps].  The result is the captured group and the
    length of the match. *)
Definition match_defect (s : jsstring) : option (jsstring * nat) :=
  r1 ← after_prefix (dq :: "preconditions" ++ [dq; 58%N]) s;
  r2 ← after_prefix [dq] (trimStart r1);
  let '(x, r3) := span_unquoted r2 in
  r4 ← after_prefix [dq] r3;
  r5 ← after_prefix (dq :: "steps" ++ [dq]) (trimStart r4);
  Some (x, length s - length r5).

(** The replacement text: the quoted word [preconditions], a colon, a
    space, the quoted captured group, a comma, a space, and the quoted
    word [steps]. *)
Definition defect_replacement (x : jsstring) : jsstring :=
  dq :: "preconditions" ++ [dq] ++ ": " ++ [dq] ++ x ++ [dq] ++ ", " ++ [dq] ++ "steps" ++ [dq].

(** The global replacement of every match of that expression: a scan from
    left to right; [skip] counts the characters of the current match that
    are still to be passed over. *)
Fixpoint replace_defect (skip : nat) (s : jsstring) : jsstring :=
  match s with
  | [] => []
  | c :: r =>
      match skip with
      | S k => replace_defect k r
      | 0 =>
          match match_defect s with
          | Some (x, n) => defect_replacement x ++ replace_defect (n - 1) r
          | None => c :: replace_defect 0 r
          end
      end
  end.

Definition cleanLLMJsonResponse (text : jsstring) : jsstring :=
  let cleaned := trim text in
  let cleaned :=
    if startsWith cleaned "```"
    then strip_close_fence (strip_open_fence cleaned)
    else cleaned in
  replace_defect 0 cleaned.

Definition parseTestCasesFromLLM (generatedText : jsstring) : outcome (list value) :=
  let cleanedText := cleanLLMJsonResponse generatedText in
  parsed ← JSON_parse cleanedText;
  match parsed with
  | VArr l => mret l
  | _ => Throw (Error "LLM response is not a valid array of test cases")
  end.

Definition parseTestCaseFromLLM (generatedText : jsstring) : outcome value :=
  let cleanedText := cleanLLMJsonResponse generatedText in
  parsed ← JSON_parse cleanedText;
  if isArray parsed then Throw (Error "Expected single test case object, got array")
  else if negb (typeof_object parsed) || is_null parsed
  then Throw (Error "LLM response is not a valid test case object")
  else mret parsed.

(** ** Provider dispatch — [src/lib/providers/index.ts] *)

Record ProviderConfig := {
  provider : jsstring;
  apiKey : option jsstring;
  model : option jsstring;
  endpoint : option jsstring;
  deployment : option jsstring;
  apiVersion : option jsstring;
  baseUrl : option jsstring
}.

(** A provider instance: which constructor built it, from which arguments
    (default parameter values applied).  The constructors only build a
    client object; no request is sent before [generate] is called. *)
Inductive Provider :=
| openaiProvider (apiKey model : jsstring)
| azureProvider (apiKey endpoint deployment apiVersion : jsstring)
| ollamaProvider (model baseUrl : jsstring)
| geminiProvider (apiKey model : jsstring).

(** [!x] for an optional string: [undefined] and the empty string are falsy. *)
Definition missing (x : option jsstring) : bool :=
  match x with
  | Some (_ :: _) => false
  | _ => true
  end.

(** A default parameter value applies when the argument is [undefined]. *)
Definition or_default (x : option jsstring) (d : jsstring) : jsstring := default d x.

Definition createProvider (config : ProviderConfig) : outcome Provider :=
  if string_eqb (provider config) "openai" then
    if missing (apiKey config) then Throw (Error "OpenAI API key is required")
    else mret (openaiProvider (default [] (apiKey config))
                              (or_default (model config) "gpt-4o-mini"))
  else if string_eqb (provider config) "azure" then
    if missing (apiKey config) || missing (endpoint config) ||
       missing (deployment config) || missing (apiVersion config)
    then Throw (Error "Azure OpenAI requires apiKey, endpoint, deployment, and apiVersion")
    else mret (azureProvider (default [] (apiKey config)) (default [] (endpoint config))
                             (default [] (deployment config)) (default [] (apiVersion config)))
  else if string_eqb (provider config) "ollama" then
    mret (ollamaProvider (or_default (model config) "llama3.1")
                         (or_default (baseUrl config) "http://localhost:11434"))
  else if string_eqb (provider config) "gemini" then
    if missing (apiKey config) then Throw (Error "Google Gemini API key is required")
    else mret (geminiProvider (default [] (apiKey config))
                              (or_default (model config) "gemini-1.5-flash-latest"))
  else Throw (Error ("Unsupported provider: " ++ provider config)).

(** ** What the host supplies

    [JSON_stringify v] is [JSON.stringify(v, null, 2)]; the two message
    functions give the engine's wording of the errors it throws itself. *)
Class Platform := {
  JSON_stringify : value -> jsstring;
  SyntaxError_message : jsstring -> jsstring;
  TypeError_message : jsstring -> jsstring
}.

(** [error.message] *)
Definition message `{Platform} (e : error) : jsstring :=
  match e with
  | SyntaxError text => SyntaxError_message text
  | TypeError prop => TypeError_message prop
  | Error m => m
  end.

(** The fixed instruction texts of the system prompts in
    [src/lib/prompt.ts].  The two prompts that mention the requested
    number of test cases are split around that clause. *)
Class Wording := {
  testCaseSystemHead : jsstring;
  testCaseSystemTail : jsstring;
  refineSystemPrompt : jsstring;
  correctionSystemPrompt : jsstring;
  addMoreSystemHead : jsstring;
  addMoreSystemTail : jsstring
}.

(** ** Prompt composer — [src/lib/prompt.ts] *)

Record ChatPrompt := { system : jsstring; user : jsstring }.

Definition generateTestCasePrompt `{Wording} (prdText : jsstring) (count : option nat)
  : ChatPrompt :=
  let countClause :=
    match count with
    | Some (S n) => "exactly " ++ String_of_nat (S n) ++ " test cases"
    | _ => "10-20 test cases minimum (more for complex PRDs)"
    end in
  {| system := testCaseSystemHead ++ countClause ++ testCaseSystemTail;
     user := "Analyze the following Product Requirements Document (PRD) and generate a complete set of test cases.

THINKING PROCESS:
Before generating test cases, consider:
1. What are the main features and user flows described?
2. What are the critical business rules and constraints?
3. What are the edge cases and boundary conditions?
4. What could go wrong (negative scenarios)?
5. What are the different user roles or system states?

PRODUCT REQUIREMENTS DOCUMENT:
" ++ prdText ++ "

Generate comprehensive test cases covering all major functionality, edge cases, and negative scenarios described in the PRD above." |}.

Definition refineTestCasePrompt `{Platform} `{Wording}
  (summary : jsstring) (testCase : value) (followupInstruction : jsstring) : ChatPrompt :=
  {| system := refineSystemPrompt;
     user := "Refine the provided test case based on the user's instruction while maintaining consistency with the PRD summary.

THINKING PROCESS:
1. Understand what the user wants to change or improve
2. Ensure the refined test case aligns with the PRD summary
3. Maintain test case quality standards (clear steps, proper structure)
4. Preserve test case ID unless explicitly asked to change it

PRD SUMMARY:
" ++ summary ++ "

CURRENT TEST CASE:
" ++ JSON_stringify testCase ++ "

USER'S REFINEMENT INSTRUCTION:
" ++ followupInstruction ++ "

Refine the test case according to the user's instruction while ensuring it remains consistent with the PRD summary." |}.

Definition generateJsonCorrectionPrompt `{Wording}
  (invalidJson parseError originalSystemPrompt : jsstring) : ChatPrompt :=
  {| system := correctionSystemPrompt;
     user := "The previous response contained invalid JSON that failed to parse.

PARSING ERROR:
" ++ parseError ++ "

INVALID JSON RESPONSE (first 1000 characters):
" ++ substring0 invalidJson 1000 ++ (if 1000 <? length invalidJson then "..." else "") ++ "

ORIGINAL SYSTEM INSTRUCTIONS (for context):
" ++ substring0 originalSystemPrompt 500 ++ "...

Fix all JSON syntax errors in the invalid JSON above and return ONLY the corrected, valid JSON." |}.

(** The second argument is the existing records themselves or, when they
    were too large, their synopsis ([typeof existingTestCases === 'string']). *)
Definition generateAddMoreTestCasesPrompt `{Platform} `{Wording}
  (prdSummary : jsstring) (existingTestCases : list value + jsstring)
  (followUpPrompt : jsstring) (count : nat) : ChatPrompt :=
  let existingTestCasesText :=
    match existingTestCases with
    | inr synopsis =>
        "EXISTING TEST CASES SUMMARY:
" ++ synopsis ++ "

IMPORTANT: The above is a summary. Generate test cases that are clearly different from what's described."
    | inl records =>
        "EXISTING TEST CASES (" ++ String_of_nat (length records) ++ " total):
" ++ JSON_stringify (VArr records) ++ "

IMPORTANT: Review these carefully and generate test cases that are DISTINCTLY different."
    end in
  {| system := addMoreSystemHead ++ String_of_nat count ++ addMoreSystemTail;
     user := "Generate " ++ String_of_nat count ++ " additional test cases based on the user's instruction, ensuring they are DIFFERENT from existing test cases.

THINKING PROCESS:
Before generating test cases, consider:
1. What test cases already exist? (review the list below)
2. What NEW scenarios can be tested that aren't already covered?
3. How can I follow the user's instruction while avoiding duplicates?
4. What are the gaps in test coverage?
5. What edge cases or negative scenarios are missing?

PRD SUMMARY:
" ++ prdSummary ++ "

" ++ existingTestCasesText ++ "

USER'S INSTRUCTION:
" ++ followUpPrompt ++ "

Generate exactly " ++ String_of_nat count ++ " NEW test cases that:
- Follow the user's instruction
- Are DISTINCTLY different from existing test cases
- Cover scenarios not already tested
- Maintain high quality standards (clear steps, proper structure)
- Use unique test IDs that don't conflict with existing ones" |}.

(** ** Effects of a request handler

    A handler talks to the backend through [providerInstance.generate] and
    parses responses.  Both are recorded, in order, in a trace.  The
    backend is any function of the history so far, the provider instance
    and the messages: it may answer differently on every call, or fail. *)

Record TokenUsage := { promptTokens : Z; completionTokens : Z; totalTokens : Z }.

Record GenerateResult := { content : jsstring; tokenUsage : option TokenUsage }.

Inductive event :=
| EvGenerate (instance : Provider) (messages : ChatPrompt)  (* one [generate] call *)
| EvParse (text : jsstring).                  (* one call of a response parser *)

Definition Backend := list event -> Provider -> ChatPrompt -> outcome GenerateResult.

Definition M (A : Type) : Type := list event -> outcome A * list event.

#[global] Instance M_ret : MRet M := fun A a tr => (Ok a, tr).
#[global] Instance M_bind : MBind M := fun A B k m tr =>
  match m tr with
  | (Ok a, tr') => k a tr'
  | (Throw e, tr') => (Throw e, tr')
  | (Diverge, tr') => (Diverge, tr')
  end.

Definition lift {A} (o : outcome A) : M A := fun tr => (o, tr).

(** [try { m } catch (e) { ... }]: the exception, if any, becomes a value. *)
Definition attempt {A} (m : M A) : M (error + A) := fun tr =>
  match m tr with
  | (Ok a, tr') => (Ok (inr a), tr')
  | (Throw e, tr') => (Ok (inl e), tr')
  | (Diverge, tr') => (Diverge, tr')
  end.

(** [await providerInstance.generate(messages)] *)
Definition generate (backend : Backend) (instance : Provider) (messages : ChatPrompt)
  : M GenerateResult :=
  fun tr => (backend tr instance messages, tr ++ [EvGenerate instance messages]).

(** A call of a response parser on [text]. *)
Definition parsing {A} (parser : jsstring -> outcome A) (text : jsstring) : M A :=
  fun tr => (parser text, tr ++ [EvParse text]).

(** [NextResponse.json(body, { status })] *)
Inductive Body :=
| ErrorBody (error : jsstring) (rawResponse : option jsstring)
| TestCasesBody (testCases : list TestCase) (count : nat)
    (tokenUsage : option TokenUsage) (summary : option jsstring)
| TestCaseBody (testCase : TestCase).

Record Response := { status : nat; body : Body }.

Definition failure (status : nat) (error : jsstring) : Response :=
  {| status := status; body := ErrorBody error None |}.

Definition failure_raw (status : nat) (error rawResponse : jsstring) : Response :=
  {| status := status; body := ErrorBody error (Some rawResponse) |}.

(** The [config] object of a request body. *)
Record RequestConfig := {
  cfg_apiKey : option jsstring;
  cfg_model : option jsstring;
  cfg_endpoint : option jsstring;
  cfg_deployment : option jsstring;
  cfg_apiVersion : option jsstring;
  cfg_baseUrl : option jsstring
}.

(** [createProvider({ provider, apiKey: config?.apiKey, ... })] *)
Definition provider_of (provider : jsstring) (config : option RequestConfig) : outcome Provider :=
  createProvider
    {| provider := provider;
       apiKey := config ≫= cfg_apiKey;
       model := config ≫= cfg_model;
       endpoint := config ≫= cfg_endpoint;
       deployment := config ≫= cfg_deployment;
       apiVersion := config ≫= cfg_apiVersion;
       baseUrl := config ≫= cfg_baseUrl |}.

(** [!s || s.trim().length === 0] *)
Definition blank (s : option jsstring) : bool :=
  match s with
  | Some t => match trim t with [] => true | _ => false end
  | None => true
  end.

(** ** [POST /api/generate-cases] — [src/app/api/generate-cases/route.ts] *)

Module GenerateCases.

Record Request := {
  text : option jsstring;
  summary : option jsstring;
  provider : option jsstring;
  config : option RequestConfig;
  count : option nat
}.

(** Lines 85-103: parse the response and normalise the records; any
    exception of either step makes the request fail with status 500. *)
Definition parse_phase `{Platform} (generatedText : jsstring)
  (tokenUsage : option TokenUsage) (summary : option jsstring) : M Response :=
  r ← attempt (parsed ← parsing parseTestCasesFromLLM generatedText;
               lift (normalizeTestCases parsed []));
  match r with
  | inl error =>
      mret (failure_raw 500 ("Failed to parse LLM response: " ++ message error) generatedText)
  | inr testCases =>
      mret {| status := 200;
              body := TestCasesBody testCases (length testCases) tokenUsage
                        (if missing summary then None else summary) |}
  end.

Definition POST `{Platform} `{Wording} (backend : Backend) (request : Request) : M Response :=
  if blank (text request) then mret (failure 400 "Text is required")
  else if missing (provider request) then mret (failure 400 "Provider is required")
  else
    match provider_of (default [] (provider request)) (config request) with
    | Throw error => mret (failure 400 (message error))
    | Diverge => lift Diverge
    | Ok providerInstance =>
        let messages := generateTestCasePrompt (default [] (text request)) (count request) in
        r ← attempt (generate backend providerInstance messages);
        match r with
        | inl error => mret (failure 500 ("LLM generation failed: " ++ message error))
        | inr result => parse_phase (content result) (tokenUsage result) (summary request)
        end
    end.

End GenerateCases.

(** ** [POST /api/add-more-cases] — [src/app/api/add-more-cases/route.ts] *)

Module AddMoreCases.

Definition TOKEN_LIMIT_THRESHOLD : Z := 5000.

Definition summaryPrompt : jsstring :=
"You are a test case analyst. Summarize the following test cases in a concise format that helps prevent generating duplicates.

Focus on:
- Test case titles and types
- Key scenarios covered
- Main test flows
- Edge cases and negative scenarios already tested

Keep the summary under 500 words. Format as a structured list.".

#[warnings="-abstract-large-number"]
Definition summarizeExistingTestCases `{Platform} (backend : Backend)
  (existingTestCases : list value) (providerInstance : Provider) : M jsstring :=
  let testCasesJson := JSON_stringify (VArr existingTestCases) in
  let userPrompt := "Summarize these test cases to help prevent generating duplicates:

" ++ substring0 testCasesJson 10000 ++ (if 10000 <? length testCasesJson then "..." else "") in
  r ← attempt (generate backend providerInstance
                 {| system := summaryPrompt; user := userPrompt |});
  match r with
  | inr result => mret (trim (content result))
  | inl _ =>
      mret ("Summary of " ++ String_of_nat (length existingTestCases) ++ " existing test cases:
" ++ substring0 testCasesJson 2000 ++ "...")
  end.

(** Lines 127-141: what is handed to the prompt composer as the existing
    test cases. *)
Definition existingTestCasesForPrompt `{Platform} (backend : Backend)
  (existingTestCases : list value) (providerInstance : Provider)
  : M (list value + jsstring) :=
  let existingTestCasesJson := JSON_stringify (VArr existingTestCases) in
  let existingTokens := estimateTokens existingTestCasesJson in
  if (TOKEN_LIMIT_THRESHOLD <? existingTokens)%Z then
    synopsis ← summarizeExistingTestCases backend existingTestCases providerInstance;
    mret (inr synopsis)
  else mret (inl existingTestCases).

Record Request := {
  summary : option jsstring;
  existingTestCases : value;
  followUpPrompt : option jsstring;
  count : option nat;
  provider : option jsstring;
  config : option RequestConfig
}.

(** Lines 171-189. *)
Definition parse_phase `{Platform} (generatedText : jsstring)
  (existingTestCases : list value) (tokenUsage : option TokenUsage) : M Response :=
  r ← attempt (parsed ← parsing parseTestCasesFromLLM generatedText;
               lift (normalizeTestCases parsed existingTestCases));
  match r with
  | inl error =>
      mret (failure_raw 500 ("Failed to parse LLM response: " ++ message error) generatedText)
  | inr newTestCases =>
      mret {| status := 200;
              body := TestCasesBody newTestCases (length newTestCases) tokenUsage None |}
  end.

Definition POST `{Platform} `{Wording} (backend : Backend) (request : Request) : M Response :=
  if blank (summary request) then mret (failure 400 "PRD summary is required")
  else
    match existingTestCases request with
    | VArr (tc :: more) =>
        let existing := tc :: more in
        if blank (followUpPrompt request) then mret (failure 400 "Follow-up prompt is required")
        else if missing (provider request) then mret (failure 400 "Provider is required")
        else
          let testCaseCount :=
            match count request with Some (S n) => S n | _ => 5 end in
          match provider_of (default [] (provider request)) (config request) with
          | Throw error => mret (failure 400 (message error))
          | Diverge => lift Diverge
          | Ok providerInstance =>
              forPrompt ← existingTestCasesForPrompt backend existing providerInstance;
              let messages :=
                generateAddMoreTestCasesPrompt (default [] (summary request)) forPrompt
                  (default [] (followUpPrompt request)) testCaseCount in
              r ← attempt (generate backend providerInstance messages);
              match r with
              | inl error => mret (failure 500 ("LLM generation failed: " ++ message error))
              | inr result => parse_phase (content result) existing (tokenUsage result)
              end
          end
    | _ => mret (failure 400 "Existing test cases are required")
    end.

End AddMoreCases.

(** ** [POST /api/refine-test-case] — [src/app/api/refine-test-case/route.ts] *)

Module RefineTestCase.

(** The longest prefix of [s] that ends with a closing brace. *)
Fixpoint upto_last_brace (s : jsstring) : option jsstring :=
  match s with
  | [] => None
  | c :: r =>
      match upto_last_brace r with
      | Some p => Some (c :: p)
      | None => if N.eqb c 125 then Some [c] else None
      end
  end.

(** [s.match(re)] for the regular expression [re] made of an opening
    brace, any run of characters (greedy) and a closing brace: the
    leftmost match, if any. *)
Fixpoint match_braces (s : jsstring) : option jsstring :=
  match s with
  | [] => None
  | c :: r =>
      if N.eqb c 123 then
        match upto_last_brace r with
        | Some p => Some (c :: p)
        | None => match_braces r
        end
      else match_braces r
  end.

Definition maxAttempts : nat := 2.

(** The variables the parse loop reads and writes. *)
Record Vars := {
  parsed : option value;
  cleanedText : jsstring;
  generatedText : jsstring;
  parseAttempts : nat
}.

Inductive control := Continue | Break | Rethrow (e : error).

(** One turn of the [while] loop (lines 111-150). *)
Definition loop_body `{Platform} `{Wording} (backend : Backend) (providerInstance : Provider)
  (system : jsstring) (vars : Vars) : M (control * Vars) :=
  let cleanedText' :=
    match match_braces (cleanedText vars) with
    | Some jsonMatch => jsonMatch
    | None => cleanedText vars
    end in
  r ← attempt (parsing parseTestCaseFromLLM cleanedText');
  match r with
  | inr object =>
      mret (Break, {| parsed := Some object; cleanedText := cleanedText';
                      generatedText := generatedText vars;
                      parseAttempts := parseAttempts vars |})
  | inl parseError =>
      let parseAttempts' := S (parseAttempts vars) in
      if maxAttempts <=? parseAttempts' then
        mret (Rethrow parseError,
              {| parsed := parsed vars; cleanedText := cleanedText';
                 generatedText := generatedText vars; parseAttempts := parseAttempts' |})
      else
        let correctionPrompts :=
          generateJsonCorrectionPrompt cleanedText' (message parseError) system in
        c ← attempt (generate backend providerInstance correctionPrompts);
        match c with
        | inr correctionResult =>
            mret (Continue,
                  {| parsed := parsed vars; cleanedText := cleanedText';
                     generatedText := content correctionResult;
                     parseAttempts := parseAttempts' |})
        | inl _ =>
            mret (Break,
                  {| parsed := parsed vars; cleanedText := cleanedText';
                     generatedText := generatedText vars; parseAttempts := parseAttempts' |})
        end
  end.

(** [while (parseAttempts < maxAttempts) { ... }] *)
Fixpoint parse_loop `{Platform} `{Wording} (fuel : nat) (backend : Backend)
  (providerInstance : Provider) (system : jsstring) (vars : Vars)
  : M (option error * Vars) :=
  if parseAttempts vars <? maxAttempts then
    match fuel with
    | 0 => lift Diverge
    | S fuel' =>
        turn ← loop_body backend providerInstance system vars;
        match turn.1 with
        | Continue => parse_loop fuel' backend providerInstance system turn.2
        | Break => mret (None, turn.2)
        | Rethrow e => mret (Some e, turn.2)
        end
    end
  else mret (None, vars).

(** Lines 158-162: [normalizeTestCase({ ...parsed, testId: parsed.testId || testCase.testId }, 0)].
    [parsed] is an object here: [parseTestCaseFromLLM] returns nothing else. *)
Definition finalize (parsed testCase : value) : outcome TestCase :=
  parsed_testId ← get parsed "testId";
  testId ← (if truthy parsed_testId then mret parsed_testId else get testCase "testId");
  let props := match parsed with VObj props => props | _ => [] end in
  res ← normalizeTestCase (VObj (set_prop "testId" testId props)) 0 None;
  mret res.1.

(** Lines 103-178: the parse loop, the check that followed it, the final
    normalisation, and the [catch] that turns any exception into a 500. *)
Definition parse_phase `{Platform} `{Wording} (backend : Backend)
  (providerInstance : Provider) (system : jsstring) (testCase : value)
  (generatedText0 : jsstring) : M Response :=
  let vars0 := {| parsed := None; cleanedText := trim generatedText0;
                  generatedText := generatedText0; parseAttempts := 0 |} in
  looped ← parse_loop maxAttempts backend providerInstance system vars0;
  let vars := looped.2 in
  let result :=
    match looped.1 with
    | Some error => Throw error
    | None =>
        match parsed vars with
        | None => Throw (Error "Failed to parse JSON after all attempts")
        | Some object => finalize object testCase
        end
    end in
  match result with
  | Ok refined => mret {| status := 200; body := TestCaseBody refined |}
  | Throw error =>
      mret (failure_raw 500 ("Failed to parse refined test case: " ++ message error)
              (generatedText vars))
  | Diverge => lift Diverge
  end.

(** The request body, with [provider] a string as the interface
    [RefineTestCaseRequest] declares it: this handler does not test it
    before it calls [createProvider]. *)
Record Request := {
  provider : jsstring;
  config : option RequestConfig;
  summary : option jsstring;
  testCase : value;
  followup : option jsstring
}.

Definition POST `{Platform} `{Wording} (backend : Backend) (request : Request) : M Response :=
  if blank (summary request) then mret (failure 400 "PRD summary is required")
  else if negb (truthy (testCase request)) then mret (failure 400 "Test case is required")
  else if blank (followup request) then
    mret (failure 400 "Follow-up instruction is required")
  else
    match provider_of (provider request) (config request) with
    | Throw error => mret (failure 400 (message error))
    | Diverge => lift Diverge
    | Ok providerInstance =>
        let messages :=
          refineTestCasePrompt (default [] (summary request)) (testCase request)
            (default [] (followup request)) in
        r ← attempt (generate backend providerInstance messages);
        match r with
        | inl error => mret (failure 500 ("LLM refinement failed: " ++ message error))
        | inr result =>
            parse_phase backend providerInstance (system messages) (testCase request)
              (content result)
        end
    end.

End RefineTestCase.

(** ** Vocabulary of the statements *)

(** The number a decimal numeral denotes (leading zeros allowed). *)
Definition units_value (s : jsstring) : nat :=
  fold_left (fun acc c => 10 * acc + (N.to_nat c - 48)) s 0.

(** The members of [ids] that are none of the candidates [tcId 0], ...,
    [tcId (c - 1)]. *)
Definition beyond (c : nat) (ids : list value) : list value :=
  List.filter (fun v => forallb (fun k => negb (sameValueZero v (VStr (tcId k)))) (seq 0 c)) ids.

(** A response record as the prompts ask for it, as far as its identifier
    goes: an object whose [testId] is absent or a string. *)
Definition plain_id (v : value) : bool :=
  match v with
  | VUndefined | VStr _ => true
  | _ => false
  end.

Definition is_record (v : value) : bool :=
  match v with
  | VObj props => plain_id (lookup_prop "testId" props)
  | _ => false
  end.

(** Two string tokens in a row. *)
Definition adjacent_strings (ts : list token) : Prop :=
  exists a x y b, ts = a ++ TString x :: TString y :: b.

(** The states of the lexer inside a string literal. *)
Definition in_string (st : lex_state) : Prop :=
  match st with
  | LxStr _ | LxEsc _ | LxUni _ _ => True
  | _ => False
  end.

(** The tag that may follow an opening fence: nothing, or [json] in any
    letter case. *)
Definition fence_tag (tag : jsstring) : Prop :=
  tag = [] \/ exists a b c d, tag = [a; b; c; d] /\ is_json_tag a b c d = true.

Definition whitespace (s : jsstring) : Prop := Forall (fun c => isWhiteSpace c = true) s.

(** The text matched by the defect pattern around a captured group [x]. *)
Definition defect (w1 x w2 : jsstring) : jsstring :=
  (dq :: "preconditions" ++ [dq; 58%N]) ++ w1 ++ [dq] ++ x ++ [dq] ++ w2
  ++ (dq :: "steps" ++ [dq]).

Definition isObject (v : value) : bool :=
  match v with VObj _ => true | _ => false end.

(** The [generate] calls and the parser calls of a trace. *)
Definition generate_calls (tr : list event) : list (Provider * ChatPrompt) :=
  omap (fun e => match e with EvGenerate p m => Some (p, m) | EvParse _ => None end) tr.

Definition parse_calls (tr : list event) : list jsstring :=
  omap (fun e => match e with EvParse t => Some t | EvGenerate _ _ => None end) tr.

(** ** A reference host, for closed examples

    [stringify] follows [JSON.stringify(v, null, 2)] on values without
    numbers and without unpaired surrogates: a numeral is printed as it was
    written and every code unit of a string that needs no escape is copied.
    The message of a [SyntaxError] is one fixed text, in place of the
    engine's wording.  The theorems hold for every host; this one serves
    the closed examples only. *)

Definition hex_digit (n : N) : N := if (n <? 10)%N then (48 + n)%N else (87 + n)%N.

Definition escape_unit (c : N) : jsstring :=
  match c with
  | 34 => [92; 34] | 92 => [92; 92]
  | 8 => "\b" | 12 => "\f" | 10 => "\n" | 13 => "\r" | 9 => "\t"
  | _ => if (c <? 32)%N then "\u00" ++ [hex_digit (c / 16); hex_digit (c mod 16)] else [c]
  end%N.

Definition quote (s : jsstring) : jsstring := dq :: flat_map escape_unit s ++ [dq].

Fixpoint join (sep : jsstring) (parts : list jsstring) : jsstring :=
  match parts with
  | [] => []
  | [p] => p
  | p :: rest => p ++ sep ++ join sep rest
  end.

(** [None] stands for [undefined]. *)
Fixpoint stringify_at (indent : jsstring) (v : value) : option jsstring :=
  let inner := indent ++ "  " in
  match v with
  | VUndefined => None
  | VNull => Some "null"
  | VBool true => Some "true"
  | VBool false => Some "false"
  | VNum lit => Some lit
  | VStr s => Some (quote s)
  | VArr [] => Some "[]"
  | VArr elems =>
      let items := map (fun e => inner ++ default "null" (stringify_at inner e)) elems in
      Some ("[" ++ [10%N] ++ join ("," ++ [10%N]) items ++ [10%N] ++ indent ++ "]")
  | VObj props =>
      let members :=
        omap (fun kv => match stringify_at inner kv.2 with
                        | Some t => Some (inner ++ quote kv.1 ++ ": " ++ t)
                        | None => None
                        end) props in
      match members with
      | [] => Some "{}"
      | _ => Some ("{" ++ [10%N] ++ join ("," ++ [10%N]) members ++ [10%N] ++ indent ++ "}")
      end
  end.

Definition stringify (v : value) : jsstring := default "undefined" (stringify_at "" v).

#[export] Instance reference_platform : Platform := {|
  JSON_stringify := stringify;
  SyntaxError_message := fun text => "Unexpected token in JSON";
  TypeError_message := fun prop => "Cannot read properties of null (reading '" ++ prop ++ "')"
|}.

(** Short stand-ins for the fixed instruction texts. *)
#[export] Instance sample_wording : Wording := {|
  testCaseSystemHead := "You are an expert QA test designer. Generate ";
  testCaseSystemTail := ". Return ONLY the JSON array, nothing else.";
  refineSystemPrompt := "You are an expert QA test designer specializing in refining test cases.";
  correctionSystemPrompt := "You are a JSON syntax expert. Return ONLY the corrected JSON.";
  addMoreSystemHead := "You are an expert QA test designer. Generate exactly ";
  addMoreSystemTail := " test cases. Return ONLY the JSON array, nothing else."
|}.

(** A backend that gives the scripted answers in turn. *)
Definition scripted (answers : list (outcome GenerateResult)) : Backend :=
  fun tr _ _ =>
    nth (length (generate_calls tr)) answers (Throw (Error "no answer left")).

Definition answer (text : jsstring) : outcome GenerateResult :=
  Ok {| content := text; tokenUsage := None |}.

Definition sample_provider : Provider := ollamaProvider "llama3.1" "http://localhost:11434".

(** A well-formed response with three records, none with a testId. *)
Definition three_records : jsstring :=
  "[{" ++ [dq] ++ "title" ++ [dq] ++ ": " ++ [dq] ++ "Login with valid credentials" ++ [dq] ++ "}, {"
       ++ [dq] ++ "title" ++ [dq] ++ ": " ++ [dq] ++ "Login with a wrong password" ++ [dq] ++ "}, {"
       ++ [dq] ++ "title" ++ [dq] ++ ": " ++ [dq] ++ "Login with an empty email" ++ [dq] ++ "}]".

(** An input record of the refinement operation, and two responses. *)
Definition sample_record : value :=
  VObj [("testId", VStr "TC-007"); ("title", VStr "Login with valid credentials")].

Definition refined_without_id : jsstring :=
  "{" ++ [dq] ++ "title" ++ [dq] ++ ": " ++ [dq] ++ "Login succeeds" ++ [dq] ++ "}".

Definition not_json : jsstring := "Sorry, I cannot help with that.".

(** A request to refine [sample_record]. *)
Definition shorten_request : RefineTestCase.Request :=
  {| RefineTestCase.provider := "ollama";
     RefineTestCase.config := None;
     RefineTestCase.summary := Some "Users log in with their email and password.";
     RefineTestCase.testCase := sample_record;
     RefineTestCase.followup := Some "Make the title shorter" |}.

(** Two requests for more test cases: one with a small working set, one
    whose serialisation is above the threshold. *)
Definition more_request : AddMoreCases.Request :=
  {| AddMoreCases.summary := Some "Users log in with their email and password.";
     AddMoreCases.existingTestCases := VArr [sample_record];
     AddMoreCases.followUpPrompt := Some "Add negative cases";
     AddMoreCases.count := None;
     AddMoreCases.provider := Some "ollama";
     AddMoreCases.config := None |}.

#[warnings="-abstract-large-number"]
Definition large_request : AddMoreCases.Request :=
  {| AddMoreCases.summary := Some "Users log in with their email and password.";
     AddMoreCases.existingTestCases := VArr [VStr (repeat 97%N 20001)];
     AddMoreCases.followUpPrompt := Some "Add negative cases";
     AddMoreCases.count := Some 3;
     AddMoreCases.provider := Some "ollama";
     AddMoreCases.config := None |}.

(** A request for an initial batch, by a local backend. *)
Definition login_request : GenerateCases.Request :=
  {| GenerateCases.text := Some "Users can log in with email and password";
     GenerateCases.summary := None;
     GenerateCases.provider := Some "ollama";
     GenerateCases.config := None;
     GenerateCases.count := None |}.

(** ** Vocabulary of the further properties *)

(** [v == null]: the two values no property can be read from. *)
Definition nullish (v : value) : bool :=
  match v with VUndefined | VNull => true | _ => false end.

(** The object literal that [normalizeTestCase] returns, as a value. *)
Definition TestCase_object (r : TestCase) : value :=
  VObj [("testId", testId r); ("title", title r); ("description", description r);
        ("preconditions", preconditions r); ("steps", VArr (steps r));
        ("expectedResult", expectedResult r); ("priority", priority r);
        ("type", type r)].

(** A backend that always answers or fails: it never hangs. *)
Definition responsive (backend : Backend) : Prop :=
  forall tr instance messages, backend tr instance messages <> Diverge.

(** What a handler run may look like, seen from outside: either the
    request is refused with status 400 and nothing was called, or the trace
    grew by at most [g] backend calls and [p] parser calls and the answer,
    if the backend did not hang, has status 200 or 500. *)
Definition handled {R} (status : R -> nat) (backend : Backend) (tr : list event)
  (run : outcome R * list event) (g p : nat) : Prop :=
  (exists r, run = (Ok r, tr) /\ status r = 400) \/
  (exists suffix,
      run.2 = tr ++ suffix /\ suffix <> [] /\
      length (generate_calls suffix) <= g /\ length (parse_calls suffix) <= p /\
      match run.1 with
      | Ok r => status r = 200 \/ status r = 500
      | Throw _ => False
      | Diverge => ~ responsive backend
      end).

(** ** The summary prompt and [POST /api/generate-summary] —
       [src/lib/prompt.ts], [src/app/api/generate-summary/route.ts] *)

Definition generatePrdSummaryPrompt (prdText : jsstring) : ChatPrompt :=
  {| system := "You are an expert product analyst with expertise in distilling complex requirements into concise, actionable summaries.

Your role is to read Product Requirements Documents (PRDs) and create structured, concise summaries that capture essential information needed for test case generation.

SUMMARY STRUCTURE:
Organize your summary into these sections:

1. **System Overview** (2-3 sentences)
   - Overall goal and purpose
   - Target users

2. **Key Features** (bullet points)
   - Main features/modules
   - Core functionality

3. **User Flows** (brief descriptions)
   - Primary user journeys
   - Key interactions

4. **Business Rules** (bullet points)
   - Critical constraints
   - Validation rules
   - Business logic requirements

5. **Edge Cases & Risks** (if mentioned)
   - Boundary conditions
   - Error scenarios
   - Special cases

QUALITY REQUIREMENTS:
- Keep total length under 600 words
- Use clear, concise language
- Focus on information relevant for test case generation
- Maintain accuracy to original PRD
- Use markdown formatting (## for sections, - for bullets)

OUTPUT FORMAT:
- Plain text (not JSON)
- Use markdown formatting (## for sections, - for bullets)
- No code blocks or special formatting";
     user := "Read the following Product Requirements Document (PRD) and create a structured, concise summary that captures the essential information needed for test case generation.

PRODUCT REQUIREMENTS DOCUMENT:
" ++ prdText ++ "

Provide the structured summary following the format specified in your instructions." |}.

Module GenerateSummary.

Record Request := {
  text : option jsstring;
  provider : option jsstring;
  config : option RequestConfig
}.

(** [NextResponse.json(body, { status })] for the two bodies of this
    handler: an error, or the summary with the token usage. *)
Inductive Body :=
| ErrorBody (error : jsstring)
| SummaryBody (summary_text : jsstring) (tokenUsage : option TokenUsage).

Record Response := { status : nat; body : Body }.

Definition POST `{Platform} (backend : Backend) (request : Request) : M Response :=
  if blank (text request) then mret {| status := 400; body := ErrorBody "Text is required" |}
  else if missing (provider request) then
    mret {| status := 400; body := ErrorBody "Provider is required" |}
  else
    match provider_of (default [] (provider request)) (config request) with
    | Throw error => mret {| status := 400; body := ErrorBody (message error) |}
    | Diverge => lift Diverge
    | Ok providerInstance =>
        let messages := generatePrdSummaryPrompt (default [] (text request)) in
        r ← attempt (generate backend providerInstance messages);
        match r with
        | inl error =>
            mret {| status := 500;
                    body := ErrorBody ("Failed to generate PRD summary: " ++ message error) |}
        | inr summaryResult =>
            mret {| status := 200;
                    body := SummaryBody (trim (content summaryResult))
                              (tokenUsage summaryResult) |}
        end
    end.

End GenerateSummary.

(** ** Key utilities — [src/lib/utils/encryption.ts]

    [btoa] and [atob] are the base64 functions of the browser: [btoa]
    encodes a string of code units below 256 and throws on any other
    string; [atob] is the forgiving base64 decoder. *)

(** The base64 alphabet: upper case, lower case, digits, plus, slash. *)
Definition base64_char (i : N) : N :=
  (if i <? 26 then 65 + i
   else if i <? 52 then 97 + (i - 26)
   else if i <? 62 then 48 + (i - 52)
   else if i =? 62 then 43
   else 47)%N.

Definition base64_index (c : N) : option N :=
  (if (65 <=? c) && (c <=? 90) then Some (c - 65)
   else if (97 <=? c) && (c <=? 122) then Some (c - 71)
   else if (48 <=? c) && (c <=? 57) then Some (c + 4)
   else if c =? 43 then Some 62
   else if c =? 47 then Some 63
   else None)%N.

(** Three bytes give four characters; one or two bytes left at the end
    give two or three characters and padding. *)
Fixpoint base64_encode (bytes : list N) : jsstring :=
  match bytes with
  | a :: b :: c :: rest =>
      base64_char (a / 4) :: base64_char ((a mod 4) * 16 + b / 16)
      :: base64_char ((b mod 16) * 4 + c / 64) :: base64_char (c mod 64)
      :: base64_encode rest
  | [a; b] =>
      [base64_char (a / 4); base64_char ((a mod 4) * 16 + b / 16);
       base64_char ((b mod 16) * 4); 61]
  | [a] => [base64_char (a / 4); base64_char ((a mod 4) * 16); 61; 61]
  | [] => []
  end%N.

(** [btoa(s)]; [None] stands for the [InvalidCharacterError] it throws. *)
Definition btoa (s : jsstring) : option jsstring :=
  if forallb (fun c => c <? 256)%N s then Some (base64_encode s) else None.

Definition isAsciiWhitespace (c : N) : bool :=
  match c with 9 | 10 | 12 | 13 | 32 => true | _ => false end%N.

(** One or two padding characters at the end are removed. *)
Fixpoint strip_padding (s : jsstring) : jsstring :=
  match s with
  | [61%N] | [61%N; 61%N] => []
  | c :: r => c :: strip_padding r
  | [] => []
  end.

Fixpoint base64_indices (s : jsstring) : option (list N) :=
  match s with
  | [] => Some []
  | c :: r =>
      match base64_index c, base64_indices r with
      | Some i, Some l => Some (i :: l)
      | _, _ => None
      end
  end.

(** Four characters give three bytes; two or three characters left at the
    end give one or two bytes, their last bits being dropped. *)
Fixpoint base64_decode (indices : list N) : list N :=
  match indices with
  | i :: j :: k :: l :: rest =>
      (i * 4 + j / 16) :: ((j mod 16) * 16 + k / 4) :: ((k mod 4) * 64 + l)
      :: base64_decode rest
  | [i; j; k] => [i * 4 + j / 16; (j mod 16) * 16 + k / 4]
  | [i; j] => [i * 4 + j / 16]
  | _ => []
  end%N.

(** [atob(data)]; [None] stands for the [InvalidCharacterError] it throws:
    whitespace is ignored, padding is removed when the length is a multiple
    of four, a length of one more than a multiple of four and any character
    outside the alphabet are refused. *)
Definition atob (data : jsstring) : option jsstring :=
  let data := List.filter (fun c => negb (isAsciiWhitespace c)) data in
  let data := if Nat.eqb (length data mod 4) 0 then strip_padding data else data in
  if Nat.eqb (length data mod 4) 1 then None
  else
    match base64_indices data with
    | Some indices => Some (base64_decode indices)
    | None => None
    end.

(** [s.replace(pattern, replacement)] for a string pattern: the first
    occurrence is replaced. *)
Fixpoint replace_first (pattern replacement s : jsstring) : jsstring :=
  match after_prefix pattern s with
  | Some rest => replacement ++ rest
  | None =>
      match s with
      | [] => []
      | c :: r => c :: replace_first pattern replacement r
      end
  end.

(** [obfuscateKey(key)]; [None] when [btoa] throws. *)
Definition obfuscateKey (key : jsstring) : option jsstring :=
  match key with
  | [] => Some ""
  | _ =>
      match btoa key with
      | Some encoded => Some ("obf_" ++ encoded)
      | None => None
      end
  end.

Definition deobfuscateKey (obfuscated : jsstring) : jsstring :=
  match obfuscated with
  | [] => obfuscated
  | _ =>
      if negb (startsWith obfuscated "obf_") then obfuscated
      else
        match atob (replace_first "obf_" "" obfuscated) with
        | Some key => key
        | None => obfuscated
        end
  end.

(** The bullet, U+2022. *)
Definition bullet : N := 8226%N.

Definition maskApiKey (key : jsstring) : jsstring :=
  if length key <=? 8 then repeat bullet 8
  else take 4 key ++ repeat bullet (length key - 8) ++ drop (length key - 4) key.

Definition isValidApiKeyFormat (key provider : jsstring) : bool :=
  if blank (Some key) then false
  else
    let trimmed := trim key in
    if string_eqb provider "openai" then startsWith trimmed "sk-" && (20 <? length trimmed)
    else if string_eqb provider "azure" then 32 <=? length trimmed
    else if string_eqb provider "gemini" then startsWith trimmed "AIza" && (20 <? length trimmed)
    else 10 <? length trimmed.

(** Strings that [btoa] accepts: every code unit is below 256. *)
Definition small (key : jsstring) : Prop := Forall (fun c => (c < 256)%N) key.

(** ** CSV export — [src/lib/downloadUtils.ts]

    The export functions take records that conform to the interface
    [TestCase] of [src/types/TestCase.ts]: every field is a string and
    [steps] is an array of strings. *)

Module Typed.

Record TestCase := {
  testId : jsstring;
  title : jsstring;
  description : jsstring;
  preconditions : jsstring;
  steps : list jsstring;
  expectedResult : jsstring;
  priority : jsstring;
  type : jsstring
}.

End Typed.

(** [s.includes(sub)] *)
Fixpoint includes (s sub : jsstring) : bool :=
  startsWith s sub ||
  match s with
  | [] => false
  | _ :: r => includes r sub
  end.

(** [value.replace(re, replacement)] for the global regular expression
    [re] that matches a double quote, and a replacement of two double
    quotes. *)
Definition double_quotes (value : jsstring) : jsstring :=
  flat_map (fun c => if N.eqb c dq then [dq; dq] else [c]) value.

Definition escapeCSV (value : jsstring) : jsstring :=
  if includes value "," || includes value [dq] || includes value [10%N]
  then [dq] ++ double_quotes value ++ [dq]
  else value.

(** [s || ''] for a string [s]. *)
Definition or_empty (s : jsstring) : jsstring :=
  match s with [] => "" | _ => s end.

Definition csv_headers : list jsstring :=
  ["Test ID"; "Title"; "Description"; "Preconditions"; "Steps"; "Expected Result";
   "Priority"; "Type"].

(** The cells of one record, before escaping. *)
Definition csv_cells (tc : Typed.TestCase) : list jsstring :=
  let steps := join "; " (Typed.steps tc) in
  [or_empty (Typed.testId tc); or_empty (Typed.title tc); or_empty (Typed.description tc);
   or_empty (Typed.preconditions tc); steps; or_empty (Typed.expectedResult tc);
   or_empty (Typed.priority tc); or_empty (Typed.type tc)].

Definition testCasesToCSV (testCases : list Typed.TestCase) : jsstring :=
  let rows := map (fun tc => join "," (map escapeCSV (csv_cells tc))) testCases in
  join [10%N] (join "," csv_headers :: rows).

(** A reader of comma-separated values, to state what the export keeps:
    records end at a line feed, fields at a comma; a field that starts with
    a double quote runs to the next double quote that is not doubled, and a
    doubled double quote stands for one.  [field] holds the characters of
    the current field, newest first, [row] the fields of the current
    record, newest first. *)
Inductive csv_state := FieldStart | Plain | Quoted | QuoteSeen.

Fixpoint read_csv_from (st : csv_state) (field : jsstring) (row : list jsstring)
  (s : jsstring) : list (list jsstring) :=
  match s with
  | [] => [rev (rev field :: row)]
  | c :: r =>
      let next_field := read_csv_from FieldStart [] (rev field :: row) r in
      let next_record := rev (rev field :: row) :: read_csv_from FieldStart [] [] r in
      match st with
      | FieldStart =>
          if N.eqb c dq then read_csv_from Quoted [] row r
          else if N.eqb c 44 then next_field
          else if N.eqb c 10 then next_record
          else read_csv_from Plain [c] row r
      | Plain =>
          if N.eqb c 44 then next_field
          else if N.eqb c 10 then next_record
          else read_csv_from Plain (c :: field) row r
      | Quoted =>
          if N.eqb c dq then read_csv_from QuoteSeen field row r
          else read_csv_from Quoted (c :: field) row r
      | QuoteSeen =>
          if N.eqb c dq then read_csv_from Quoted (dq :: field) row r
          else if N.eqb c 44 then next_field
          else if N.eqb c 10 then next_record
          else read_csv_from Plain (c :: field) row r
      end
  end.

Definition read_csv (s : jsstring) : list (list jsstring) :=
  read_csv_from FieldStart [] [] s.

(** ** Choice of a Gemini model — [src/lib/providers/geminiUtils.ts]

    [findAvailableGeminiModel] asks [listAvailableGeminiModels] for the
    models the key can use, a network call that always answers (with a
    fixed list when the request fails); the choice it makes is modelled as
    a function of that answer. *)

(** [s.split(sep)[0]] for a non-empty separator: the text before the
    first occurrence of [sep], or all of [s]. *)
Fixpoint before_first (sep s : jsstring) : jsstring :=
  if startsWith s sep then []
  else match s with
       | [] => []
       | c :: r => c :: before_first sep r
       end.

(** [if (found) return found]: a result of [find] that is not the empty
    string. *)
Definition found (m : option jsstring) : option jsstring :=
  match m with
  | Some (c :: r) => Some (c :: r)
  | _ => None
  end.

Definition findAvailableGeminiModel (availableModels : list jsstring)
  (preferredModel : option jsstring) : jsstring :=
  match availableModels with
  | [] =>
      (* the exception is caught: [preferredModel || 'gemini-1.5-flash-latest'] *)
      match found preferredModel with
      | Some preferred => preferred
      | None => "gemini-1.5-flash-latest"
      end
  | first :: _ =>
      let flash_or_first :=
        match found (find (fun m => includes m "flash") availableModels) with
        | Some flashModel => flashModel
        | None => first
        end in
      match found preferredModel with
      | Some preferred =>
          if existsb (string_eqb preferred) availableModels then preferred
          else
            match found (find (fun m => string_eqb m preferred) availableModels) with
            | Some exactMatch => exactMatch
            | None =>
                match found (find (fun m =>
                                     startsWith m (before_first "-latest" preferred) ||
                                     includes m (replace_first "-latest" "" preferred))
                                  availableModels) with
                | Some patternMatch => patternMatch
                | None => flash_or_first
                end
            end
      | None => flash_or_first
      end
  end.

(** ** Provider dispatch in the browser — [src/lib/providers/client/index.ts]

    The three call functions send the request; the dispatch decides which
    one is called, with which arguments. *)

Inductive ClientCall (Messages : Type) :=
| callOpenAI (apiKey model : jsstring) (messages : Messages)
| callGemini (apiKey model : jsstring) (messages : Messages)
| callOllama (baseUrl model : jsstring) (messages : Messages).

Arguments callOpenAI {Messages}.
Arguments callGemini {Messages}.
Arguments callOllama {Messages}.

(** [x || d] for an optional string. *)
Definition or_else (x : option jsstring) (d : jsstring) : jsstring :=
  match x with
  | Some (c :: r) => c :: r
  | _ => d
  end.

(** [config] has the fields of [ProviderConfig]. *)
Definition callLLMClient {Messages} (config : ProviderConfig) (messages : Messages)
  : outcome (ClientCall Messages) :=
  if string_eqb (provider config) "openai" then
    if missing (apiKey config) then Throw (Error "OpenAI API key is required")
    else mret (callOpenAI (default [] (apiKey config))
                          (or_else (model config) "gpt-4o-mini") messages)
  else if string_eqb (provider config) "gemini" then
    if missing (apiKey config) then Throw (Error "Gemini API key is required")
    else mret (callGemini (default [] (apiKey config))
                          (or_else (model config) "gemini-1.5-flash-latest") messages)
  else if string_eqb (provider config) "ollama" then
    if missing (baseUrl config) then Throw (Error "Ollama base URL is required")
    else mret (callOllama (default [] (baseUrl config))
                          (or_else (model config) "llama3.1") messages)
  else if string_eqb (provider config) "azure" then
    Throw (Error ("Azure OpenAI requires server-side calls due to CORS restrictions. "
                  ++ "Please use OpenAI provider or self-host this application."))
  else Throw (Error ("Unsupported provider: " ++ provider config)).

(** ** Navigation state: the in-memory store between two pages

    The module keeps one variable, [navigationState]; each function is
    modelled as a function of its value, returning the new value. *)

Module NavigationState.

Record ProviderConfig := {
  provider : jsstring;
  config : RequestConfig
}.

Definition State := option ProviderConfig.

Definition initial : State := None.

Definition setNavigationState (config : ProviderConfig) (navigationState : State) : State :=
  Some config.

Definition getAndClearNavigationState (navigationState : State) : option ProviderConfig * State :=
  (navigationState, None).

Definition hasNavigationState (navigationState : State) : bool :=
  match navigationState with Some _ => true | None => false end.

(** The calls a page can make, and the state after a series of them. *)
Inductive call :=
| Set_ (config : ProviderConfig)
| GetAndClear
| Has.

Definition step (navigationState : State) (c : call) : State :=
  match c with
  | Set_ config => setNavigationState config navigationState
  | GetAndClear => (getAndClearNavigationState navigationState).2
  | Has => navigationState
  end.

Definition after (calls : list call) : State := fold_left step calls initial.

Definition is_has (c : call) : bool :=
  match c with Has => true | _ => false end.

End NavigationState.

(** * Properties *)
(** ** The token estimate *)

Lemma estimateTokens_div (text : jsstring) :
  estimateTokens text = ((Z.of_nat (length text) + 3) / 4)%Z.
Proof.
  destruct text as [|c r]; [reflexivity|].
  unfold estimateTokens, Math_ceil, Qceiling, Qfloor.
  set (n := Z.of_nat (length (c :: r))).
  cbn [Qopp Qdiv Qmult Qinv inject_Z Qnum Qden].
  change (Z.pos (1 * 4)) with 4%Z.
  Z.div_mod_to_equations. lia.
Qed.

(** C9. [estimateTokens] returns the ceiling of a quarter of the length
    of its argument, that is the least integer [k] with [length <= 4 k];
    it is 0 on the empty string, and it does not decrease when the length
    grows. *)
Theorem estimateTokens_ceiling :
  (forall text : jsstring,
      let n := Z.of_nat (length text) in
      (n <= 4 * estimateTokens text)%Z /\
      (forall k : Z, (n <= 4 * k)%Z -> (estimateTokens text <= k)%Z)) /\
  estimateTokens "" = 0%Z /\
  (forall s t : jsstring,
      length s <= length t -> (estimateTokens s <= estimateTokens t)%Z).
Proof.
  split; [|split].
  - intros text n. rewrite estimateTokens_div. fold n.
    split; [|intros k Hk]; Z.div_mod_to_equations; lia.
  - reflexivity.
  - intros s t Hlen. rewrite !estimateTokens_div.
    apply Z.div_le_mono; lia.
Qed.

Lemma estimateTokens_ceiling_witness :
  (estimateTokens "abcde" <= estimateTokens "abcdefghi")%Z.
Proof.
  apply (proj2 (proj2 estimateTokens_ceiling)). cbn. lia.
Defined.
(** ** Decimal numerals and identifiers *)

Lemma string_eqb_eq (a b : jsstring) : string_eqb a b = true <-> a = b.
Proof. unfold string_eqb. rewrite bool_decide_eq_true. reflexivity. Qed.

Lemma string_eqb_refl (a : jsstring) : string_eqb a a = true.
Proof. apply string_eqb_eq. reflexivity. Qed.

Lemma units_value_acc (d : Decimal.uint) (acc : nat) :
  fold_left (fun a c => 10 * a + (N.to_nat c - 48)) (uint_units d) acc
  = Nat.of_uint_acc d acc.
Proof.
  revert acc. induction d; intros acc; simpl; try reflexivity;
    rewrite IHd, Nat.tail_mul_spec; f_equal; simpl; lia.
Qed.

Lemma units_value_String (n : nat) : units_value (String_of_nat n) = n.
Proof.
  unfold units_value, String_of_nat. rewrite units_value_acc.
  apply DecimalNat.Unsigned.of_to.
Qed.

Lemma units_value_zeros (k : nat) (s : jsstring) :
  units_value (repeat 48%N k ++ s) = units_value s.
Proof.
  unfold units_value. rewrite fold_left_app.
  replace (fold_left _ (repeat 48%N k) 0) with 0; [reflexivity|].
  induction k; simpl; auto.
Qed.

Lemma tcId_inj (a b : nat) : tcId a = tcId b -> a = b.
Proof.
  unfold tcId, padStart. intros Heq.
  apply app_inv_head in Heq.
  apply (f_equal units_value) in Heq.
  rewrite !units_value_zeros, !units_value_String in Heq. exact Heq.
Qed.

(** ** Set membership *)

Lemma sameValueZero_VStr (v : value) (s : jsstring) :
  sameValueZero v (VStr s) = true <-> v = VStr s.
Proof.
  destruct v; simpl; try (split; [discriminate|intros [=]]).
  rewrite string_eqb_eq. split; [intros ->|intros [= ->]]; reflexivity.
Qed.

Lemma sameValueZero_VStr_l (v : value) (s : jsstring) :
  sameValueZero (VStr s) v = true <-> v = VStr s.
Proof.
  destruct v; simpl; try (split; [discriminate|intros [=]]).
  rewrite string_eqb_eq. split; [intros ->|intros [= ->]]; reflexivity.
Qed.

Lemma Set_has_VStr (ids : list value) (s : jsstring) :
  Set_has ids (VStr s) = true <-> In (VStr s) ids.
Proof.
  unfold Set_has. rewrite existsb_exists. split.
  - intros (u & Hin & Hu). apply sameValueZero_VStr_l in Hu. subst u. exact Hin.
  - intros Hin. exists (VStr s). split; [exact Hin|]. apply sameValueZero_VStr_l. reflexivity.
Qed.

Lemma Set_has_app (a b : list value) (v : value) :
  Set_has (a ++ b) v = Set_has a v || Set_has b v.
Proof. unfold Set_has. apply existsb_app. Qed.

Lemma Set_has_add (ids : list value) (u v : value) :
  Set_has (Set_add ids u) v = Set_has ids v || (negb (Set_has ids u) && sameValueZero v u).
Proof.
  unfold Set_add. destruct (Set_has ids u) eqn:Hu; simpl.
  - rewrite orb_false_r. reflexivity.
  - rewrite Set_has_app. simpl. rewrite orb_false_r. reflexivity.
Qed.

Lemma Set_has_fold (l acc : list value) (v : value) :
  Set_has (fold_left Set_add l acc) v = Set_has acc v || Set_has l v.
Proof.
  revert acc. induction l as [|u l IH]; intros acc; simpl.
  - rewrite orb_false_r. reflexivity.
  - rewrite IH, Set_has_add.
    destruct (Set_has acc v) eqn:Hv; simpl; [reflexivity|].
    destruct (sameValueZero v u) eqn:Hvu; simpl;
      [|rewrite andb_false_r; reflexivity].
    destruct (Set_has acc u) eqn:Hu; simpl; [|reflexivity].
    (* v and u are the same value, and u is in acc while v is not *)
    exfalso. unfold Set_has in Hv, Hu.
    apply existsb_exists in Hu as (w & Hin & Hw).
    assert (existsb (sameValueZero v) acc = true) as Habs; [|congruence].
    apply existsb_exists. exists w. split; [exact Hin|].
    destruct v, u, w; simpl in *; try discriminate; try reflexivity;
      try (apply eqb_prop in Hvu); try (apply eqb_prop in Hw);
      try (apply string_eqb_eq in Hvu); try (apply string_eqb_eq in Hw);
      subst; try apply eqb_reflx; try apply string_eqb_refl.
Qed.

Lemma Set_has_of (l : list value) (v : value) : Set_has (Set_of l) v = Set_has l v.
Proof. unfold Set_of. rewrite Set_has_fold. reflexivity. Qed.
(** ** The identifier probe always ends *)

Lemma beyond_length_le (c : nat) (ids : list value) : length (beyond c ids) <= length ids.
Proof. unfold beyond. apply List.filter_length_le. Qed.

Lemma filter_length_mono {A} (p q : A -> bool) (l : list A) :
  (forall w, p w = true -> q w = true) ->
  length (List.filter p l) <= length (List.filter q l).
Proof.
  intros Hmono. induction l as [|w l IH]; [reflexivity|]. cbn [List.filter].
  destruct (p w) eqn:E; [rewrite (Hmono w E)|destruct (q w)]; cbn [length]; lia.
Qed.

Lemma filter_length_drop {A} (p q : A -> bool) (l : list A) (x : A) :
  (forall w, p w = true -> q w = true) ->
  In x l -> q x = true -> p x = false ->
  length (List.filter p l) < length (List.filter q l).
Proof.
  intros Hmono Hin Hq Hp. induction l as [|w l IH]; [destruct Hin|].
  cbn [List.filter]. destruct Hin as [->|Hin].
  - rewrite Hq, Hp. cbn [length].
    pose proof (filter_length_mono p q l Hmono). lia.
  - specialize (IH Hin).
    destruct (p w) eqn:E; [rewrite (Hmono w E)|destruct (q w)]; cbn [length]; lia.
Qed.

Lemma beyond_step (c : nat) (ids : list value) :
  Set_has ids (VStr (tcId c)) = true ->
  length (beyond (S c) ids) < length (beyond c ids).
Proof.
  intros Hhas. apply Set_has_VStr in Hhas. unfold beyond.
  apply (filter_length_drop _ _ _ (VStr (tcId c))); [|exact Hhas| |].
  - intros w. rewrite seq_S, forallb_app. intros [H _]%andb_true_iff. exact H.
  - apply forallb_forall. intros k Hk%in_seq.
    apply negb_true_iff. destruct (sameValueZero _ _) eqn:E; [|reflexivity].
    apply sameValueZero_VStr in E.
    assert (tcId c = tcId k) as E' by congruence. apply tcId_inj in E'. lia.
  - rewrite seq_S, forallb_app. cbn [forallb Nat.add].
    rewrite (proj2 (sameValueZero_VStr _ _) eq_refl). cbn [negb andb].
    apply andb_false_r.
Qed.

Lemma claim_loop_next (ids : list value) (fuel c : nat) :
  length (beyond c ids) <= fuel ->
  exists k, c <= k /\
    claim_loop fuel ids (VStr (tcId c)) (S c) = Ok (VStr (tcId k)) /\
    Set_has ids (VStr (tcId k)) = false /\
    (forall j, c <= j < k -> Set_has ids (VStr (tcId j)) = true).
Proof.
  revert c. induction fuel as [|fuel IH]; intros c Hlen.
  - simpl. destruct (Set_has ids (VStr (tcId c))) eqn:Hhas.
    + apply beyond_step in Hhas. lia.
    + exists c. repeat split; auto. intros j ?. lia.
  - simpl. destruct (Set_has ids (VStr (tcId c))) eqn:Hhas.
    + destruct (IH (S c)) as (k & Hk & Hrun & Hfree & Hbelow).
      { apply beyond_step in Hhas. lia. }
      exists k. repeat split; auto; [lia|].
      intros j Hj. destruct (decide (j = c)) as [->|Hne]; [exact Hhas|].
      apply Hbelow. lia.
    + exists c. repeat split; auto. intros j ?. lia.
Qed.

(** The probe of [normalizeTestCase]: it ends, the identifier it returns
    is unclaimed, and it is the first unclaimed one in the order probed. *)
Lemma claim_loop_total (ids : list value) (testId0 : value) (c : nat) :
  exists r,
    claim_loop (S (length ids)) ids testId0 c = Ok r /\
    Set_has ids r = false /\
    (Set_has ids testId0 = false -> r = testId0) /\
    (Set_has ids testId0 = true ->
       exists k, c <= k /\ r = VStr (tcId k) /\
                 (forall j, c <= j < k -> Set_has ids (VStr (tcId j)) = true)).
Proof.
  simpl. destruct (Set_has ids testId0) eqn:Hhas.
  - destruct (claim_loop_next ids (length ids) c (beyond_length_le c ids))
      as (k & Hk & Hrun & Hfree & Hbelow).
    exists (VStr (tcId k)). repeat split; auto; [discriminate|].
    intros _. exists k. auto.
  - exists testId0. repeat split; auto. discriminate.
Qed.

(** More fuel never changes the result of a probe that ended. *)
Lemma claim_loop_fuel (ids : list value) (fuel fuel' c : nat) (t r : value) :
  claim_loop fuel ids t c = Ok r -> fuel <= fuel' -> claim_loop fuel' ids t c = Ok r.
Proof.
  revert fuel' t c. induction fuel as [|fuel IH]; intros fuel' t c Hrun Hle.
  - simpl in Hrun. destruct fuel'; simpl; destruct (Set_has ids t); congruence.
  - destruct fuel' as [|fuel'']; [lia|]. simpl in *.
    destruct (Set_has ids t); [|exact Hrun]. apply IH; [exact Hrun|lia].
Qed.
(** ** The record normaliser *)

(** On an object the normaliser reads eight properties and cannot throw;
    the only step that could fail to end is the probe. *)
Lemma normalizeTestCase_object (props : list (jsstring * value)) (index : nat)
  (existingIds : option (list value)) :
  normalizeTestCase (VObj props) index existingIds =
  let testId0 := JS.or (lookup_prop "testId" props) (VStr (tcId (index + 1))) in
  let fill := fun (id : value) =>
    {| testId := id;
       title := JS.or (lookup_prop "title" props)
                  (VStr ("Test Case " ++ String_of_nat (index + 1)));
       description := JS.or (lookup_prop "description" props) (VStr "");
       preconditions := JS.or (lookup_prop "preconditions" props) (VStr "");
       steps := match lookup_prop "steps" props with VArr l => l | _ => [] end;
       expectedResult := JS.or (lookup_prop "expectedResult" props) (VStr "");
       priority := JS.or (lookup_prop "priority" props) (VStr "Medium");
       type := JS.or (lookup_prop "type" props) (VStr "Functional") |} in
  match existingIds with
  | Some ids =>
      match claim_loop (S (length ids)) ids testId0 (index + 1) with
      | Ok id => Ok (fill id, Some (Set_add ids id))
      | Throw e => Throw e
      | Diverge => Diverge
      end
  | None => Ok (fill testId0, None)
  end.
Proof.
  unfold normalizeTestCase. cbn [get mbind outcome_bind JS.bind mret outcome_ret].
  destruct existingIds as [ids|]; [|reflexivity].
  cbn [mbind outcome_bind JS.bind mret outcome_ret].
  destruct (claim_loop _ _ _ _); reflexivity.
Qed.

(** C5. The record normaliser is total on records: for every object (also
    the empty one), every position and every optional set of claimed
    identifiers it returns a record with its eight fields, and a field
    that is absent from the input holds its default: title [Test Case n]
    with [n = index + 1], the empty string for description, preconditions
    and expected result, no steps when [steps] is not an array, priority
    [Medium] and type [Functional]. *)
Theorem normalizeTestCase_total_defaults
  (props : list (jsstring * value)) (index : nat) (existingIds : option (list value)) :
  exists (r : TestCase) (ids' : option (list value)),
    normalizeTestCase (VObj props) index existingIds = Ok (r, ids') /\
    (lookup_prop "title" props = VUndefined ->
       title r = VStr ("Test Case " ++ String_of_nat (index + 1))) /\
    (lookup_prop "description" props = VUndefined -> description r = VStr "") /\
    (lookup_prop "preconditions" props = VUndefined -> preconditions r = VStr "") /\
    (lookup_prop "expectedResult" props = VUndefined -> expectedResult r = VStr "") /\
    (isArray (lookup_prop "steps" props) = false -> steps r = []) /\
    (forall l, lookup_prop "steps" props = VArr l -> steps r = l) /\
    (lookup_prop "priority" props = VUndefined -> priority r = VStr "Medium") /\
    (lookup_prop "type" props = VUndefined -> type r = VStr "Functional") /\
    (lookup_prop "testId" props = VUndefined -> existingIds = None ->
       testId r = VStr (tcId (index + 1))).
Proof.
  rewrite normalizeTestCase_object. cbv zeta.
  assert (forall d, lookup_prop "steps" props = d ->
                    isArray d = false -> match d with VArr l => l | _ => [] end = []) as Hsteps.
  { intros [] _; simpl; congruence. }
  destruct existingIds as [ids|].
  - destruct (claim_loop_total ids
                (JS.or (lookup_prop "testId" props) (VStr (tcId (index + 1)))) (index + 1))
      as (id & -> & _).
    eexists _, _. split; [reflexivity|]. cbn [title description preconditions
      expectedResult steps priority type testId].
    repeat split; try (intros ->; reflexivity); [eauto|intros l ->; reflexivity|discriminate].
  - eexists _, _. split; [reflexivity|]. cbn [title description preconditions
      expectedResult steps priority type testId].
    repeat split; try (intros ->; reflexivity); [eauto|intros l ->; reflexivity].
Qed.

Lemma normalizeTestCase_total_defaults_witness :
  exists r ids',
    normalizeTestCase (VObj []) 0 None = Ok (r, ids') /\
    title r = VStr "Test Case 1" /\ description r = VStr "" /\
    steps r = [] /\ priority r = VStr "Medium" /\ type r = VStr "Functional".
Proof.
  destruct (normalizeTestCase_total_defaults [] 0 None)
    as (r & ids' & Hrun & Ht & Hd & _ & _ & Hs & _ & Hp & Hty & _).
  exists r, ids'. repeat split; auto.
Defined.
(** ** Identifier uniqueness *)

Lemma record_testId0 (props : list (jsstring * value)) (n : nat) :
  plain_id (lookup_prop "testId" props) = true ->
  exists s, JS.or (lookup_prop "testId" props) (VStr (tcId n)) = VStr s.
Proof.
  unfold JS.or. destruct (lookup_prop "testId" props) as [| | | |s| |]; try discriminate.
  - eauto.
  - destruct s; simpl; eauto.
Qed.

Lemma not_Set_has_VStr (ids : list value) (s : jsstring) :
  Set_has ids (VStr s) = false <-> ~ In (VStr s) ids.
Proof.
  rewrite <- Set_has_VStr. destruct (Set_has ids (VStr s)); split; congruence.
Qed.

(** One record against a set of claimed identifiers. *)
Lemma normalizeTestCase_claims (props : list (jsstring * value)) (index : nat)
  (ids : list value) :
  is_record (VObj props) = true ->
  exists (r : TestCase) (s : jsstring),
    normalizeTestCase (VObj props) index (Some ids) = Ok (r, Some (ids ++ [VStr s])) /\
    testId r = VStr s /\
    ~ In (VStr s) ids /\
    let testId0 := JS.or (lookup_prop "testId" props) (VStr (tcId (index + 1))) in
    (~ In testId0 ids -> VStr s = testId0) /\
    (In testId0 ids ->
       exists k, index + 1 <= k /\ s = tcId k /\
                 forall j, index + 1 <= j < k -> In (VStr (tcId j)) ids).
Proof.
  intros Hrec. cbn [is_record] in Hrec.
  destruct (record_testId0 props (index + 1) Hrec) as (s0 & Hs0).
  rewrite normalizeTestCase_object. cbv zeta. rewrite Hs0.
  destruct (claim_loop_total ids (VStr s0) (index + 1)) as (id & -> & Hfree & Hmiss & Hhit).
  destruct (Set_has ids (VStr s0)) eqn:Hhas.
  - destruct (Hhit eq_refl) as (k & Hk & -> & Hbelow).
    apply not_Set_has_VStr in Hfree.
    eexists _, (tcId k). unfold Set_add.
    rewrite (proj2 (not_Set_has_VStr _ _) Hfree).
    repeat split; auto.
    + intros Hnot. apply Set_has_VStr in Hhas. contradiction.
    + intros _. exists k. repeat split; auto.
      intros j Hj. apply Set_has_VStr. auto.
  - rewrite (Hmiss eq_refl) in *. apply not_Set_has_VStr in Hfree.
    eexists _, s0. unfold Set_add. rewrite Hhas.
    repeat split; auto. intros Hin. contradiction.
Qed.

Lemma normalize_from_distinct (batch : list value) (offset start : nat) (ids : list value) :
  Forall (fun tc => is_record tc = true) batch ->
  exists rs,
    normalize_from offset start batch ids = Ok rs /\
    length rs = length batch /\
    List.NoDup (map testId rs) /\
    (forall r, In r rs -> exists s, testId r = VStr s /\ ~ In (VStr s) ids).
Proof.
  revert start ids. induction batch as [|tc batch IH]; intros start ids Hall.
  - exists []. repeat split; [constructor|intros r []].
  - apply Forall_cons in Hall as [Htc Hall].
    destruct tc as [| | | | | |props]; try discriminate.
    destruct (normalizeTestCase_claims props (offset + start + 1) ids Htc)
      as (r & s & Hrun & Hid & Hfree & _).
    destruct (IH (S start) (ids ++ [VStr s]) Hall) as (rs & Hrs & Hlen & Hnodup & Hout).
    exists (r :: rs). cbn [normalize_from mbind outcome_bind JS.bind mret outcome_ret].
    rewrite Hrun. cbn [mbind outcome_bind JS.bind mret outcome_ret fst snd from_option id]. rewrite Hrs.
    cbn [mbind outcome_bind JS.bind mret outcome_ret fst snd].
    repeat split.
    + cbn [length]. congruence.
    + cbn [map]. constructor; [|exact Hnodup].
      rewrite Hid. intros Hin. apply in_map_iff in Hin as (r' & Hr' & Hin').
      destruct (Hout r' Hin') as (s' & Hs' & Hnot). apply Hnot.
      apply in_or_app. right. left. congruence.
    + intros r' [<-|Hin'].
      * exists s. split; assumption.
      * destruct (Hout r' Hin') as (s' & Hs' & Hnot). exists s'. split; [exact Hs'|].
        intros Hin. apply Hnot. apply in_or_app. left. exact Hin.
Qed.

Lemma map_testId_objects (existing : list value) :
  Forall (fun e => isObject e = true) existing ->
  exists ids, map_testId existing = Ok ids /\
    forall e v, In e existing -> get e "testId" = Ok v -> In v ids.
Proof.
  induction existing as [|e existing IH]; intros Hall.
  - exists []. split; [reflexivity|intros e v []].
  - apply Forall_cons in Hall as [He Hall]. destruct (IH Hall) as (ids & Hids & Hin).
    destruct e as [| | | | | |props]; try discriminate.
    exists (lookup_prop "testId" props :: ids).
    cbn [map_testId get mbind outcome_bind JS.bind mret outcome_ret]. rewrite Hids.
    split; [reflexivity|]. intros e v [<-|He'] Hget.
    + left. cbn [get] in Hget. congruence.
    + right. eauto.
Qed.

(** C4. With a set of claimed identifiers the normaliser probes
    identifiers in order from [index + 1] until it meets an unclaimed one,
    claims it, and always ends.  With [TC-001] and [TC-002] claimed, a
    record without testId at position 2 receives [TC-003].  A batch
    normalised against an existing working set receives identifiers that
    are pairwise distinct and differ from every existing identifier. *)
Theorem normalizeTestCase_unique_ids :
  (forall (props : list (jsstring * value)) (index : nat) (ids : list value),
      is_record (VObj props) = true ->
      exists (r : TestCase) (s : jsstring),
        normalizeTestCase (VObj props) index (Some ids) = Ok (r, Some (ids ++ [VStr s])) /\
        testId r = VStr s /\
        ~ In (VStr s) ids /\
        let testId0 := JS.or (lookup_prop "testId" props) (VStr (tcId (index + 1))) in
        (~ In testId0 ids -> VStr s = testId0) /\
        (In testId0 ids ->
           exists k, index + 1 <= k /\ s = tcId k /\
                     forall j, index + 1 <= j < k -> In (VStr (tcId j)) ids)) /\
  (exists r ids',
      normalizeTestCase (VObj []) 2 (Some [VStr "TC-001"; VStr "TC-002"]) = Ok (r, ids') /\
      testId r = VStr "TC-003") /\
  (forall batch existing : list value,
      Forall (fun tc => is_record tc = true) batch ->
      Forall (fun e => isObject e = true) existing ->
      exists rs,
        normalizeTestCases batch existing = Ok rs /\
        length rs = length batch /\
        List.NoDup (map testId rs) /\
        forall r e v, In r rs -> In e existing -> get e "testId" = Ok v -> testId r <> v).
Proof.
  split; [exact normalizeTestCase_claims|split].
  - eexists _, _. split; [vm_compute; reflexivity|reflexivity].
  - intros batch existing Hbatch Hexisting.
    destruct (map_testId_objects existing Hexisting) as (ids & Hids & Hin).
    destruct (normalize_from_distinct batch (length existing) 0 (Set_of ids) Hbatch)
      as (rs & Hrs & Hlen & Hnodup & Hout).
    exists rs. unfold normalizeTestCases.
    cbn [mbind outcome_bind JS.bind]. rewrite Hids. cbn [JS.bind].
    repeat split; auto.
    intros r e v Hr He Hget Heq.
    destruct (Hout r Hr) as (s & Hs & Hnot). apply Hnot.
    apply Set_has_VStr. rewrite Set_has_of. apply Set_has_VStr.
    rewrite <- Hs, Heq. eauto.
Qed.

Lemma normalizeTestCase_unique_ids_witness :
  exists rs,
    normalizeTestCases [VObj [("testId", VStr "TC-001")]; VObj []]
                       [VObj [("testId", VStr "TC-001")]; VObj [("testId", VStr "TC-002")]]
    = Ok rs /\
    List.NoDup (map testId rs).
Proof.
  destruct (proj2 (proj2 normalizeTestCase_unique_ids)
              [VObj [("testId", VStr "TC-001")]; VObj []]
              [VObj [("testId", VStr "TC-001")]; VObj [("testId", VStr "TC-002")]])
    as (rs & Hrun & _ & Hnodup & _).
  - repeat constructor.
  - repeat constructor.
  - exists rs. split; assumption.
Defined.
(** ** Identifiers of an initial batch *)

Lemma normalizeTestCase_default_id (props : list (jsstring * value)) (index : nat)
  (ids : list value) :
  lookup_prop "testId" props = VUndefined ->
  ~ In (VStr (tcId (index + 1))) ids ->
  exists r,
    normalizeTestCase (VObj props) index (Some ids)
    = Ok (r, Some (ids ++ [VStr (tcId (index + 1))])) /\
    testId r = VStr (tcId (index + 1)).
Proof.
  intros Habsent Hfree.
  destruct (normalizeTestCase_claims props index ids) as (r & s & Hrun & Hid & _ & Hmiss & _).
  { cbn [is_record]. rewrite Habsent. reflexivity. }
  cbv zeta in Hmiss. rewrite Habsent in Hmiss. cbn [JS.or truthy] in Hmiss.
  specialize (Hmiss Hfree). injection Hmiss as ->.
  exists r. split; assumption.
Qed.

(** Three records without testId, normalised against an empty working
    set. *)
Lemma normalizeTestCases_three (p1 p2 p3 : list (jsstring * value)) :
  lookup_prop "testId" p1 = VUndefined ->
  lookup_prop "testId" p2 = VUndefined ->
  lookup_prop "testId" p3 = VUndefined ->
  exists r1 r2 r3,
    normalizeTestCases [VObj p1; VObj p2; VObj p3] [] = Ok [r1; r2; r3] /\
    testId r1 = VStr "TC-002" /\ testId r2 = VStr "TC-003" /\ testId r3 = VStr "TC-004".
Proof.
  intros H1 H2 H3.
  destruct (normalizeTestCase_default_id p1 1 [] H1) as (r1 & Hr1 & Hid1); [intros []|].
  destruct (normalizeTestCase_default_id p2 2 [VStr (tcId 2)] H2) as (r2 & Hr2 & Hid2).
  { intros [Heq|[]]. vm_compute in Heq. discriminate. }
  destruct (normalizeTestCase_default_id p3 3 [VStr (tcId 2); VStr (tcId 3)] H3)
    as (r3 & Hr3 & Hid3).
  { intros [Heq|[Heq|[]]]; vm_compute in Heq; discriminate. }
  exists r1, r2, r3. split; [|auto].
  unfold normalizeTestCases.
  cbn [mbind outcome_bind JS.bind mret outcome_ret map_testId normalize_from
       length Nat.add Set_of fold_left].
  cbn [Nat.add] in Hr1, Hr2, Hr3.
  rewrite Hr1.
  cbn [mbind outcome_bind JS.bind mret outcome_ret normalize_from fst snd from_option id app Nat.add].
  rewrite Hr2.
  cbn [mbind outcome_bind JS.bind mret outcome_ret normalize_from fst snd from_option id app Nat.add].
  rewrite Hr3. reflexivity.
Qed.

(** The initial-batch handler on a request that passes validation, when
    the backend answers. *)
Lemma generate_cases_POST_answered `{Platform} `{Wording} (backend : Backend)
  (request : GenerateCases.Request) (providerInstance : Provider)
  (result : GenerateResult) (tr : list event) :
  blank (GenerateCases.text request) = false ->
  missing (GenerateCases.provider request) = false ->
  provider_of (default [] (GenerateCases.provider request)) (GenerateCases.config request)
  = Ok providerInstance ->
  let messages :=
    generateTestCasePrompt (default [] (GenerateCases.text request))
      (GenerateCases.count request) in
  backend tr providerInstance messages = Ok result ->
  GenerateCases.POST backend request tr
  = GenerateCases.parse_phase (content result) (tokenUsage result)
      (GenerateCases.summary request) (tr ++ [EvGenerate providerInstance messages]).
Proof.
  intros Htext Hprovider Hinstance messages Hanswer.
  unfold GenerateCases.POST. rewrite Htext, Hprovider, Hinstance.
  fold messages. unfold mbind at 1. unfold M_bind, attempt, generate.
  rewrite Hanswer. reflexivity.
Qed.

(** C1 (the code departs from the claim). In the initial batch
    generation operation, when the backend returns a well-formed array of
    three records without testId, the handler answers with exactly three
    records; their identifiers are [TC-002], [TC-003], [TC-004] and not
    [TC-001], [TC-002], [TC-003]: [normalizeTestCases] passes
    [length + index + 1] as the position and [normalizeTestCase] adds one
    again. *)
Theorem initial_batch_identifiers `{Platform} `{Wording} (backend : Backend)
  (request : GenerateCases.Request) (providerInstance : Provider)
  (result : GenerateResult) (p1 p2 p3 : list (jsstring * value)) (tr : list event) :
  blank (GenerateCases.text request) = false ->
  missing (GenerateCases.provider request) = false ->
  provider_of (default [] (GenerateCases.provider request)) (GenerateCases.config request)
  = Ok providerInstance ->
  backend tr providerInstance
    (generateTestCasePrompt (default [] (GenerateCases.text request))
       (GenerateCases.count request))
  = Ok result ->
  parseTestCasesFromLLM (content result) = Ok [VObj p1; VObj p2; VObj p3] ->
  lookup_prop "testId" p1 = VUndefined ->
  lookup_prop "testId" p2 = VUndefined ->
  lookup_prop "testId" p3 = VUndefined ->
  exists r1 r2 r3,
    (GenerateCases.POST backend request tr).1
    = Ok {| status := 200;
            body := TestCasesBody [r1; r2; r3] 3 (tokenUsage result)
                      (if missing (GenerateCases.summary request) then None
                       else GenerateCases.summary request) |} /\
    testId r1 = VStr "TC-002" /\ testId r2 = VStr "TC-003" /\ testId r3 = VStr "TC-004".
Proof.
  intros Htext Hprovider Hinstance Hanswer Hparse H1 H2 H3.
  destruct (normalizeTestCases_three p1 p2 p3 H1 H2 H3) as (r1 & r2 & r3 & Hnorm & Hids).
  exists r1, r2, r3. split; [|exact Hids].
  rewrite (generate_cases_POST_answered backend request providerInstance result tr
             Htext Hprovider Hinstance Hanswer).
  unfold GenerateCases.parse_phase.
  unfold mbind, M_bind, attempt, parsing, lift, mret, M_ret.
  rewrite Hparse, Hnorm. reflexivity.
Qed.

Lemma initial_batch_identifiers_witness :
  exists r1 r2 r3,
    (GenerateCases.POST (scripted [answer three_records]) login_request []).1
    = Ok {| status := 200; body := TestCasesBody [r1; r2; r3] 3 None None |} /\
    testId r1 = VStr "TC-002" /\ testId r2 = VStr "TC-003" /\ testId r3 = VStr "TC-004".
Proof.
  apply (initial_batch_identifiers (scripted [answer three_records]) login_request
           sample_provider {| content := three_records; tokenUsage := None |}
           [("title", VStr "Login with valid credentials")]
           [("title", VStr "Login with a wrong password")]
           [("title", VStr "Login with an empty email")] []);
    vm_compute; reflexivity.
Defined.
(** ** Refinement keeps the identifier *)

Lemma parseTestCaseFromLLM_object (text : jsstring) (v : value) :
  parseTestCaseFromLLM text = Ok v -> exists props, v = VObj props.
Proof.
  unfold parseTestCaseFromLLM. cbn [mbind outcome_bind JS.bind].
  destruct (JSON_parse _) as [parsed| |]; cbn [JS.bind]; try discriminate.
  destruct parsed; cbn; try discriminate. intros [= <-]. eauto.
Qed.

Lemma finalize_testId (props : list (jsstring * value)) (testCase : value)
  (s0 : jsstring) (index : nat) :
  get testCase "testId" = Ok (VStr s0) -> s0 <> [] ->
  exists r,
    RefineTestCase.finalize (VObj props) testCase = Ok r /\
    testId r = JS.or (lookup_prop "testId" props) (VStr s0).
Proof.
  intros Hget Hne. unfold RefineTestCase.finalize.
  cbn [get mbind outcome_bind JS.bind mret outcome_ret].
  assert (exists id, (if truthy (lookup_prop "testId" props)
                      then mret (lookup_prop "testId" props) else get testCase "testId")
                     = Ok id /\ truthy id = true /\
                     id = JS.or (lookup_prop "testId" props) (VStr s0)) as (id & -> & Htruthy & Hid).
  { unfold JS.or. destruct (truthy (lookup_prop "testId" props)) eqn:E.
    - eexists. repeat split. exact E.
    - rewrite Hget. eexists. repeat split. destruct s0; [contradiction|reflexivity]. }
  cbn [mbind outcome_bind JS.bind mret outcome_ret]. rewrite normalizeTestCase_object. cbv zeta.
  cbn [mbind outcome_bind JS.bind mret outcome_ret].
  eexists. split; [reflexivity|]. cbn [fst testId].
  assert (lookup_prop "testId" (set_prop "testId" id props) = id) as ->.
  { clear. induction props as [|[k v] props IH]; cbn [set_prop lookup_prop].
    - rewrite string_eqb_refl. reflexivity.
    - destruct (string_eqb "testId" k) eqn:E; cbn [lookup_prop]; rewrite E; auto. }
  unfold JS.or at 1. rewrite Htruthy. exact Hid.
Qed.

(** The parse phase of the refinement handler when the first parse
    succeeds. *)
Lemma refine_parse_phase_testId `{Platform} `{Wording} (backend : Backend)
  (providerInstance : Provider) (system : jsstring) (testCase : value)
  (generatedText : jsstring) (props : list (jsstring * value)) (s0 : jsstring)
  (tr : list event) :
  let cleaned := default (trim generatedText) (RefineTestCase.match_braces (trim generatedText)) in
  parseTestCaseFromLLM cleaned = Ok (VObj props) ->
  get testCase "testId" = Ok (VStr s0) -> s0 <> [] ->
  exists refined,
    RefineTestCase.parse_phase backend providerInstance system testCase generatedText tr
    = (Ok {| status := 200; body := TestCaseBody refined |}, tr ++ [EvParse cleaned]) /\
    (forall s, lookup_prop "testId" props = VStr s -> s <> [] -> testId refined = VStr s) /\
    (lookup_prop "testId" props = VUndefined \/ lookup_prop "testId" props = VStr [] ->
       testId refined = VStr s0).
Proof.
  intros cleaned Hparse Hget Hne.
  destruct (finalize_testId props testCase s0 0 Hget Hne) as (r & Hfin & Hid).
  exists r. split; [|split].
  - unfold RefineTestCase.parse_phase.
    cbn [RefineTestCase.parse_loop RefineTestCase.maxAttempts RefineTestCase.parseAttempts
         Nat.ltb Nat.leb].
    unfold RefineTestCase.loop_body. cbn [RefineTestCase.cleanedText].
    fold cleaned.
    replace (match RefineTestCase.match_braces (trim generatedText) with
             | Some jsonMatch => jsonMatch | None => trim generatedText end) with cleaned
      by (unfold cleaned; destruct (RefineTestCase.match_braces _); reflexivity).
    unfold mbind, M_bind, attempt, parsing, mret, M_ret. rewrite Hparse.
    cbn [fst snd RefineTestCase.parsed]. rewrite Hfin. reflexivity.
  - intros s Hs Hs'. rewrite Hid, Hs. destruct s; [contradiction|reflexivity].
  - intros [Hs|Hs]; rewrite Hid, Hs; reflexivity.
Qed.

(** The refinement handler on a request that passes validation, when the
    backend answers. *)
Lemma refine_POST_answered `{Platform} `{Wording} (backend : Backend)
  (request : RefineTestCase.Request) (providerInstance : Provider)
  (result : GenerateResult) (tr : list event) :
  blank (RefineTestCase.summary request) = false ->
  truthy (RefineTestCase.testCase request) = true ->
  blank (RefineTestCase.followup request) = false ->
  provider_of (RefineTestCase.provider request) (RefineTestCase.config request)
  = Ok providerInstance ->
  let messages :=
    refineTestCasePrompt (default [] (RefineTestCase.summary request))
      (RefineTestCase.testCase request) (default [] (RefineTestCase.followup request)) in
  backend tr providerInstance messages = Ok result ->
  RefineTestCase.POST backend request tr
  = RefineTestCase.parse_phase backend providerInstance (system messages)
      (RefineTestCase.testCase request) (content result)
      (tr ++ [EvGenerate providerInstance messages]).
Proof.
  intros Hsummary Hrecord Hfollowup Hinstance messages Hanswer.
  unfold RefineTestCase.POST. rewrite Hsummary, Hrecord, Hfollowup, Hinstance.
  cbn [negb]. fold messages. unfold mbind at 1. unfold M_bind, attempt, generate.
  rewrite Hanswer. reflexivity.
Qed.

Lemma get_string_truthy (v : value) (key s : jsstring) :
  get v key = Ok (VStr s) -> truthy v = true.
Proof. destruct v; cbn; intros Hget; try discriminate; reflexivity. Qed.

(** C10. In the refinement operation, for an input record whose testId
    is a non-empty string: when the backend answers and the response
    parses, the request succeeds
    and the refined record keeps the testId of the parsed object if that
    is a non-empty string, and takes the testId of the input record if the
    parsed one is missing or empty.  The position-derived default is not
    used. *)
Theorem refine_preserves_testId `{Platform} `{Wording} (backend : Backend)
  (request : RefineTestCase.Request) (providerInstance : Provider)
  (result : GenerateResult) (props : list (jsstring * value)) (s0 : jsstring)
  (tr : list event) :
  let messages :=
    refineTestCasePrompt (default [] (RefineTestCase.summary request))
      (RefineTestCase.testCase request) (default [] (RefineTestCase.followup request)) in
  let cleaned :=
    default (trim (content result)) (RefineTestCase.match_braces (trim (content result))) in
  blank (RefineTestCase.summary request) = false ->
  blank (RefineTestCase.followup request) = false ->
  provider_of (RefineTestCase.provider request) (RefineTestCase.config request)
  = Ok providerInstance ->
  backend tr providerInstance messages = Ok result ->
  parseTestCaseFromLLM cleaned = Ok (VObj props) ->
  get (RefineTestCase.testCase request) "testId" = Ok (VStr s0) -> s0 <> [] ->
  exists refined,
    RefineTestCase.POST backend request tr
    = (Ok {| status := 200; body := TestCaseBody refined |},
       (tr ++ [EvGenerate providerInstance messages]) ++ [EvParse cleaned]) /\
    (forall s, lookup_prop "testId" props = VStr s -> s <> [] -> testId refined = VStr s) /\
    (lookup_prop "testId" props = VUndefined \/ lookup_prop "testId" props = VStr [] ->
       testId refined = VStr s0).
Proof.
  intros messages cleaned Hsummary Hfollowup Hinstance Hanswer Hparse Hget Hne.
  rewrite (refine_POST_answered backend request providerInstance result tr Hsummary
             (get_string_truthy _ _ _ Hget) Hfollowup Hinstance Hanswer).
  exact (refine_parse_phase_testId backend providerInstance (system messages)
           (RefineTestCase.testCase request) (content result) props s0
           (tr ++ [EvGenerate providerInstance messages]) Hparse Hget Hne).
Qed.
(** ** Required configuration fields *)

(** C3 (counterexample). Kind A ([openai]) is built without a model, and
    kind C ([ollama]) without model and base URL: the constructors'
    default parameter values apply, no error is raised. *)
Lemma createProvider_model_not_required :
  createProvider {| provider := "openai"; apiKey := Some "sk-test"; model := None;
                    endpoint := None; deployment := None; apiVersion := None;
                    baseUrl := None |}
  = Ok (openaiProvider "sk-test" "gpt-4o-mini") /\
  createProvider {| provider := "ollama"; apiKey := None; model := None;
                    endpoint := None; deployment := None; apiVersion := None;
                    baseUrl := None |}
  = Ok (ollamaProvider "llama3.1" "http://localhost:11434").
Proof. split; reflexivity. Qed.

Lemma provider_cases (config : ProviderConfig) (name : jsstring) :
  provider config = name -> string_eqb (provider config) name = true.
Proof. intros ->. apply string_eqb_refl. Qed.

(** C3 (amended). [createProvider] raises an [Error] exactly when a
    required field is missing (absent or empty), where the required
    fields are: apiKey for [openai] and [gemini]; apiKey, endpoint,
    deployment and apiVersion for [azure]; none for [ollama].  The
    handlers call it before any [generate] call: when it raises, they
    answer with status 400 and the trace of backend calls is unchanged. *)
Theorem createProvider_required_fields :
  (forall config : ProviderConfig,
      (provider config = "openai" \/ provider config = "gemini" ->
       (missing (apiKey config) = true -> exists m, createProvider config = Throw (Error m)) /\
       (missing (apiKey config) = false -> exists p, createProvider config = Ok p)) /\
      (provider config = "azure" ->
       (missing (apiKey config) || missing (endpoint config) ||
        missing (deployment config) || missing (apiVersion config) = true ->
        exists m, createProvider config = Throw (Error m)) /\
       (missing (apiKey config) || missing (endpoint config) ||
        missing (deployment config) || missing (apiVersion config) = false ->
        exists p, createProvider config = Ok p)) /\
      (provider config = "ollama" -> exists p, createProvider config = Ok p)) /\
  (forall (P : Platform) (W : Wording) (backend : Backend) (tr : list event) (e : error),
      (forall request : GenerateCases.Request,
          provider_of (default [] (GenerateCases.provider request))
                      (GenerateCases.config request) = Throw e ->
          exists r, GenerateCases.POST backend request tr = (Ok r, tr) /\ status r = 400) /\
      (forall request : AddMoreCases.Request,
          provider_of (default [] (AddMoreCases.provider request))
                      (AddMoreCases.config request) = Throw e ->
          exists r, AddMoreCases.POST backend request tr = (Ok r, tr) /\ status r = 400) /\
      (forall request : RefineTestCase.Request,
          provider_of (RefineTestCase.provider request)
                      (RefineTestCase.config request) = Throw e ->
          exists r, RefineTestCase.POST backend request tr = (Ok r, tr) /\ status r = 400)).
Proof.
  split.
  - intros config. unfold createProvider. split; [|split].
    + intros Hp. split; intros Hm; destruct Hp as [Hp|Hp]; rewrite Hp; cbn; rewrite Hm; eauto.
    + intros Hp. split; intros Hm; rewrite Hp; cbn; rewrite Hm; eauto.
    + intros Hp. rewrite Hp. cbn. eauto.
  - intros P W backend tr e. repeat split.
    + intros request He. unfold GenerateCases.POST. rewrite He.
      repeat (destruct (_ : bool)); eexists; (split; [reflexivity|reflexivity]).
    + intros request He. unfold AddMoreCases.POST. rewrite He.
      destruct (AddMoreCases.existingTestCases request) as [| | | | |[|tc more]|];
        repeat (destruct (_ : bool)); eexists; (split; [reflexivity|reflexivity]).
    + intros request He. unfold RefineTestCase.POST. rewrite He.
      repeat (destruct (_ : bool)); eexists; (split; [reflexivity|reflexivity]).
Qed.

Lemma createProvider_required_fields_witness :
  exists m,
    createProvider {| provider := "azure"; apiKey := Some "key"; model := None;
                      endpoint := Some "https://my-instance.openai.azure.com";
                      deployment := None; apiVersion := Some "2024-02-15-preview";
                      baseUrl := None |}
    = Throw (Error m).
Proof.
  apply (proj1 createProvider_required_fields); reflexivity.
Defined.
(** ** Shape checks of the two parsers *)

(** C8 (counterexample). The batch parser accepts an array whose elements
    are not objects. *)
Lemma parseTestCasesFromLLM_accepts_non_objects :
  parseTestCasesFromLLM "[1, null]" = Ok [VNum "1"; VNull].
Proof. vm_compute. reflexivity. Qed.

(** C8 (amended). A syntax error of [JSON.parse] is a failure of both
    parsers.  On syntactically valid JSON the batch parser fails exactly
    when the parsed value is not an array (it does not look at the
    elements), and the refinement parser fails exactly when the parsed
    value is an array, null, or not an object. *)
Theorem parsers_check_shape (text : jsstring) :
  (forall e, JSON_parse (cleanLLMJsonResponse text) = Throw e ->
     parseTestCasesFromLLM text = Throw e /\ parseTestCaseFromLLM text = Throw e) /\
  (forall v, JSON_parse (cleanLLMJsonResponse text) = Ok v ->
     (isArray v = false ->
        parseTestCasesFromLLM text
        = Throw (Error "LLM response is not a valid array of test cases")) /\
     (forall l, v = VArr l -> parseTestCasesFromLLM text = Ok l) /\
     (isArray v = true ->
        parseTestCaseFromLLM text
        = Throw (Error "Expected single test case object, got array")) /\
     (v = VNull \/ typeof_object v = false ->
        parseTestCaseFromLLM text
        = Throw (Error "LLM response is not a valid test case object")) /\
     (forall props, v = VObj props -> parseTestCaseFromLLM text = Ok v)).
Proof.
  unfold parseTestCasesFromLLM, parseTestCaseFromLLM.
  cbn [mbind outcome_bind JS.bind mret outcome_ret]. split.
  - intros e ->. split; reflexivity.
  - intros v ->. cbn [JS.bind]. repeat split.
    + destruct v; cbn; congruence.
    + intros l ->. reflexivity.
    + destruct v; cbn; congruence.
    + intros [->|Hv]; [reflexivity|]. destruct v; cbn in *; congruence.
    + intros props ->. reflexivity.
Qed.

Lemma parsers_check_shape_witness :
  parseTestCaseFromLLM "[]" = Throw (Error "Expected single test case object, got array") /\
  parseTestCasesFromLLM "{}" = Throw (Error "LLM response is not a valid array of test cases").
Proof.
  split.
  - apply (proj2 (parsers_check_shape "[]") (VArr [])); reflexivity.
  - apply (proj2 (parsers_check_shape "{}") (VObj [])); reflexivity.
Defined.
(** ** The repair loop *)

Lemma upto_last_brace_fixed (s p : jsstring) :
  RefineTestCase.upto_last_brace s = Some p -> RefineTestCase.upto_last_brace p = Some p.
Proof.
  revert p. induction s as [|c s IH]; intros p; cbn [RefineTestCase.upto_last_brace].
  - discriminate.
  - destruct (RefineTestCase.upto_last_brace s) as [p'|] eqn:E.
    + intros [= <-]. cbn [RefineTestCase.upto_last_brace]. rewrite (IH p' eq_refl). reflexivity.
    + destruct (N.eqb c 125) eqn:Ec; [|discriminate].
      intros [= <-]. cbn [RefineTestCase.upto_last_brace]. rewrite Ec. reflexivity.
Qed.

Lemma match_braces_fixed (s m : jsstring) :
  RefineTestCase.match_braces s = Some m -> RefineTestCase.match_braces m = Some m.
Proof.
  induction s as [|c s IH]; cbn [RefineTestCase.match_braces]; [discriminate|].
  destruct (N.eqb c 123) eqn:Ec; [|exact IH].
  destruct (RefineTestCase.upto_last_brace s) as [p|] eqn:E; [|exact IH].
  intros [= <-]. cbn [RefineTestCase.match_braces]. rewrite Ec.
  rewrite (upto_last_brace_fixed s p E). reflexivity.
Qed.

(** The text a turn of the loop parses is left unchanged by the
    extraction of the next turn. *)
Lemma extraction_fixed (s : jsstring) :
  let cleaned := default s (RefineTestCase.match_braces s) in
  default cleaned (RefineTestCase.match_braces cleaned) = cleaned.
Proof.
  cbv zeta. destruct (RefineTestCase.match_braces s) as [m|] eqn:E; cbn [from_option id].
  - rewrite (match_braces_fixed s m E). reflexivity.
  - rewrite E. reflexivity.
Qed.

Lemma parse_calls_app (a b : list event) : parse_calls (a ++ b) = parse_calls a ++ parse_calls b.
Proof. unfold parse_calls. apply omap_app. Qed.

Lemma generate_calls_app (a b : list event) :
  generate_calls (a ++ b) = generate_calls a ++ generate_calls b.
Proof. unfold generate_calls. apply omap_app. Qed.


(** What the batch handlers do with a response: one parser call, no
    backend call. *)
Lemma batch_parse_phase_trace `{Platform} (generatedText : jsstring)
  (existing : list value) (tokenUsage : option TokenUsage) (summary : option jsstring)
  (tr : list event) :
  (GenerateCases.parse_phase generatedText tokenUsage summary tr).2
  = tr ++ [EvParse generatedText] /\
  (AddMoreCases.parse_phase generatedText existing tokenUsage tr).2
  = tr ++ [EvParse generatedText].
Proof.
  unfold GenerateCases.parse_phase, AddMoreCases.parse_phase.
  unfold mbind, M_bind, attempt, parsing, lift, mret, M_ret.
  destruct (parseTestCasesFromLLM generatedText) as [parsed| |]; cbn [fst snd].
  - destruct (normalizeTestCases parsed []), (normalizeTestCases parsed existing); split; reflexivity.
  - split; reflexivity.
  - split; reflexivity.
Qed.

(** One turn of the refinement loop when the parse fails. *)
Lemma loop_body_failure `{Platform} `{Wording} (backend : Backend)
  (providerInstance : Provider) (system : jsstring) (vars : RefineTestCase.Vars)
  (tr : list event) (e : error) (cleaned : jsstring) :
  cleaned = default (RefineTestCase.cleanedText vars)
              (RefineTestCase.match_braces (RefineTestCase.cleanedText vars)) ->
  parseTestCaseFromLLM cleaned = Throw e ->
  let repair := generateJsonCorrectionPrompt cleaned (message e) system in
  let vars' := fun text =>
    {| RefineTestCase.parsed := RefineTestCase.parsed vars;
       RefineTestCase.cleanedText := cleaned;
       RefineTestCase.generatedText := text;
       RefineTestCase.parseAttempts := S (RefineTestCase.parseAttempts vars) |} in
  RefineTestCase.loop_body backend providerInstance system vars tr =
  if RefineTestCase.maxAttempts <=? S (RefineTestCase.parseAttempts vars) then
    (Ok (RefineTestCase.Rethrow e, vars' (RefineTestCase.generatedText vars)),
     tr ++ [EvParse cleaned])
  else
    match backend (tr ++ [EvParse cleaned]) providerInstance repair with
    | Ok result =>
        (Ok (RefineTestCase.Continue, vars' (content result)),
         (tr ++ [EvParse cleaned]) ++ [EvGenerate providerInstance repair])
    | Throw _ =>
        (Ok (RefineTestCase.Break, vars' (RefineTestCase.generatedText vars)),
         (tr ++ [EvParse cleaned]) ++ [EvGenerate providerInstance repair])
    | Diverge => (Diverge, (tr ++ [EvParse cleaned]) ++ [EvGenerate providerInstance repair])
    end.
Proof.
  intros Hcleaned Hfail repair vars'. unfold RefineTestCase.loop_body.
  replace (match RefineTestCase.match_braces (RefineTestCase.cleanedText vars) with
           | Some jsonMatch => jsonMatch
           | None => RefineTestCase.cleanedText vars
           end) with cleaned
    by (rewrite Hcleaned; destruct (RefineTestCase.match_braces _); reflexivity).
  unfold mbind, M_bind, attempt, parsing, generate, mret, M_ret, lift.
  rewrite Hfail.
  destruct (RefineTestCase.maxAttempts <=? S (RefineTestCase.parseAttempts vars)); [reflexivity|].
  fold repair. destruct (backend _ _ _); reflexivity.
Qed.

(** The refinement handler after a first parse failure. *)
Lemma parse_phase_failure `{Platform} `{Wording} (backend : Backend)
  (providerInstance : Provider) (system : jsstring) (testCase : value)
  (generatedText : jsstring) (tr : list event) (e : error) (cleaned : jsstring) :
  cleaned = default (trim generatedText) (RefineTestCase.match_braces (trim generatedText)) ->
  parseTestCaseFromLLM cleaned = Throw e ->
  let repair := generateJsonCorrectionPrompt cleaned (message e) system in
  RefineTestCase.parse_phase backend providerInstance system testCase generatedText tr =
  match backend (tr ++ [EvParse cleaned]) providerInstance repair with
  | Ok result =>
      (Ok (failure_raw 500 ("Failed to parse refined test case: " ++ message e)
             (content result)),
       ((tr ++ [EvParse cleaned]) ++ [EvGenerate providerInstance repair])
       ++ [EvParse cleaned])
  | Throw _ =>
      (Ok (failure_raw 500
             ("Failed to parse refined test case: "
              ++ "Failed to parse JSON after all attempts")
             generatedText),
       (tr ++ [EvParse cleaned]) ++ [EvGenerate providerInstance repair])
  | Diverge => (Diverge, (tr ++ [EvParse cleaned]) ++ [EvGenerate providerInstance repair])
  end.
Proof.
  intros Hcleaned Hfail repair.
  assert (cleaned = default cleaned (RefineTestCase.match_braces cleaned)) as Hfixed
      by (rewrite Hcleaned; symmetry; apply extraction_fixed).
  unfold RefineTestCase.parse_phase.
  cbn [RefineTestCase.parse_loop RefineTestCase.maxAttempts RefineTestCase.parseAttempts
       Nat.ltb Nat.leb].
  set (vars0 := {| RefineTestCase.parsed := None;
                   RefineTestCase.cleanedText := trim generatedText;
                   RefineTestCase.generatedText := generatedText;
                   RefineTestCase.parseAttempts := 0 |}).
  unfold mbind, M_bind.
  rewrite (loop_body_failure backend providerInstance system vars0 tr e cleaned Hcleaned Hfail).
  subst vars0.
  cbn [RefineTestCase.parseAttempts RefineTestCase.maxAttempts Nat.leb Nat.ltb
       RefineTestCase.parsed RefineTestCase.generatedText].
  fold repair.
  destruct (backend (tr ++ [EvParse cleaned]) providerInstance repair) as [result| |];
    cbn [fst snd RefineTestCase.parseAttempts Nat.ltb Nat.leb]; [|reflexivity|reflexivity].
  erewrite (loop_body_failure backend providerInstance system _ _ e cleaned); [|exact Hfixed|exact Hfail].
  reflexivity.
Qed.

(** ** The context threshold *)

Lemma occurs_here (x after : jsstring) :
  exists b a, x ++ after = b ++ x ++ a.
Proof. exists [], after. reflexivity. Qed.

Lemma occurs_later (p l x : jsstring) :
  (exists b a, l = b ++ x ++ a) -> exists b a, p ++ l = b ++ x ++ a.
Proof. intros (b & a & ->). exists (p ++ b), a. apply app_assoc. Qed.

Lemma occurs_after (c : N) (l x : jsstring) :
  (exists b a, l = b ++ x ++ a) -> exists b a, c :: l = b ++ x ++ a.
Proof. intros (b & a & ->). exists (c :: b), a. reflexivity. Qed.

(** The incremental prompt holds its context verbatim: the serialised
    records, or the synopsis. *)
Lemma incremental_prompt_embeds `{Platform} `{Wording} (prdSummary followUp : jsstring)
  (count : nat) :
  (forall records, exists before after,
      user (generateAddMoreTestCasesPrompt prdSummary (inl records) followUp count)
      = before ++ JSON_stringify (VArr records) ++ after) /\
  (forall synopsis, exists before after,
      user (generateAddMoreTestCasesPrompt prdSummary (inr synopsis) followUp count)
      = before ++ synopsis ++ after).
Proof.
  split.
  - intros records. cbn [generateAddMoreTestCasesPrompt user].
    generalize (JSON_stringify (VArr records)). intros json.
    repeat rewrite <- app_assoc.
    repeat first [apply occurs_here | apply occurs_later | apply occurs_after].
  - intros synopsis. cbn [generateAddMoreTestCasesPrompt user].
    repeat rewrite <- app_assoc.
    repeat first [apply occurs_here | apply occurs_later | apply occurs_after].
Qed.

(** The context step on its own (lines 127-141). *)
Lemma existingTestCasesForPrompt_cases `{Platform} (backend : Backend)
  (existing : list value) (providerInstance : Provider) (tr : list event) :
  let json := JSON_stringify (VArr existing) in
  let step := AddMoreCases.existingTestCasesForPrompt backend existing providerInstance tr in
  ((estimateTokens json <= AddMoreCases.TOKEN_LIMIT_THRESHOLD)%Z ->
     step = (Ok (inl existing), tr)) /\
  ((AddMoreCases.TOKEN_LIMIT_THRESHOLD < estimateTokens json)%Z ->
     exists compression,
       system compression = AddMoreCases.summaryPrompt /\
       (forall result, backend tr providerInstance compression = Ok result ->
          step = (Ok (inr (trim (content result))),
                  tr ++ [EvGenerate providerInstance compression])) /\
       (forall e, backend tr providerInstance compression = Throw e ->
          step = (Ok (inr ("Summary of " ++ String_of_nat (length existing)
                           ++ " existing test cases:" ++ [10%N]
                           ++ substring0 json 2000 ++ "...")),
                  tr ++ [EvGenerate providerInstance compression])) /\
       step.2 = tr ++ [EvGenerate providerInstance compression]).
Proof.
  intros json step. subst step. unfold AddMoreCases.existingTestCasesForPrompt.
  fold json. split.
  - intros Hle. apply Z.ltb_ge in Hle. rewrite Hle. reflexivity.
  - intros Hlt. apply Z.ltb_lt in Hlt. rewrite Hlt.
    unfold AddMoreCases.summarizeExistingTestCases. fold json.
    eexists {| system := AddMoreCases.summaryPrompt; user := _ |}.
    split; [reflexivity|].
    unfold mbind, M_bind, attempt, generate, mret, M_ret. cbn [fst snd].
    split; [|split].
    + intros result ->. reflexivity.
    + intros e ->. reflexivity.
    + destruct (backend tr providerInstance _); reflexivity.
Qed.

(** The incremental handler on a request that passed validation: the
    context step, then the generation with the prompt built from its
    result, then the parse phase. *)
Lemma add_more_POST_validated `{Platform} `{Wording} (backend : Backend)
  (request : AddMoreCases.Request) (providerInstance : Provider)
  (tc : value) (more : list value) (tr : list event) :
  blank (AddMoreCases.summary request) = false ->
  AddMoreCases.existingTestCases request = VArr (tc :: more) ->
  blank (AddMoreCases.followUpPrompt request) = false ->
  missing (AddMoreCases.provider request) = false ->
  provider_of (default [] (AddMoreCases.provider request)) (AddMoreCases.config request)
  = Ok providerInstance ->
  AddMoreCases.POST backend request tr
  = (forPrompt ← AddMoreCases.existingTestCasesForPrompt backend (tc :: more) providerInstance;
     r ← attempt (generate backend providerInstance
                    (generateAddMoreTestCasesPrompt
                       (default [] (AddMoreCases.summary request)) forPrompt
                       (default [] (AddMoreCases.followUpPrompt request))
                       (match AddMoreCases.count request with Some (S n) => S n | _ => 5 end)));
     match r with
     | inl error => mret (failure 500 ("LLM generation failed: " ++ message error))
     | inr result =>
         AddMoreCases.parse_phase (content result) (tc :: more) (tokenUsage result)
     end) tr.
Proof.
  intros Hsummary Hexisting Hfollowup Hprovider Hinstance.
  unfold AddMoreCases.POST. rewrite Hsummary, Hexisting, Hfollowup, Hprovider, Hinstance.
  reflexivity.
Qed.

(** Whatever the backend answers to the generation call, that call is
    the only one the rest of the handler makes. *)
Lemma add_more_generation_trace `{Platform} (backend : Backend) (providerInstance : Provider)
  (messages : ChatPrompt) (existing : list value) (tr : list event) :
  generate_calls
    ((r ← attempt (generate backend providerInstance messages);
      match r with
      | inl error => mret (failure 500 ("LLM generation failed: " ++ message error))
      | inr result => AddMoreCases.parse_phase (content result) existing (tokenUsage result)
      end) tr).2
  = generate_calls tr ++ [(providerInstance, messages)].
Proof.
  unfold mbind at 1. unfold M_bind, attempt, generate, mret, M_ret.
  destruct (backend tr providerInstance messages) as [result|e|]; cbn [fst snd].
  - rewrite (proj2 (batch_parse_phase_trace (content result) existing (tokenUsage result)
                      None _)).
    rewrite !generate_calls_app. cbn [generate_calls omap]. rewrite app_nil_r. reflexivity.
  - rewrite generate_calls_app. reflexivity.
  - rewrite generate_calls_app. reflexivity.
Qed.

(** C6. In the incremental handler, for a request that passed
    validation: when the token estimate of the serialised working set is
    at or below the threshold, the only backend call is the generation,
    and its prompt is built from the records themselves, whose
    serialisation it holds verbatim; when the estimate is above, exactly
    one compression call is made before the generation, and the prompt of
    the generation is built from its trimmed answer, which it holds
    verbatim; when the compression call fails, the request goes on, with a
    prompt built from the text that holds the first 2000 characters of the
    serialisation. *)
Theorem context_threshold `{Platform} `{Wording} (backend : Backend)
  (request : AddMoreCases.Request) (providerInstance : Provider)
  (tc : value) (more : list value) (tr : list event) :
  let existing := tc :: more in
  let json := JSON_stringify (VArr existing) in
  let prompt := fun context =>
    generateAddMoreTestCasesPrompt (default [] (AddMoreCases.summary request)) context
      (default [] (AddMoreCases.followUpPrompt request))
      (match AddMoreCases.count request with Some (S n) => S n | _ => 5 end) in
  let step := AddMoreCases.existingTestCasesForPrompt backend existing providerInstance tr in
  let run := AddMoreCases.POST backend request tr in
  blank (AddMoreCases.summary request) = false ->
  AddMoreCases.existingTestCases request = VArr existing ->
  blank (AddMoreCases.followUpPrompt request) = false ->
  missing (AddMoreCases.provider request) = false ->
  provider_of (default [] (AddMoreCases.provider request)) (AddMoreCases.config request)
  = Ok providerInstance ->
  ((estimateTokens json <= AddMoreCases.TOKEN_LIMIT_THRESHOLD)%Z ->
     step = (Ok (inl existing), tr) /\
     generate_calls run.2
     = generate_calls tr ++ [(providerInstance, prompt (inl existing))] /\
     exists before after, user (prompt (inl existing)) = before ++ json ++ after) /\
  ((AddMoreCases.TOKEN_LIMIT_THRESHOLD < estimateTokens json)%Z ->
     exists compression,
       system compression = AddMoreCases.summaryPrompt /\
       step.2 = tr ++ [EvGenerate providerInstance compression] /\
       (forall result, backend tr providerInstance compression = Ok result ->
          let synopsis := trim (content result) in
          step.1 = Ok (inr synopsis) /\
          generate_calls run.2
          = generate_calls tr ++ [(providerInstance, compression);
                                  (providerInstance, prompt (inr synopsis))] /\
          exists before after, user (prompt (inr synopsis)) = before ++ synopsis ++ after) /\
       (forall e, backend tr providerInstance compression = Throw e ->
          let fallback := "Summary of " ++ String_of_nat (length existing)
                          ++ " existing test cases:" ++ [10%N]
                          ++ substring0 json 2000 ++ "..." in
          step.1 = Ok (inr fallback) /\
          generate_calls run.2
          = generate_calls tr ++ [(providerInstance, compression);
                                  (providerInstance, prompt (inr fallback))] /\
          exists before after, user (prompt (inr fallback)) = before ++ fallback ++ after)).
Proof.
  intros existing json prompt step run Hsummary Hexisting Hfollowup Hprovider Hinstance.
  assert (forall context tr1,
             step = (Ok context, tr1) ->
             generate_calls run.2 = generate_calls tr1 ++ [(providerInstance, prompt context)])
    as Hrun.
  { intros context tr1 Hstep. subst run.
    rewrite (add_more_POST_validated backend request providerInstance tc more tr
               Hsummary Hexisting Hfollowup Hprovider Hinstance).
    unfold mbind at 1. unfold M_bind at 1.
    change (AddMoreCases.existingTestCasesForPrompt backend (tc :: more) providerInstance tr)
      with step.
    rewrite Hstep. apply add_more_generation_trace. }
  destruct (existingTestCasesForPrompt_cases backend existing providerInstance tr)
    as [Hbelow Habove].
  fold json in Hbelow, Habove. fold step in Hbelow, Habove.
  destruct (incremental_prompt_embeds (default [] (AddMoreCases.summary request))
              (default [] (AddMoreCases.followUpPrompt request))
              (match AddMoreCases.count request with Some (S n) => S n | _ => 5 end))
    as [Hrecords Hsynopsis].
  split.
  - intros Hle. split; [exact (Hbelow Hle)|]. split.
    + exact (Hrun _ _ (Hbelow Hle)).
    + apply Hrecords.
  - intros Hlt. destruct (Habove Hlt) as (compression & Hsystem & Hanswer & Hfails & Htrace).
    exists compression. split; [exact Hsystem|]. split; [exact Htrace|]. split.
    + intros result Hresult. cbv zeta. split; [rewrite (Hanswer result Hresult); reflexivity|].
      split; [|apply Hsynopsis].
      rewrite (Hrun _ _ (Hanswer result Hresult)).
      rewrite generate_calls_app. cbn [generate_calls omap].
      rewrite <- app_assoc. reflexivity.
    + intros e Hthrown. cbv zeta. split; [rewrite (Hfails e Hthrown); reflexivity|].
      split; [|apply Hsynopsis].
      rewrite (Hrun _ _ (Hfails e Hthrown)).
      rewrite generate_calls_app. cbn [generate_calls omap].
      rewrite <- app_assoc. reflexivity.
Qed.
(** ** Trimming and fences *)

Lemma trimStart_whitespace (w s : jsstring) :
  whitespace w -> trimStart (w ++ s) = trimStart s.
Proof.
  induction 1 as [|c w Hc _ IH]; [reflexivity|].
  cbn [app trimStart]. rewrite Hc. exact IH.
Qed.

Lemma trimStart_split (s : jsstring) :
  exists w, whitespace w /\ s = w ++ trimStart s.
Proof.
  induction s as [|c s (w & Hw & IH)]; [exists []; split; [constructor|reflexivity]|].
  cbn [trimStart]. destruct (isWhiteSpace c) eqn:Hc.
  - exists (c :: w). split; [constructor; assumption|]. cbn [app]. congruence.
  - exists []. split; [constructor|reflexivity].
Qed.

Lemma trimStart_head (s : jsstring) (c : N) (r : jsstring) :
  trimStart s = c :: r -> isWhiteSpace c = false.
Proof.
  induction s as [|d s IH]; cbn [trimStart]; [discriminate|].
  destruct (isWhiteSpace d) eqn:Hd; [exact IH|]. intros [= <- _]. exact Hd.
Qed.

Lemma trimEnd_nil (s : jsstring) : trimEnd s = [] <-> whitespace s.
Proof.
  induction s as [|c s IH]; cbn [trimEnd].
  - split; [constructor|reflexivity].
  - destruct (trimEnd s) as [|d r] eqn:E.
    + destruct (isWhiteSpace c) eqn:Hc.
      * split; [|reflexivity]. intros _. constructor; [exact Hc|]. apply IH. reflexivity.
      * split; [discriminate|]. intros Hw. inversion Hw; congruence.
    + split; [discriminate|]. intros Hw. inversion Hw as [|? ? _ Hs]; subst.
      apply IH in Hs. discriminate.
Qed.

Lemma trimEnd_whitespace (s w : jsstring) :
  whitespace w -> trimEnd (s ++ w) = trimEnd s.
Proof.
  intros Hw. induction s as [|c s IH].
  - cbn [app trimEnd]. apply trimEnd_nil. exact Hw.
  - cbn [app trimEnd]. rewrite IH. reflexivity.
Qed.

Lemma trimEnd_keeps (s : jsstring) (c : N) :
  isWhiteSpace c = false -> trimEnd (s ++ [c]) = s ++ [c].
Proof.
  intros Hc. induction s as [|d s IH].
  - cbn. rewrite Hc. reflexivity.
  - cbn [app trimEnd]. rewrite IH. destruct (s ++ [c]) eqn:E; [|reflexivity].
    destruct s; discriminate.
Qed.

Lemma close_fence_here_iff (b w : jsstring) :
  whitespace w ->
  close_fence_here (b ++ w ++ "```") = true <-> whitespace b.
Proof.
  intros Hw. unfold close_fence_here. rewrite string_eqb_eq. split.
  - induction b as [|c b IH]; [constructor|].
    cbn [app trimStart]. destruct (isWhiteSpace c) eqn:Hc.
    + intros Heq. constructor; [exact Hc|exact (IH Heq)].
    + intros Heq. apply (f_equal (@length N)) in Heq.
      cbn [length mkstr] in Heq. rewrite !length_app in Heq. cbn [length mkstr] in Heq. lia.
  - intros Hb. rewrite trimStart_whitespace by exact Hb.
    rewrite trimStart_whitespace by exact Hw. reflexivity.
Qed.

Lemma strip_close_fence_unfold (s : jsstring) :
  strip_close_fence s =
  if close_fence_here s then []
  else match s with
       | [] => []
       | c :: r => c :: strip_close_fence r
       end.
Proof. destruct s; reflexivity. Qed.

(** Removing the closing fence leaves the text before it, without its
    trailing whitespace. *)
Lemma strip_close_fence_trimEnd (s w : jsstring) :
  whitespace w -> strip_close_fence (s ++ w ++ "```") = trimEnd s.
Proof.
  intros Hw. induction s as [|c s IH]; rewrite strip_close_fence_unfold.
  - rewrite (proj2 (close_fence_here_iff [] w Hw)); [reflexivity|constructor].
  - destruct (close_fence_here ((c :: s) ++ w ++ "```")) eqn:E.
    + apply close_fence_here_iff in E; [|exact Hw].
      symmetry. apply trimEnd_nil. exact E.
    + cbn [app]. rewrite IH. cbn [trimEnd].
      destruct (trimEnd s) as [|d r] eqn:Es; [|reflexivity].
      destruct (isWhiteSpace c) eqn:Hc; [|reflexivity].
      exfalso. assert (whitespace (c :: s)) as Hall.
      { constructor; [exact Hc|]. apply trimEnd_nil. exact Es. }
      apply (close_fence_here_iff (c :: s) w Hw) in Hall. congruence.
Qed.

(** Removing the opening fence and its tag leaves the text after them,
    without its leading whitespace. *)
Lemma strip_open_fence_trimStart (tag rest : jsstring) :
  fence_tag tag ->
  (tag = [] -> forall a b c d r, rest = a :: b :: c :: d :: r -> is_json_tag a b c d = false) ->
  strip_open_fence ("```" ++ tag ++ rest) = trimStart rest.
Proof.
  intros [->|(a & b & c & d & -> & Htag)] Hrest.
  - cbn [app mkstr strip_open_fence].
    destruct rest as [|a [|b [|c [|d r]]]]; try reflexivity.
    rewrite (Hrest eq_refl a b c d r eq_refl). reflexivity.
  - cbn [app mkstr strip_open_fence]. rewrite Htag. reflexivity.
Qed.
(** ** The lexer on parts of a text *)

Lemma lex_app (st : lex_state) (a b : jsstring) :
  lex st (a ++ b) =
  match lex_run st a with
  | Some (ts, st') =>
      match lex st' b with
      | Some ts' => Some (ts ++ ts')
      | None => None
      end
  | None => None
  end.
Proof.
  revert st. induction a as [|c a IH]; intros st; cbn [app lex lex_run].
  - destruct (lex st b); reflexivity.
  - destruct (lex_step st c) as [[ts st']|]; [|reflexivity].
    rewrite IH. destruct (lex_run st' a) as [[ts' st'']|]; [|reflexivity].
    destruct (lex st'' b); [|reflexivity]. rewrite app_assoc. reflexivity.
Qed.

Lemma lex_app_Some (st : lex_state) (a b : jsstring) (toks : list token) :
  lex st (a ++ b) = Some toks ->
  exists ts st' ts',
    lex_run st a = Some (ts, st') /\ lex st' b = Some ts' /\ toks = ts ++ ts'.
Proof.
  rewrite lex_app. destruct (lex_run st a) as [[ts st']|] eqn:Ea; [|discriminate].
  destruct (lex st' b) as [ts'|] eqn:Eb; [|discriminate].
  intros [= <-]. exists ts, st', ts'. repeat split; assumption.
Qed.

Lemma isWhiteSpace_cases (c : N) :
  isWhiteSpace c = true -> In c whiteSpaceUnits.
Proof.
  unfold isWhiteSpace. rewrite existsb_exists.
  intros (d & Hin & Heq). apply N.eqb_eq in Heq. subst d. exact Hin.
Qed.

Ltac each_whitespace H :=
  apply isWhiteSpace_cases in H; unfold whiteSpaceUnits in H; cbn [In] in H;
  repeat (destruct H as [<-|H]); [..|destruct H].

Lemma keyword_letter (w : keyword) (n : nat) (c : N) :
  nth_error (spelling w) n = Some c ->
  In c [97; 101; 102; 108; 110; 114; 115; 116; 117]%N.
Proof.
  destruct w; do 6 (destruct n as [|n]; [cbn; intros [= <-]; cbn; tauto|]);
    cbn; try discriminate; destruct n; discriminate.
Qed.

(** A whitespace character is skipped between tokens, kept inside a
    string, or ends a numeral; everywhere else, and when it is not
    allowed there, the lexer stops. *)
Lemma lex_step_whitespace (st : lex_state) (c : N) :
  isWhiteSpace c = true ->
  match lex_step st c with
  | None => True
  | Some (ts, st') =>
      (st = LxOut /\ ts = [] /\ st' = LxOut) \/
      (exists acc, st = LxStr acc /\ ts = [] /\ st' = LxStr (c :: acc)) \/
      (exists acc, st = LxNum acc /\ ts = [TNumber (rev acc)] /\ st' = LxOut /\
                   valid_number (rev acc) = true)
  end.
Proof.
  intros Hc. destruct st as [|acc|acc|acc ds|acc|w n].
  - each_whitespace Hc; vm_compute; tauto.
  - each_whitespace Hc; cbn -[rev]; first [exact I | right; left; eexists; repeat split].
  - each_whitespace Hc; exact I.
  - each_whitespace Hc; exact I.
  - cbn [lex_step]. assert (isNumChar c = false) as -> by (each_whitespace Hc; reflexivity).
    destruct (valid_number (rev acc)) eqn:Hv; [|exact I].
    each_whitespace Hc; cbn -[rev];
      first [exact I | right; right; eexists; repeat split; assumption].
  - cbn [lex_step]. destruct (nth_error (spelling w) n) as [c'|] eqn:E; [|exact I].
    apply keyword_letter in E. destruct (N.eqb c c') eqn:Ec; [|exact I].
    apply N.eqb_eq in Ec. subst c'. exfalso.
    each_whitespace Hc; cbn in E; intuition discriminate.
Qed.

Lemma lex_run_whitespace_out (w : jsstring) (ts : list token) (st : lex_state) :
  whitespace w -> lex_run LxOut w = Some (ts, st) -> ts = [] /\ st = LxOut.
Proof.
  induction 1 as [|c w Hc _ IH]; cbn [lex_run]; [intros [= <- <-]; auto|].
  pose proof (lex_step_whitespace LxOut c Hc) as Hstep.
  destruct (lex_step LxOut c) as [[ts0 st0]|]; [|discriminate].
  destruct Hstep as [(_ & -> & ->)|[(acc & [=] & _)|(acc & [=] & _)]].
  destruct (lex_run LxOut w) as [[ts1 st1]|]; [|discriminate].
  intros [= <- <-]. exact (IH eq_refl).
Qed.

Lemma lex_run_whitespace_str (w acc : jsstring) (ts : list token) (st : lex_state) :
  whitespace w -> lex_run (LxStr acc) w = Some (ts, st) ->
  ts = [] /\ exists acc', st = LxStr acc'.
Proof.
  intros Hw. revert acc. induction Hw as [|c w Hc _ IH]; intros acc; cbn [lex_run].
  - intros [= <- <-]. eauto.
  - pose proof (lex_step_whitespace (LxStr acc) c Hc) as Hstep.
    destruct (lex_step (LxStr acc) c) as [[ts0 st0]|]; [|discriminate].
    destruct Hstep as [([=] & _)|[(acc0 & _ & -> & ->)|(acc0 & [=] & _)]].
    destruct (lex_run (LxStr (c :: acc0)) w) as [[ts1 st1]|] eqn:E; [|discriminate].
    intros [= <- <-]. exact (IH _ E).
Qed.

(** Inside a string literal, characters other than the quote complete no
    token and do not leave the literal. *)
Lemma lex_run_unquoted (x : jsstring) (st st' : lex_state) (ts : list token) :
  ~ In dq x -> in_string st -> lex_run st x = Some (ts, st') ->
  ts = [] /\ in_string st'.
Proof.
  revert st. induction x as [|c x IH]; intros st Hx Hst; cbn [lex_run].
  - intros [= <- <-]. auto.
  - assert (N.eqb c dq = false) as Hc.
    { apply N.eqb_neq. intros ->. apply Hx. left. reflexivity. }
    assert (~ In dq x) as Hx' by (intros Hin; apply Hx; right; exact Hin).
    destruct (lex_step st c) as [[ts0 st0]|] eqn:Hstep; [|discriminate].
    assert (ts0 = [] /\ in_string st0) as [-> Hst0].
    { destruct st as [|acc|acc|acc ds|acc|w n]; try destruct Hst; cbn [lex_step] in Hstep.
      - rewrite Hc in Hstep.
        destruct (N.eqb c backslash); [injection Hstep as <- <-; split; [reflexivity|exact I]|].
        destruct (N.ltb c 32); [discriminate|]. injection Hstep as <- <-. split; [reflexivity|exact I].
      - destruct (N.eqb c 117); [injection Hstep as <- <-; split; [reflexivity|exact I]|].
        destruct (unescape c); [|discriminate]. injection Hstep as <- <-. split; [reflexivity|exact I].
      - destruct (hex_value c); [|discriminate].
        destruct (Nat.eqb _ 4); injection Hstep as <- <-; split; try reflexivity; exact I. }
    destruct (lex_run st0 x) as [[ts1 st1]|] eqn:E; [|discriminate].
    intros [= <- <-]. exact (IH st0 Hx' Hst0 E).
Qed.
(** ** The defect pattern *)

Lemma after_prefix_Some (p s r : jsstring) :
  after_prefix p s = Some r <-> s = p ++ r.
Proof.
  revert s. induction p as [|a p IH]; intros s; cbn [after_prefix app].
  - split; [intros [= ->]|intros ->]; reflexivity.
  - destruct s as [|b s]; [split; discriminate|].
    destruct (N.eqb a b) eqn:E.
    + apply N.eqb_eq in E. subst b. rewrite IH. split; [intros ->|intros [= ->]]; reflexivity.
    + apply N.eqb_neq in E. split; [discriminate|]. intros [= <- _]. contradiction.
Qed.

Lemma span_unquoted_spec (s x r : jsstring) :
  span_unquoted s = (x, r) -> s = x ++ r /\ ~ In dq x.
Proof.
  revert x r. induction s as [|c s IH]; intros x r; cbn [span_unquoted].
  - intros [= <- <-]. split; [reflexivity|intros []].
  - destruct (N.eqb c dq) eqn:E.
    + intros [= <- <-]. split; [reflexivity|intros []].
    + destruct (span_unquoted s) as [x' r'] eqn:Es. intros [= <- <-].
      destruct (IH x' r' eq_refl) as [-> Hx]. split; [reflexivity|].
      intros [Heq|Hin]; [|contradiction]. rewrite Heq, N.eqb_refl in E. discriminate.
Qed.

Lemma span_unquoted_app (x r : jsstring) :
  ~ In dq x -> span_unquoted (x ++ dq :: r) = (x, dq :: r).
Proof.
  induction x as [|c x IH]; intros Hx; cbn [app span_unquoted].
  - rewrite N.eqb_refl. reflexivity.
  - assert (N.eqb c dq = false) as ->.
    { apply N.eqb_neq. intros ->. apply Hx. left. reflexivity. }
    rewrite IH; [reflexivity|]. intros Hin. apply Hx. right. exact Hin.
Qed.

(** What the pattern matches: the text [defect w1 x w2] for whitespace
    runs [w1], [w2] and a captured group [x] without quotes. *)
Lemma match_defect_Some (s x : jsstring) (n : nat) :
  match_defect s = Some (x, n) ->
  exists w1 w2 rest,
    s = defect w1 x w2 ++ rest /\ whitespace w1 /\ whitespace w2 /\ ~ In dq x /\
    n = length (defect w1 x w2).
Proof.
  unfold match_defect.
  destruct (after_prefix _ s) as [r1|] eqn:E1; [|discriminate]. cbn [mbind option_bind].
  destruct (after_prefix [dq] (trimStart r1)) as [r2|] eqn:E2; [|discriminate].
  cbn [mbind option_bind].
  destruct (span_unquoted r2) as [x' r3] eqn:E3.
  destruct (after_prefix [dq] r3) as [r4|] eqn:E4; [|discriminate]. cbn [mbind option_bind].
  destruct (after_prefix _ (trimStart r4)) as [r5|] eqn:E5; [|discriminate].
  cbn [mbind option_bind]. intros [= -> <-].
  apply after_prefix_Some in E1, E2, E4, E5.
  apply span_unquoted_spec in E3 as [E3 Hx].
  destruct (trimStart_split r1) as (w1 & Hw1 & Hr1).
  destruct (trimStart_split r4) as (w2 & Hw2 & Hr4).
  exists w1, w2, r5.
  assert (s = defect w1 x w2 ++ r5) as Hs.
  { rewrite E1, Hr1, E2, E3, E4, Hr4, E5. unfold defect.
    repeat rewrite <- app_assoc. reflexivity. }
  repeat split; auto.
  rewrite Hs at 1. rewrite length_app. lia.
Qed.

Lemma after_prefix_app (p r : jsstring) : after_prefix p (p ++ r) = Some r.
Proof. apply after_prefix_Some. reflexivity. Qed.

Lemma after_prefix_dq (r : jsstring) : after_prefix [dq] (dq :: r) = Some r.
Proof. exact (after_prefix_app [dq] r). Qed.

Lemma trimStart_dq (r : jsstring) : trimStart (dq :: r) = dq :: r.
Proof. reflexivity. Qed.

Lemma match_defect_intro (w1 x w2 rest : jsstring) :
  whitespace w1 -> whitespace w2 -> ~ In dq x ->
  match_defect (defect w1 x w2 ++ rest) = Some (x, length (defect w1 x w2)).
Proof.
  intros Hw1 Hw2 Hx. unfold match_defect.
  set (seg1 := dq :: "preconditions" ++ [dq; 58%N]).
  set (seg2 := dq :: "steps" ++ [dq]).
  assert (defect w1 x w2 ++ rest
          = seg1 ++ (w1 ++ dq :: (x ++ dq :: (w2 ++ dq :: ("steps" ++ [dq]) ++ rest)))) as Hshape.
  { unfold defect. fold seg1. repeat rewrite <- app_assoc. reflexivity. }
  rewrite Hshape at 1.
  rewrite after_prefix_app. cbn [mbind option_bind].
  rewrite trimStart_whitespace by exact Hw1.
  rewrite trimStart_dq, after_prefix_dq. cbn [mbind option_bind].
  rewrite span_unquoted_app by exact Hx.
  rewrite after_prefix_dq. cbn [mbind option_bind].
  rewrite trimStart_whitespace by exact Hw2.
  rewrite trimStart_dq.
  change (dq :: ("steps" ++ [dq]) ++ rest) with (seg2 ++ rest).
  rewrite after_prefix_app. cbn [mbind option_bind].
  f_equal. f_equal. rewrite length_app. lia.
Qed.
(** ** A text with the defect is not valid JSON *)

Lemma lex_run_app_Some (st st2 : lex_state) (a b : jsstring) (ts : list token) :
  lex_run st (a ++ b) = Some (ts, st2) ->
  exists ts1 st1 ts2,
    lex_run st a = Some (ts1, st1) /\ lex_run st1 b = Some (ts2, st2) /\ ts = ts1 ++ ts2.
Proof.
  revert st ts. induction a as [|c a IH]; intros st ts; cbn [app lex_run].
  - intros Hrun. exists [], st, ts. repeat split. exact Hrun.
  - destruct (lex_step st c) as [[ts0 st0]|]; [|discriminate].
    destruct (lex_run st0 (a ++ b)) as [[ts' st']|] eqn:E; [|discriminate].
    intros [= <- <-]. destruct (IH st0 ts' E) as (ts1 & st1 & ts2 & -> & Hb & ->).
    exists (ts0 ++ ts1), st1, ts2. repeat split; [exact Hb|apply app_assoc].
Qed.

(** After the quoted word [preconditions] and the colon the lexer is
    between tokens, whatever state it was in before. *)
Lemma lex_run_key (st st' : lex_state) (ts : list token) :
  lex_run st (dq :: "preconditions" ++ [dq; 58%N]) = Some (ts, st') -> st' = LxOut.
Proof.
  destruct st as [|acc|acc|acc ds|acc|w n].
  - cbn -[rev]. intros [= _ <-]. reflexivity.
  - cbn -[rev]. discriminate.
  - cbn -[rev]. intros [= _ <-]. reflexivity.
  - cbn -[rev]. discriminate.
  - cbn -[rev valid_number]. destruct (valid_number (rev acc)); [|discriminate].
    intros [= _ <-]. reflexivity.
  - cbn [app mkstr lex_run lex_step].
    destruct (nth_error (spelling w) n) as [c'|] eqn:E; [|discriminate].
    apply keyword_letter in E. destruct (N.eqb dq c') eqn:Ec; [|discriminate].
    apply N.eqb_eq in Ec. subst c'. cbn in E. intuition discriminate.
Qed.

(** From inside a string literal, a quote, whitespace and the quoted word
    [steps] complete exactly two tokens, both strings. *)
Lemma lex_run_value_then_steps (st st' : lex_state) (w2 : jsstring) (ts : list token) :
  in_string st -> whitespace w2 ->
  lex_run st (dq :: w2 ++ dq :: "steps" ++ [dq]) = Some (ts, st') ->
  exists a b, ts = [TString a; TString b].
Proof.
  intros Hst Hw2.
  change (dq :: w2 ++ dq :: "steps" ++ [dq]) with ([dq] ++ w2 ++ dq :: "steps" ++ [dq]).
  intros Hrun.
  apply lex_run_app_Some in Hrun as (ts1 & st1 & ts2 & H1 & Hrun & ->).
  apply lex_run_app_Some in Hrun as (ts3 & st3 & ts4 & H3 & H4 & ->).
  destruct st as [|acc|acc|acc ds|acc|w n]; try destruct Hst.
  - (* the quote closes the literal *)
    cbn -[rev] in H1. injection H1 as <- <-.
    apply lex_run_whitespace_out in H3 as [-> ->]; [|exact Hw2].
    cbn -[rev] in H4. injection H4 as <- <-. eauto.
  - (* the quote is escaped: the next one closes the literal, and a bare
       word follows *)
    cbn -[rev] in H1. injection H1 as <- <-.
    apply lex_run_whitespace_str in H3 as [-> (acc' & ->)]; [|exact Hw2].
    cbn -[rev] in H4. discriminate.
  - cbn in H1. discriminate.
Qed.

Lemma lex_defect (st : lex_state) (w1 x w2 rest : jsstring) (toks : list token) :
  whitespace w1 -> whitespace w2 -> ~ In dq x ->
  lex st (defect w1 x w2 ++ rest) = Some toks -> adjacent_strings toks.
Proof.
  intros Hw1 Hw2 Hx Hlex.
  assert (defect w1 x w2 ++ rest
          = (dq :: "preconditions" ++ [dq; 58%N]) ++ w1 ++ [dq] ++ x
            ++ (dq :: w2 ++ dq :: "steps" ++ [dq]) ++ rest) as Hshape.
  { unfold defect. repeat first [rewrite <- app_assoc | progress cbn [app mkstr]].
    reflexivity. }
  rewrite Hshape in Hlex. clear Hshape.
  apply lex_app_Some in Hlex as (t1 & s1 & r1 & H1 & Hlex & ->).
  apply lex_run_key in H1 as ->.
  apply lex_app_Some in Hlex as (t2 & s2 & r2 & H2 & Hlex & ->).
  apply lex_run_whitespace_out in H2 as [-> ->]; [|exact Hw1].
  apply lex_app_Some in Hlex as (t3 & s3 & r3 & H3 & Hlex & ->).
  cbn in H3. injection H3 as <- <-.
  apply lex_app_Some in Hlex as (t4 & s4 & r4 & H4 & Hlex & ->).
  apply lex_run_unquoted in H4 as [-> Hs4]; [|exact Hx|exact I].
  apply lex_app_Some in Hlex as (t5 & s5 & r5 & H5 & Hlex & ->).
  apply lex_run_value_then_steps in H5 as (a & b & ->); [|exact Hs4|exact Hw2].
  exists t1, a, b, r5. reflexivity.
Qed.

Lemma lex_adjacent_suffix (pre s : jsstring) (st : lex_state) (toks : list token) :
  (forall st' toks', lex st' s = Some toks' -> adjacent_strings toks') ->
  lex st (pre ++ s) = Some toks -> adjacent_strings toks.
Proof.
  intros Hs Hlex. apply lex_app_Some in Hlex as (ts & st' & ts' & _ & Hlex & ->).
  destruct (Hs st' ts' Hlex) as (a & x & y & b & ->).
  exists (ts ++ a), x, y, b. apply app_assoc.
Qed.

(** The grammar has no place for two strings in a row. *)
Lemma parse_two_strings (st : parse_state) (x y : jsstring) (ts : list token) :
  parse_tokens st (TString x :: TString y :: ts) = None.
Proof.
  cbn [parse_tokens].
  destruct st as [stk|stk|done stk|stk|done stk|done key stk|done stk|v];
    cbn [parse_step value_start]; try reflexivity;
    destruct stk as [|[done'|done' key'] stk]; reflexivity.
Qed.

Lemma parse_adjacent_strings (st : parse_state) (ts : list token) :
  adjacent_strings ts -> parse_tokens st ts = None.
Proof.
  intros (a & x & y & b & ->). revert st.
  induction a as [|t a IH]; intros st.
  - apply parse_two_strings.
  - cbn [app parse_tokens]. destruct (parse_step st t); [apply IH|reflexivity].
Qed.

(** No part of a valid JSON text matches the defect pattern. *)
Lemma valid_json_has_no_defect (text : jsstring) (v : value) (a b : jsstring) :
  JSON_parse text = Ok v -> text = a ++ b -> match_defect b = None.
Proof.
  intros Hparse ->. destruct (match_defect b) as [[x n]|] eqn:Hm; [|reflexivity].
  exfalso. apply match_defect_Some in Hm as (w1 & w2 & rest & -> & Hw1 & Hw2 & Hx & _).
  unfold JSON_parse in Hparse.
  destruct (lex LxOut (a ++ defect w1 x w2 ++ rest)) as [toks|] eqn:Hlex; [|discriminate].
  assert (adjacent_strings toks) as Hadj.
  { apply (lex_adjacent_suffix a (defect w1 x w2 ++ rest) LxOut toks); [|exact Hlex].
    intros st' toks'. apply lex_defect; assumption. }
  rewrite (parse_adjacent_strings _ _ Hadj) in Hparse. discriminate.
Qed.

Lemma replace_defect_none (s : jsstring) :
  (forall a b, s = a ++ b -> match_defect b = None) -> replace_defect 0 s = s.
Proof.
  induction s as [|c s IH]; intros Hs; [reflexivity|].
  cbn [replace_defect]. rewrite (Hs [] (c :: s) eq_refl).
  rewrite IH; [reflexivity|]. intros a b ->. apply (Hs (c :: a) b). reflexivity.
Qed.
(** ** Trimming a valid JSON text *)

Lemma step_out_whitespace (c : N) (ts : list token) (st : lex_state) :
  isWhiteSpace c = true -> step_out c = Some (ts, st) -> ts = [] /\ st = LxOut.
Proof.
  intros Hc Hstep. pose proof (lex_step_whitespace LxOut c Hc) as H.
  cbn [lex_step] in H. rewrite Hstep in H.
  destruct H as [(_ & -> & ->)|[(acc & [=] & _)|(acc & [=] & _)]]. auto.
Qed.

Lemma lex_trimStart (text : jsstring) (toks : list token) :
  lex LxOut text = Some toks -> lex LxOut (trimStart text) = Some toks.
Proof.
  induction text as [|c r IH]; [auto|]. cbn [trimStart].
  destruct (isWhiteSpace c) eqn:Hc; [|auto].
  cbn [lex lex_step]. destruct (step_out c) as [[ts st]|] eqn:Hstep; [|discriminate].
  destruct (step_out_whitespace c ts st Hc Hstep) as [-> ->].
  destruct (lex LxOut r) as [ts'|]; [|discriminate]. intros [= <-]. apply IH. reflexivity.
Qed.

Lemma lex_cons (st : lex_state) (c : N) (r : jsstring) :
  lex st (c :: r) =
  match lex_step st c with
  | Some (ts, st') =>
      match lex st' r with
      | Some ts' => Some (ts ++ ts')
      | None => None
      end
  | None => None
  end.
Proof. reflexivity. Qed.

Lemma lex_trimEnd (text : jsstring) (st : lex_state) (toks : list token) :
  lex st text = Some toks -> lex st (trimEnd text) = Some toks.
Proof.
  revert st toks. induction text as [|c r IH]; intros st toks; [auto|].
  cbn [lex]. destruct (lex_step st c) as [[ts st']|] eqn:Hstep; [|discriminate].
  destruct (lex st' r) as [ts'|] eqn:Hr; [|discriminate]. intros [= <-].
  specialize (IH st' ts' Hr). cbn [trimEnd].
  destruct (trimEnd r) as [|d r'] eqn:Er.
  - cbn [lex] in IH. destruct (isWhiteSpace c) eqn:Hc.
    + cbn [lex]. pose proof (lex_step_whitespace st c Hc) as H. rewrite Hstep in H.
      destruct H as [(-> & -> & ->)|[(acc & -> & -> & ->)|(acc & -> & -> & -> & Hv)]].
      * exact IH.
      * cbn in IH. discriminate.
      * cbn [lex_end] in *. rewrite Hv. injection IH as <-. reflexivity.
    + rewrite lex_cons, Hstep. cbn [lex]. rewrite IH. reflexivity.
  - rewrite lex_cons, Hstep, IH. reflexivity.
Qed.

(** [JSON.parse] gives the same value on a valid text and on the text
    trimmed; a valid text does not consist of whitespace only. *)
Lemma JSON_parse_trim (text : jsstring) (v : value) :
  JSON_parse text = Ok v -> JSON_parse (trim text) = Ok v /\ trimStart text <> [].
Proof.
  unfold JSON_parse, trim. destruct (lex LxOut text) as [toks|] eqn:Hlex; [|discriminate].
  destruct (parse_tokens (PValue []) toks) as [v'|] eqn:Hp; [|discriminate].
  intros [= ->]. apply lex_trimStart in Hlex. split.
  - rewrite (lex_trimEnd _ _ _ Hlex), Hp. reflexivity.
  - intros Hnil. rewrite Hnil in Hlex. cbn in Hlex. injection Hlex as <-.
    cbn in Hp. discriminate.
Qed.

Lemma not_tag (a b c d : N) :
  (N.eqb a 106 || N.eqb a 74)%N = false -> is_json_tag a b c d = false.
Proof. unfold is_json_tag. intros ->. reflexivity. Qed.

Lemma valid_first_char (text : jsstring) (v : value) (a : N) (r : jsstring) :
  JSON_parse text = Ok v -> text = a :: r -> (N.eqb a 106 || N.eqb a 74)%N = false.
Proof.
  unfold JSON_parse. intros Hparse ->. cbn [lex lex_step] in Hparse.
  destruct (N.eqb a 106) eqn:E1.
  - apply N.eqb_eq in E1. subst a. cbn in Hparse. discriminate.
  - destruct (N.eqb a 74) eqn:E2; [|reflexivity].
    apply N.eqb_eq in E2. subst a. cbn in Hparse. discriminate.
Qed.

Lemma whitespace_not_tag (a : N) :
  isWhiteSpace a = true -> (N.eqb a 106 || N.eqb a 74)%N = false.
Proof. intros Ha. each_whitespace Ha; reflexivity. Qed.

Lemma trimStart_app (s r : jsstring) : trimStart s <> [] -> trimStart (s ++ r) = trimStart s ++ r.
Proof.
  induction s as [|c s IH]; [intros []; reflexivity|].
  cbn [app trimStart]. destruct (isWhiteSpace c); [exact IH|reflexivity].
Qed.

(** ** Fenced text *)

Lemma startsWith_fence (r : jsstring) : startsWith ("```" ++ r) "```" = true.
Proof. reflexivity. Qed.

Lemma trimStart_fence (r : jsstring) : trimStart ("```" ++ r) = "```" ++ r.
Proof. reflexivity. Qed.

(** A non-blank text between an opening fence, with its optional tag, and
    a closing fence: cleaning removes the fences and the whitespace
    around the text. *)
Lemma fenced_cleaning (tag body o1 w1 w2 o2 : jsstring) :
  fence_tag tag -> whitespace o1 -> whitespace w1 -> whitespace w2 -> whitespace o2 ->
  trimStart body <> [] ->
  (forall a r, body = a :: r -> (N.eqb a 106 || N.eqb a 74)%N = false) ->
  cleanLLMJsonResponse (o1 ++ "```" ++ tag ++ w1 ++ body ++ w2 ++ "```" ++ o2)
  = replace_defect 0 (trim body).
Proof.
  intros Htag Ho1 Hw1 Hw2 Ho2 Hbody Hfirst. unfold cleanLLMJsonResponse.
  assert (trim (o1 ++ "```" ++ tag ++ w1 ++ body ++ w2 ++ "```" ++ o2)
          = "```" ++ tag ++ w1 ++ body ++ w2 ++ "```") as ->.
  { unfold trim. rewrite trimStart_whitespace by exact Ho1.
    rewrite trimStart_fence.
    replace ("```" ++ tag ++ w1 ++ body ++ w2 ++ "```" ++ o2)
      with ((("```" ++ tag ++ w1 ++ body ++ w2 ++ [96; 96]%N) ++ [96%N]) ++ o2)
      by (repeat first [rewrite <- app_assoc | progress cbn [app mkstr]]; reflexivity).
    rewrite trimEnd_whitespace by exact Ho2.
    rewrite trimEnd_keeps by reflexivity.
    repeat first [rewrite <- app_assoc | progress cbn [app mkstr]]. reflexivity. }
  rewrite startsWith_fence.
  rewrite strip_open_fence_trimStart; [|exact Htag|].
  - rewrite trimStart_whitespace by exact Hw1.
    rewrite trimStart_app by exact Hbody.
    rewrite strip_close_fence_trimEnd by exact Hw2. reflexivity.
  - intros _ a b c d r Heq. apply not_tag. destruct w1 as [|e w1].
    + destruct body as [|a' body']; [contradiction|].
      cbn [app] in Heq. injection Heq as <- _. apply (Hfirst a' body' eq_refl).
    + cbn [app] in Heq. injection Heq as <- _. apply whitespace_not_tag.
      inversion Hw1. assumption.
Qed.
(** ** Rewriting the defect *)

Lemma replace_defect_skip (a b : jsstring) :
  replace_defect (length a) (a ++ b) = replace_defect 0 b.
Proof. induction a as [|c a IH]; [reflexivity|exact IH]. Qed.

Lemma replace_defect_here (w1 x w2 rest : jsstring) :
  whitespace w1 -> whitespace w2 -> ~ In dq x ->
  replace_defect 0 (defect w1 x w2 ++ rest)
  = defect_replacement x ++ replace_defect 0 rest.
Proof.
  intros Hw1 Hw2 Hx.
  pose proof (match_defect_intro w1 x w2 rest Hw1 Hw2 Hx) as Hm.
  destruct (defect w1 x w2) as [|c m] eqn:Hd; [discriminate|].
  cbn [app replace_defect]. cbn [app] in Hm. rewrite Hm.
  cbn [length Nat.sub]. rewrite Nat.sub_0_r, replace_defect_skip. reflexivity.
Qed.

Lemma replace_defect_before (pre s : jsstring) :
  (forall a b, pre = a ++ b -> b <> [] -> match_defect (b ++ s) = None) ->
  replace_defect 0 (pre ++ s) = pre ++ replace_defect 0 s.
Proof.
  induction pre as [|c pre IH]; intros Hpre; [reflexivity|].
  pose proof (Hpre [] (c :: pre) eq_refl ltac:(discriminate)) as Hhere.
  cbn [app] in Hhere. cbn [app replace_defect]. rewrite Hhere.
  rewrite IH; [reflexivity|]. intros a b -> Hb. apply (Hpre (c :: a) b); auto.
Qed.

Lemma trim_defect (w1 x w2 : jsstring) : trim (defect w1 x w2) = defect w1 x w2.
Proof.
  unfold trim. replace (trimStart (defect w1 x w2)) with (defect w1 x w2) by reflexivity.
  assert (defect w1 x w2
          = ((dq :: "preconditions" ++ [dq; 58%N]) ++ w1 ++ [dq] ++ x ++ [dq] ++ w2
             ++ dq :: "steps") ++ [dq]) as ->.
  { unfold defect. repeat first [rewrite <- app_assoc | progress cbn [app mkstr]].
    reflexivity. }
  apply trimEnd_keeps. reflexivity.
Qed.

(** C7. Cleaning trims the text, removes an opening fence (with its
    optional tag [json] in any letter case) and a closing fence, and
    rewrites the missing-comma defect.  A valid JSON array wrapped in
    fences is cleaned to the array text and parses on the first attempt,
    with no backend call; the text [preconditions: X steps] with its
    quotes, for any [X] without quotes, is rewritten with the comma, also
    when other text surrounds it and no earlier match begins before it. *)
Theorem cleaning_before_parsing :
  (forall (t : jsstring) (l : list value) (tag o1 w1 w2 o2 : jsstring),
      JSON_parse t = Ok (VArr l) ->
      fence_tag tag -> whitespace o1 -> whitespace w1 -> whitespace w2 -> whitespace o2 ->
      let text := o1 ++ "```" ++ tag ++ w1 ++ t ++ w2 ++ "```" ++ o2 in
      cleanLLMJsonResponse text = trim t /\
      parseTestCasesFromLLM text = Ok l /\
      forall (P : Platform) tokenUsage summary tr,
        let run := GenerateCases.parse_phase text tokenUsage summary tr in
        parse_calls run.2 = parse_calls tr ++ [text] /\
        generate_calls run.2 = generate_calls tr) /\
  (forall x w1 w2 : jsstring,
      ~ In dq x -> whitespace w1 -> whitespace w2 ->
      cleanLLMJsonResponse (defect w1 x w2)
      = dq :: "preconditions" ++ [dq] ++ ": " ++ [dq] ++ x ++ [dq] ++ ", "
           ++ [dq] ++ "steps" ++ [dq]) /\
  (forall pre post x w1 w2 : jsstring,
      ~ In dq x -> whitespace w1 -> whitespace w2 ->
      (forall a b, pre = a ++ b -> b <> [] -> match_defect (b ++ defect w1 x w2 ++ post) = None) ->
      replace_defect 0 (pre ++ defect w1 x w2 ++ post)
      = pre ++ (dq :: "preconditions" ++ [dq] ++ ": " ++ [dq] ++ x ++ [dq] ++ ", "
                   ++ [dq] ++ "steps" ++ [dq]) ++ replace_defect 0 post) /\
  cleanLLMJsonResponse
    (dq :: "preconditions" ++ [dq] ++ ": " ++ [dq] ++ "X" ++ [dq] ++ " " ++ [dq] ++ "steps" ++ [dq])
  = dq :: "preconditions" ++ [dq] ++ ": " ++ [dq] ++ "X" ++ [dq] ++ ", " ++ [dq] ++ "steps" ++ [dq].
Proof.
  split; [|split; [|split]].
  - intros t l tag o1 w1 w2 o2 Hparse Htag Ho1 Hw1 Hw2 Ho2 text.
    destruct (JSON_parse_trim t _ Hparse) as [Htrim Hne].
    assert (cleanLLMJsonResponse text = trim t) as Hclean.
    { subst text. rewrite fenced_cleaning; auto.
      - apply replace_defect_none. intros a b Hab.
        apply (valid_json_has_no_defect (trim t) (VArr l) a b Htrim Hab).
      - intros a r Ht. apply (valid_first_char t (VArr l) a r Hparse Ht). }
    split; [exact Hclean|]. split.
    + unfold parseTestCasesFromLLM. rewrite Hclean, Htrim. reflexivity.
    + intros P tokenUsage summary tr run. subst run.
      destruct (batch_parse_phase_trace text [] tokenUsage summary tr) as [-> _].
      rewrite parse_calls_app, generate_calls_app, app_nil_r. auto.
  - intros x w1 w2 Hx Hw1 Hw2. unfold cleanLLMJsonResponse.
    rewrite trim_defect.
    replace (startsWith (defect w1 x w2) "```") with false by reflexivity.
    rewrite <- (app_nil_r (defect w1 x w2)).
    rewrite replace_defect_here by assumption.
    cbn [replace_defect]. rewrite app_nil_r. reflexivity.
  - intros pre post x w1 w2 Hx Hw1 Hw2 Hpre.
    rewrite replace_defect_before by exact Hpre.
    rewrite replace_defect_here by assumption. reflexivity.
  - vm_compute. reflexivity.
Qed.

Lemma cleaning_before_parsing_witness :
  exists l,
    parseTestCasesFromLLM ("```json" ++ [10%N] ++ three_records ++ [10%N] ++ "```") = Ok l /\
    length l = 3.
Proof.
  eexists. split.
  - apply (proj1 cleaning_before_parsing three_records _ "json" [] [10%N] [10%N] []).
    + vm_compute. reflexivity.
    + right. exists 106%N, 115%N, 111%N, 110%N. split; reflexivity.
    + constructor.
    + repeat constructor.
    + repeat constructor.
    + constructor.
  - reflexivity.
Defined.
Lemma refine_preserves_testId_witness :
  exists refined,
    (RefineTestCase.POST (scripted [answer refined_without_id]) shorten_request []).1
    = Ok {| status := 200; body := TestCaseBody refined |} /\
    testId refined = VStr "TC-007".
Proof.
  destruct (refine_preserves_testId (scripted [answer refined_without_id]) shorten_request
              sample_provider {| content := refined_without_id; tokenUsage := None |}
              [("title", VStr "Login succeeds")] "TC-007" [])
    as (refined & Hrun & _ & Hinput).
  - vm_compute. reflexivity.
  - vm_compute. reflexivity.
  - vm_compute. reflexivity.
  - vm_compute. reflexivity.
  - vm_compute. reflexivity.
  - reflexivity.
  - discriminate.
  - exists refined. split; [rewrite Hrun; reflexivity|]. apply Hinput. left. reflexivity.
Defined.

Lemma context_threshold_witness :
  generate_calls (AddMoreCases.POST (scripted [answer three_records]) more_request []).2
  = [(sample_provider,
      generateAddMoreTestCasesPrompt "Users log in with their email and password."
        (inl [sample_record]) "Add negative cases" 5)] /\
  exists compression,
    generate_calls
      (AddMoreCases.POST (scripted [answer " Login is covered. "; answer three_records])
         large_request []).2
    = [(sample_provider, compression);
       (sample_provider,
        generateAddMoreTestCasesPrompt "Users log in with their email and password."
          (inr "Login is covered.") "Add negative cases" 3)].
Proof.
  split.
  - destruct (context_threshold (scripted [answer three_records]) more_request
                sample_provider sample_record [] []) as [Hbelow _].
    + vm_compute. reflexivity.
    + reflexivity.
    + vm_compute. reflexivity.
    + vm_compute. reflexivity.
    + vm_compute. reflexivity.
    + destruct Hbelow as (_ & Hcalls & _); [vm_compute; discriminate|]. exact Hcalls.
  - destruct (context_threshold (scripted [answer " Login is covered. "; answer three_records])
                large_request sample_provider (VStr (repeat 97%N 20001)) [] [])
      as [_ Habove].
    + vm_compute. reflexivity.
    + reflexivity.
    + vm_compute. reflexivity.
    + vm_compute. reflexivity.
    + vm_compute. reflexivity.
    + destruct Habove as (compression & _ & _ & Hanswered & _); [vm_compute; reflexivity|].
      exists compression.
      destruct (Hanswered {| content := " Login is covered. "; tokenUsage := None |})
        as (_ & Hcalls & _); [reflexivity|].
      exact Hcalls.
Defined.

(** * Further properties *)
(** ** The normaliser on arbitrary arrays *)

Lemma get_nullish (v : value) (key : jsstring) :
  nullish v = true -> get v key = Throw (TypeError key).
Proof. destruct v; cbn; congruence. Qed.

Lemma get_not_nullish (v : value) (key : jsstring) :
  nullish v = false -> exists x, get v key = Ok x.
Proof. destruct v; cbn; try congruence; eauto. Qed.

Lemma normalizeTestCase_nullish (tc : value) (index : nat) (ids : option (list value)) :
  nullish tc = true -> normalizeTestCase tc index ids = Throw (TypeError "testId").
Proof.
  intros Hn. unfold normalizeTestCase. rewrite (get_nullish tc "testId" Hn). reflexivity.
Qed.

Lemma normalizeTestCase_answers (tc : value) (index : nat) (ids : list value) :
  nullish tc = false ->
  exists r ids', normalizeTestCase tc index (Some ids) = Ok (r, Some ids').
Proof.
  intros Hn. unfold normalizeTestCase.
  destruct (get_not_nullish tc "testId" Hn) as (x & Hx). rewrite Hx.
  cbn [mbind outcome_bind JS.bind].
  destruct (claim_loop_total ids (JS.or x (VStr (tcId (index + 1)))) (index + 1))
    as (id & Hloop & _).
  rewrite Hloop. cbn [JS.bind mret outcome_ret].
  destruct (get_not_nullish tc "title" Hn) as (x1 & ->).
  destruct (get_not_nullish tc "description" Hn) as (x2 & ->).
  destruct (get_not_nullish tc "preconditions" Hn) as (x3 & ->).
  destruct (get_not_nullish tc "steps" Hn) as (x4 & ->).
  destruct (get_not_nullish tc "expectedResult" Hn) as (x5 & ->).
  destruct (get_not_nullish tc "priority" Hn) as (x6 & ->).
  destruct (get_not_nullish tc "type" Hn) as (x7 & ->).
  cbn [JS.bind fst snd]. eauto.
Qed.

Lemma map_testId_answers (existing : list value) :
  forallb (fun v => negb (nullish v)) existing = true ->
  exists ids, map_testId existing = Ok ids.
Proof.
  induction existing as [|e existing IH]; cbn [forallb map_testId]; [eauto|].
  intros [He Hrest]%andb_prop. apply negb_true_iff in He.
  destruct (get_not_nullish e "testId" He) as (x & ->).
  destruct (IH Hrest) as (ids & ->).
  cbn [mbind outcome_bind JS.bind mret outcome_ret]. eauto.
Qed.

Lemma map_testId_nullish (existing : list value) :
  existsb nullish existing = true -> map_testId existing = Throw (TypeError "testId").
Proof.
  induction existing as [|e existing IH]; cbn [existsb map_testId]; [discriminate|].
  destruct (nullish e) eqn:He.
  - intros _. rewrite (get_nullish e "testId" He). reflexivity.
  - cbn [orb]. intros Hrest. destruct (get_not_nullish e "testId" He) as (x & ->).
    rewrite (IH Hrest). reflexivity.
Qed.

Lemma normalize_from_answers (batch : list value) (offset start : nat) (ids : list value) :
  forallb (fun v => negb (nullish v)) batch = true ->
  exists rs, normalize_from offset start batch ids = Ok rs /\ length rs = length batch.
Proof.
  revert start ids. induction batch as [|tc batch IH]; intros start ids;
    cbn [forallb normalize_from]; [eauto|].
  intros [Htc Hrest]%andb_prop. apply negb_true_iff in Htc.
  destruct (normalizeTestCase_answers tc (offset + start + 1) ids Htc) as (r & ids' & ->).
  cbn [mbind outcome_bind JS.bind mret outcome_ret fst snd from_option id].
  destruct (IH (S start) ids' Hrest) as (rs & -> & Hlen).
  cbn [JS.bind]. eexists. split; [reflexivity|]. cbn [length]. congruence.
Qed.

Lemma normalize_from_nullish (batch : list value) (offset start : nat) (ids : list value) :
  existsb nullish batch = true ->
  normalize_from offset start batch ids = Throw (TypeError "testId").
Proof.
  revert start ids. induction batch as [|tc batch IH]; intros start ids;
    cbn [existsb normalize_from]; [discriminate|].
  destruct (nullish tc) eqn:Htc.
  - intros _. rewrite (normalizeTestCase_nullish tc _ _ Htc). reflexivity.
  - cbn [orb]. intros Hrest.
    destruct (normalizeTestCase_answers tc (offset + start + 1) ids Htc) as (r & ids' & ->).
    cbn [mbind outcome_bind JS.bind mret outcome_ret fst snd from_option id].
    rewrite (IH (S start) ids' Hrest). reflexivity.
Qed.

Lemma forallb_negb {A} (p : A -> bool) (l : list A) :
  forallb (fun v => negb (p v)) l = negb (existsb p l).
Proof.
  induction l as [|x l IH]; cbn [forallb existsb]; [reflexivity|].
  rewrite IH. destruct (p x); reflexivity.
Qed.

(** X1. [normalizeTestCases] answers exactly when neither array holds
    [null] (or [undefined]): then it returns one record per element of the
    batch, whatever the elements are; otherwise reading [testId] raises a
    [TypeError]. *)
Theorem normalizeTestCases_null_elements (batch existing : list value) :
  (forallb (fun v => negb (nullish v)) (existing ++ batch) = true ->
     exists rs, normalizeTestCases batch existing = Ok rs /\ length rs = length batch) /\
  (existsb nullish (existing ++ batch) = true ->
     normalizeTestCases batch existing = Throw (TypeError "testId")).
Proof.
  unfold normalizeTestCases. split.
  - rewrite forallb_app. intros [He Hb]%andb_prop.
    destruct (map_testId_answers existing He) as (ids & ->).
    cbn [mbind outcome_bind JS.bind]. apply normalize_from_answers, Hb.
  - rewrite existsb_app. intros [He|Hb]%orb_prop.
    + rewrite (map_testId_nullish existing He). reflexivity.
    + destruct (forallb (fun v => negb (nullish v)) existing) eqn:He.
      * destruct (map_testId_answers existing He) as (ids & ->).
        cbn [mbind outcome_bind JS.bind]. apply normalize_from_nullish, Hb.
      * rewrite map_testId_nullish; [reflexivity|].
        apply not_true_iff_false in He. destruct (existsb nullish existing) eqn:E; [reflexivity|].
        exfalso. apply He. apply forallb_forall. intros x Hx.
        apply negb_true_iff. destruct (nullish x) eqn:Ex; [|reflexivity].
        assert (existsb nullish existing = true) by (apply existsb_exists; eauto). congruence.
Qed.


Lemma normalizeTestCases_null_elements_witness :
  (exists rs, normalizeTestCases [VNum "7"; VStr "login"; VArr []] [] = Ok rs /\ length rs = 3) /\
  normalizeTestCases [VObj []; VNull] [] = Throw (TypeError "testId").
Proof.
  split.
  - apply (proj1 (normalizeTestCases_null_elements [VNum "7"; VStr "login"; VArr []] [])).
    reflexivity.
  - apply (proj2 (normalizeTestCases_null_elements [VObj []; VNull] [])). reflexivity.
Defined.
(** ** Normalising twice *)

Lemma or_absorb (a b b' : value) :
  truthy b = true \/ b = b' -> JS.or (JS.or a b) b' = JS.or a b.
Proof.
  unfold JS.or. destruct (truthy a) eqn:Ha.
  - rewrite Ha. reflexivity.
  - intros [Hb| ->]; [rewrite Hb; reflexivity|]. destruct (truthy b'); reflexivity.
Qed.

Lemma or_truthy (a b : value) : truthy b = true -> truthy (JS.or a b) = true.
Proof. unfold JS.or. destruct (truthy a) eqn:Ha; auto. Qed.

Lemma claim_loop_truthy (fuel : nat) (ids : list value) (t r : value) (c : nat) :
  claim_loop fuel ids t c = Ok r -> truthy t = true -> truthy r = true.
Proof.
  revert t c. induction fuel as [|fuel IH]; intros t c; cbn [claim_loop];
    destruct (Set_has ids t); try discriminate; try (intros [= <-]; auto; fail).
  intros Hloop _. apply (IH _ _ Hloop). reflexivity.
Qed.

(** The shape of every record the normaliser returns. *)
Lemma normalizeTestCase_fields (tc : value) (index : nat) (ids0 ids' : option (list value))
  (r : TestCase) :
  normalizeTestCase tc index ids0 = Ok (r, ids') ->
  exists id x1 x2 x3 x4 x5 x6 x7,
    truthy id = true /\
    r = {| testId := id;
           title := JS.or x1 (VStr ("Test Case " ++ String_of_nat (index + 1)));
           description := JS.or x2 (VStr "");
           preconditions := JS.or x3 (VStr "");
           steps := match x4 with VArr l => l | _ => [] end;
           expectedResult := JS.or x5 (VStr "");
           priority := JS.or x6 (VStr "Medium");
           type := JS.or x7 (VStr "Functional") |}.
Proof.
  unfold normalizeTestCase. intros Hrun.
  destruct (nullish tc) eqn:Hn; [rewrite (get_nullish tc "testId" Hn) in Hrun; discriminate|].
  destruct (get_not_nullish tc "testId" Hn) as (x0 & Hx0). rewrite Hx0 in Hrun.
  destruct (get_not_nullish tc "title" Hn) as (x1 & Hx1). rewrite Hx1 in Hrun.
  destruct (get_not_nullish tc "description" Hn) as (x2 & Hx2). rewrite Hx2 in Hrun.
  destruct (get_not_nullish tc "preconditions" Hn) as (x3 & Hx3). rewrite Hx3 in Hrun.
  destruct (get_not_nullish tc "steps" Hn) as (x4 & Hx4). rewrite Hx4 in Hrun.
  destruct (get_not_nullish tc "expectedResult" Hn) as (x5 & Hx5). rewrite Hx5 in Hrun.
  destruct (get_not_nullish tc "priority" Hn) as (x6 & Hx6). rewrite Hx6 in Hrun.
  destruct (get_not_nullish tc "type" Hn) as (x7 & Hx7). rewrite Hx7 in Hrun.
  cbn [mbind outcome_bind JS.bind mret outcome_ret] in Hrun.
  assert (truthy (JS.or x0 (VStr (tcId (index + 1)))) = true) as Hid0
      by (apply or_truthy; reflexivity).
  destruct ids0 as [ids|].
  - destruct (claim_loop _ ids _ _) as [id| |] eqn:Hloop; cbn [JS.bind] in Hrun;
      try discriminate.
    injection Hrun as <- _. exists id, x1, x2, x3, x4, x5, x6, x7.
    split; [exact (claim_loop_truthy _ _ _ _ _ Hloop Hid0)|reflexivity].
  - cbn [JS.bind fst] in Hrun. injection Hrun as <- _.
    exists (JS.or x0 (VStr (tcId (index + 1)))), x1, x2, x3, x4, x5, x6, x7.
    split; [exact Hid0|reflexivity].
Qed.

Lemma TestCase_object_props (r : TestCase) :
  exists props,
    TestCase_object r = VObj props /\
    lookup_prop "testId" props = testId r /\
    lookup_prop "title" props = title r /\
    lookup_prop "description" props = description r /\
    lookup_prop "preconditions" props = preconditions r /\
    lookup_prop "steps" props = VArr (steps r) /\
    lookup_prop "expectedResult" props = expectedResult r /\
    lookup_prop "priority" props = priority r /\
    lookup_prop "type" props = type r.
Proof. eexists. split; [reflexivity|]. repeat split; vm_compute; reflexivity. Qed.

(** X2. A record that came out of the normaliser goes through it
    unchanged, at any position: without an identifier set, and with any
    set that does not hold its identifier yet (which is then added). *)
Theorem normalizeTestCase_idempotent (tc : value) (index : nat)
  (ids0 ids' : option (list value)) (r : TestCase) :
  normalizeTestCase tc index ids0 = Ok (r, ids') ->
  forall position : nat,
    normalizeTestCase (TestCase_object r) position None = Ok (r, None) /\
    forall ids, Set_has ids (testId r) = false ->
      normalizeTestCase (TestCase_object r) position (Some ids)
      = Ok (r, Some (ids ++ [testId r])).
Proof.
  intros Hrun position.
  destruct (normalizeTestCase_fields tc index ids0 ids' r Hrun)
    as (id & x1 & x2 & x3 & x4 & x5 & x6 & x7 & Hid & ->).
  match goal with |- context [TestCase_object ?r] =>
    destruct (TestCase_object_props r) as (props & -> & H0 & H1 & H2 & H3 & H4 & H5 & H6 & H7)
  end.
  cbn [testId title description preconditions steps expectedResult priority type]
    in H0, H1, H2, H3, H4, H5, H6, H7 |- *.
  assert (JS.or id (VStr (tcId (position + 1))) = id) as Hkeep
      by (unfold JS.or; rewrite Hid; reflexivity).
  split; [|intros ids Hfree]; rewrite normalizeTestCase_object; cbv zeta;
    rewrite H0, H1, H2, H3, H4, H5, H6, H7, Hkeep, !or_absorb by (auto; left; reflexivity).
  - reflexivity.
  - assert (claim_loop (S (length ids)) ids id (position + 1) = Ok id) as ->
        by (cbn [claim_loop]; rewrite Hfree; reflexivity).
    cbn [mbind outcome_bind JS.bind mret outcome_ret]. unfold Set_add. rewrite Hfree.
    destruct x4; reflexivity.
Qed.

Lemma normalizeTestCase_idempotent_witness :
  exists r,
    normalizeTestCase (VObj [("title", VStr "Login")]) 4 None = Ok (r, None) /\
    normalizeTestCase (TestCase_object r) 0 None = Ok (r, None).
Proof.
  eexists. split; [vm_compute; reflexivity|].
  refine (proj1 (normalizeTestCase_idempotent (VObj [("title", VStr "Login")]) 4 None None
                   _ _ 0)).
  vm_compute. reflexivity.
Defined.
(** ** Cleaning a response that is valid already *)

Lemma valid_not_fenced (text : jsstring) (v : value) :
  JSON_parse text = Ok v -> startsWith text "```" = false.
Proof.
  destruct text as [|a r]; [reflexivity|].
  cbn [startsWith mkstr]. destruct (N.eqb 96 a) eqn:Ea; [|reflexivity].
  apply N.eqb_eq in Ea. subst a. unfold JSON_parse. rewrite lex_cons. cbn. discriminate.
Qed.

(** X3. A text that [JSON.parse] accepts is only trimmed by the cleaner,
    and parses to the same value afterwards: the fence removal and the
    comma repair never touch a valid response.  Both response parsers
    therefore return its value when it has the right shape. *)
Theorem cleaning_preserves_valid_json (text : jsstring) (v : value) :
  JSON_parse text = Ok v ->
  cleanLLMJsonResponse text = trim text /\
  JSON_parse (cleanLLMJsonResponse text) = Ok v /\
  (forall l, v = VArr l -> parseTestCasesFromLLM text = Ok l) /\
  (forall props, v = VObj props -> parseTestCaseFromLLM text = Ok v).
Proof.
  intros Hparse.
  destruct (JSON_parse_trim text v Hparse) as (Htrim & _).
  assert (cleanLLMJsonResponse text = trim text) as Hclean.
  { unfold cleanLLMJsonResponse. cbv zeta.
    rewrite (valid_not_fenced (trim text) v Htrim).
    apply replace_defect_none. intros a b Hsplit.
    exact (valid_json_has_no_defect (trim text) v a b Htrim Hsplit). }
  split; [exact Hclean|]. split; [rewrite Hclean; exact Htrim|].
  unfold parseTestCasesFromLLM, parseTestCaseFromLLM. cbv zeta. rewrite Hclean, Htrim.
  split; [intros l ->|intros props ->]; reflexivity.
Qed.

Lemma cleaning_preserves_valid_json_witness :
  cleanLLMJsonResponse ([10; 32]%N ++ three_records ++ [32; 10]%N) = three_records.
Proof.
  destruct (cleaning_preserves_valid_json ([10; 32]%N ++ three_records ++ [32; 10]%N)
              (VArr [VObj [("title", VStr "Login with valid credentials")];
                     VObj [("title", VStr "Login with a wrong password")];
                     VObj [("title", VStr "Login with an empty email")]]))
    as (Hclean & _).
  - vm_compute. reflexivity.
  - rewrite Hclean. vm_compute. reflexivity.
Defined.
(** ** The refinement handler: what it accepts, how it fails *)

Lemma upto_last_brace_None (s : jsstring) :
  ~ In 125%N s -> RefineTestCase.upto_last_brace s = None.
Proof.
  induction s as [|c s IH]; cbn [RefineTestCase.upto_last_brace]; [reflexivity|].
  intros Hnot. rewrite IH by (intros Hin; apply Hnot; right; exact Hin).
  destruct (N.eqb c 125) eqn:Ec; [|reflexivity].
  apply N.eqb_eq in Ec. exfalso. apply Hnot. left. exact Ec.
Qed.

Lemma upto_last_brace_last (mid post : jsstring) :
  ~ In 125%N post ->
  RefineTestCase.upto_last_brace (mid ++ 125%N :: post) = Some (mid ++ [125%N]).
Proof.
  intros Hpost. induction mid as [|c mid IH]; cbn [app RefineTestCase.upto_last_brace].
  - rewrite (upto_last_brace_None post Hpost). reflexivity.
  - rewrite IH. reflexivity.
Qed.

Lemma match_braces_span (pre mid post : jsstring) :
  ~ In 123%N pre -> ~ In 125%N post ->
  RefineTestCase.match_braces (pre ++ 123%N :: mid ++ 125%N :: post)
  = Some (123%N :: mid ++ [125%N]).
Proof.
  intros Hpre Hpost. induction pre as [|c pre IH]; cbn [app RefineTestCase.match_braces].
  - cbn [N.eqb Pos.eqb]. rewrite (upto_last_brace_last mid post Hpost). reflexivity.
  - destruct (N.eqb c 123) eqn:Ec.
    + apply N.eqb_eq in Ec. exfalso. apply Hpre. left. exact Ec.
    + apply IH. intros Hin. apply Hpre. right. exact Hin.
Qed.

Lemma trimStart_suffix (s : jsstring) (x : N) : In x (trimStart s) -> In x s.
Proof.
  induction s as [|c s IH]; cbn [trimStart]; [auto|].
  destruct (isWhiteSpace c); [intros Hin; right; auto|auto].
Qed.

Lemma trimEnd_prefix (s : jsstring) (x : N) : In x (trimEnd s) -> In x s.
Proof.
  induction s as [|c s IH]; cbn [trimEnd]; [auto|].
  destruct (trimEnd s) as [|d r] eqn:E.
  - destruct (isWhiteSpace c); [intros []|]. intros [->|[]]. left. reflexivity.
  - intros [->|Hin]; [left; reflexivity|right; auto].
Qed.

Lemma trimStart_before (pre rest : jsstring) (c : N) :
  isWhiteSpace c = false -> trimStart (pre ++ c :: rest) = trimStart pre ++ c :: rest.
Proof.
  intros Hc. induction pre as [|d pre IH]; cbn [app trimStart].
  - rewrite Hc. reflexivity.
  - destruct (isWhiteSpace d); [exact IH|reflexivity].
Qed.

Lemma trimEnd_after (body post : jsstring) (c : N) :
  isWhiteSpace c = false -> trimEnd (body ++ c :: post) = body ++ c :: trimEnd post.
Proof.
  intros Hc.
  assert (trimEnd (c :: post) = c :: trimEnd post) as Hhead.
  { cbn [trimEnd]. destruct (trimEnd post); [rewrite Hc|]; reflexivity. }
  induction body as [|d body IH]; cbn [app]; [exact Hhead|].
  cbn [trimEnd]. rewrite IH. destruct body; reflexivity.
Qed.

(** The text the first turn of the loop parses, for a response with an
    object between two pieces of prose. *)
Lemma extraction_of_prose (pre mid post : jsstring) :
  ~ In 123%N pre -> ~ In 125%N post ->
  let content := pre ++ 123%N :: mid ++ 125%N :: post in
  default (trim content) (RefineTestCase.match_braces (trim content))
  = 123%N :: mid ++ [125%N].
Proof.
  intros Hpre Hpost content. subst content. unfold trim.
  rewrite trimStart_before by reflexivity.
  change (trimStart pre ++ 123%N :: mid ++ 125%N :: post)
    with (trimStart pre ++ (123%N :: mid) ++ 125%N :: post).
  rewrite app_assoc, trimEnd_after by reflexivity.
  rewrite <- app_assoc. cbn [app].
  rewrite match_braces_span; [reflexivity| |].
  - intros Hin. apply Hpre. apply trimStart_suffix. exact Hin.
  - intros Hin. apply Hpost. apply trimEnd_prefix. exact Hin.
Qed.

Lemma truthy_not_nullish (v : value) : truthy v = true -> nullish v = false.
Proof. destruct v; cbn; congruence. Qed.

Lemma finalize_answers (props : list (jsstring * value)) (testCase : value) :
  truthy testCase = true ->
  exists refined, RefineTestCase.finalize (VObj props) testCase = Ok refined.
Proof.
  intros Htruthy. unfold RefineTestCase.finalize.
  cbn [get mbind outcome_bind JS.bind mret outcome_ret].
  destruct (get_not_nullish testCase "testId" (truthy_not_nullish _ Htruthy)) as (x & ->).
  destruct (truthy (lookup_prop "testId" props));
    cbn [mbind outcome_bind JS.bind mret outcome_ret];
    rewrite normalizeTestCase_object; cbv zeta;
    cbn [mbind outcome_bind JS.bind mret outcome_ret fst]; eauto.
Qed.

(** The parse phase of the refinement handler when the first parse
    succeeds, for any input record that passed validation. *)
Lemma refine_parse_phase_success `{Platform} `{Wording} (backend : Backend)
  (providerInstance : Provider) (system : jsstring) (testCase : value)
  (generatedText : jsstring) (v : value) (tr : list event) :
  let cleaned := default (trim generatedText) (RefineTestCase.match_braces (trim generatedText)) in
  parseTestCaseFromLLM cleaned = Ok v ->
  truthy testCase = true ->
  exists refined,
    RefineTestCase.parse_phase backend providerInstance system testCase generatedText tr
    = (Ok {| status := 200; body := TestCaseBody refined |}, tr ++ [EvParse cleaned]).
Proof.
  intros cleaned Hparse Htruthy.
  destruct (parseTestCaseFromLLM_object cleaned v Hparse) as (props & ->).
  destruct (finalize_answers props testCase Htruthy) as (refined & Hfin).
  exists refined. unfold RefineTestCase.parse_phase.
  cbn [RefineTestCase.parse_loop RefineTestCase.maxAttempts RefineTestCase.parseAttempts
       Nat.ltb Nat.leb].
  unfold RefineTestCase.loop_body. cbn [RefineTestCase.cleanedText].
  replace (match RefineTestCase.match_braces (trim generatedText) with
           | Some jsonMatch => jsonMatch | None => trim generatedText end) with cleaned
    by (unfold cleaned; destruct (RefineTestCase.match_braces _); reflexivity).
  unfold mbind, M_bind, attempt, parsing, mret, M_ret. rewrite Hparse.
  cbn [fst snd RefineTestCase.parsed]. rewrite Hfin. reflexivity.
Qed.

(** X4. The refinement handler accepts a response with prose around the
    JSON object: the text from the first opening brace to the last closing
    brace is what it parses, and when that text is a valid object the
    request succeeds after one parse, without a repair prompt. *)
Theorem refine_tolerates_prose `{Platform} `{Wording} (backend : Backend)
  (request : RefineTestCase.Request) (providerInstance : Provider)
  (result : GenerateResult) (pre mid post : jsstring) (v : value) (tr : list event) :
  let messages :=
    refineTestCasePrompt (default [] (RefineTestCase.summary request))
      (RefineTestCase.testCase request) (default [] (RefineTestCase.followup request)) in
  blank (RefineTestCase.summary request) = false ->
  truthy (RefineTestCase.testCase request) = true ->
  blank (RefineTestCase.followup request) = false ->
  provider_of (RefineTestCase.provider request) (RefineTestCase.config request)
  = Ok providerInstance ->
  backend tr providerInstance messages = Ok result ->
  content result = pre ++ 123%N :: mid ++ 125%N :: post ->
  ~ In 123%N pre -> ~ In 125%N post ->
  parseTestCaseFromLLM (123%N :: mid ++ [125%N]) = Ok v ->
  exists refined,
    RefineTestCase.POST backend request tr
    = (Ok {| status := 200; body := TestCaseBody refined |},
       (tr ++ [EvGenerate providerInstance messages])
       ++ [EvParse (123%N :: mid ++ [125%N])]).
Proof.
  intros messages Hsummary Hrecord Hfollowup Hinstance Hanswer Hcontent Hpre Hpost Hparse.
  rewrite (refine_POST_answered backend request providerInstance result tr Hsummary
             Hrecord Hfollowup Hinstance Hanswer).
  fold messages.
  pose proof (extraction_of_prose pre mid post Hpre Hpost) as Hcleaned. cbv zeta in Hcleaned.
  rewrite <- Hcontent in Hcleaned.
  destruct (refine_parse_phase_success backend providerInstance (system messages)
              (RefineTestCase.testCase request) (content result) v
              (tr ++ [EvGenerate providerInstance messages])) as (refined & Hrun).
  - rewrite Hcleaned. exact Hparse.
  - exact Hrecord.
  - exists refined. rewrite Hrun, Hcleaned. reflexivity.
Qed.

Lemma refine_tolerates_prose_witness :
  exists refined,
    (RefineTestCase.POST
       (scripted [answer ("Here is the refined test case: " ++ refined_without_id
                          ++ " Let me know if you need more.")])
       shorten_request []).1
    = Ok {| status := 200; body := TestCaseBody refined |}.
Proof.
  destruct (refine_tolerates_prose
              (scripted [answer ("Here is the refined test case: " ++ refined_without_id
                                 ++ " Let me know if you need more.")])
              shorten_request sample_provider
              {| content := "Here is the refined test case: " ++ refined_without_id
                            ++ " Let me know if you need more.";
                 tokenUsage := None |}
              "Here is the refined test case: "
              (dq :: "title" ++ [dq] ++ ": " ++ [dq] ++ "Login succeeds" ++ [dq])
              " Let me know if you need more."
              (VObj [("title", VStr "Login succeeds")]) [])
    as (refined & Hrun).
  - vm_compute. reflexivity.
  - vm_compute. reflexivity.
  - vm_compute. reflexivity.
  - vm_compute. reflexivity.
  - vm_compute. reflexivity.
  - vm_compute. reflexivity.
  - vm_compute. intuition discriminate.
  - vm_compute. intuition discriminate.
  - vm_compute. reflexivity.
  - exists refined. rewrite Hrun. reflexivity.
Defined.
(** ** The four handlers, seen from outside *)

Lemma createProvider_answers (config : ProviderConfig) : createProvider config <> Diverge.
Proof.
  unfold createProvider.
  repeat match goal with |- context [if ?b then _ else _] => destruct b end;
    cbn; discriminate.
Qed.

Lemma JSON_parse_answers (text : jsstring) : JSON_parse text <> Diverge.
Proof.
  unfold JSON_parse. destruct (lex LxOut text); [destruct (parse_tokens _ _)|]; discriminate.
Qed.

Lemma parseTestCasesFromLLM_answers (text : jsstring) : parseTestCasesFromLLM text <> Diverge.
Proof.
  unfold parseTestCasesFromLLM. cbv zeta.
  pose proof (JSON_parse_answers (cleanLLMJsonResponse text)) as Hp.
  destruct (JSON_parse _) as [v| |]; cbn; try congruence. destruct v; discriminate.
Qed.

Lemma parseTestCaseFromLLM_answers (text : jsstring) : parseTestCaseFromLLM text <> Diverge.
Proof.
  unfold parseTestCaseFromLLM. cbv zeta.
  pose proof (JSON_parse_answers (cleanLLMJsonResponse text)) as Hp.
  destruct (JSON_parse _) as [v| |]; cbn; try congruence. destruct v; cbn; discriminate.
Qed.

Lemma map_testId_total (existing : list value) : map_testId existing <> Diverge.
Proof.
  destruct (existsb nullish existing) eqn:E.
  - rewrite (map_testId_nullish existing E). discriminate.
  - destruct (map_testId_answers existing) as (ids & ->);
      [rewrite forallb_negb, E; reflexivity|discriminate].
Qed.

Lemma normalize_from_total (batch : list value) (offset start : nat) (ids : list value) :
  normalize_from offset start batch ids <> Diverge.
Proof.
  destruct (existsb nullish batch) eqn:E.
  - rewrite (normalize_from_nullish batch offset start ids E). discriminate.
  - destruct (normalize_from_answers batch offset start ids) as (rs & -> & _);
      [rewrite forallb_negb, E; reflexivity|discriminate].
Qed.

Lemma normalizeTestCases_answers (batch existing : list value) :
  normalizeTestCases batch existing <> Diverge.
Proof.
  unfold normalizeTestCases. pose proof (map_testId_total existing) as Hm.
  destruct (map_testId existing) as [ids| |]; cbn [mbind outcome_bind JS.bind];
    try congruence. apply normalize_from_total.
Qed.

Lemma provider_of_answers (provider : jsstring) (config : option RequestConfig) :
  provider_of provider config <> Diverge.
Proof. apply createProvider_answers. Qed.

Ltac refused := left; eexists; split; reflexivity.

Ltac grown :=
  right; eexists; split; [cbn [fst snd]; rewrite <- ?app_assoc; reflexivity|];
  cbn [fst snd app]; split; [discriminate|]; split; [cbn; lia|]; split; [cbn; lia|].

Lemma generate_summary_handled `{Platform} (backend : Backend)
  (request : GenerateSummary.Request) (tr : list event) :
  handled GenerateSummary.status backend tr (GenerateSummary.POST backend request tr) 1 0.
Proof.
  unfold GenerateSummary.POST.
  destruct (blank _); [refused|]. destruct (missing _); [refused|].
  pose proof (provider_of_answers (default [] (GenerateSummary.provider request))
                (GenerateSummary.config request)) as Hp.
  destruct (provider_of _ _) as [instance|e|]; [|refused|congruence].
  cbv zeta. unfold mbind, M_bind, attempt, generate.
  destruct (backend tr instance _) as [result|e|] eqn:Hb; grown.
  - left. reflexivity.
  - right. reflexivity.
  - intros Hr. exact (Hr _ _ _ Hb).
Qed.

Lemma generate_cases_parse_phase `{Platform} (generatedText : jsstring)
  (tokenUsage : option TokenUsage) (summary : option jsstring) (tr : list event) :
  exists r,
    GenerateCases.parse_phase generatedText tokenUsage summary tr
    = (Ok r, tr ++ [EvParse generatedText]) /\ (status r = 200 \/ status r = 500).
Proof.
  unfold GenerateCases.parse_phase, mbind, M_bind, attempt, parsing, lift, mret, M_ret.
  pose proof (parseTestCasesFromLLM_answers generatedText) as Hp.
  destruct (parseTestCasesFromLLM generatedText) as [parsed|e|]; [| |congruence].
  - pose proof (normalizeTestCases_answers parsed []) as Hn.
    destruct (normalizeTestCases parsed []) as [rs|e|]; [| |congruence];
      eexists; (split; [reflexivity|]); cbn; auto.
  - eexists. split; [reflexivity|]. cbn. auto.
Qed.

Lemma generate_cases_handled `{Platform} `{Wording} (backend : Backend)
  (request : GenerateCases.Request) (tr : list event) :
  handled status backend tr (GenerateCases.POST backend request tr) 1 1.
Proof.
  unfold GenerateCases.POST.
  destruct (blank _); [refused|]. destruct (missing _); [refused|].
  pose proof (provider_of_answers (default [] (GenerateCases.provider request))
                (GenerateCases.config request)) as Hp.
  destruct (provider_of _ _) as [instance|e|]; [|refused|congruence].
  cbv zeta. unfold mbind at 1. unfold M_bind, attempt, generate.
  destruct (backend tr instance _) as [result|e|] eqn:Hb.
  - destruct (generate_cases_parse_phase (content result) (tokenUsage result)
                (GenerateCases.summary request) (tr ++ [EvGenerate instance
                   (generateTestCasePrompt (default [] (GenerateCases.text request))
                      (GenerateCases.count request))])) as (r & -> & Hstatus).
    grown. exact Hstatus.
  - grown. right. reflexivity.
  - grown. intros Hr. exact (Hr _ _ _ Hb).
Qed.

Lemma add_more_parse_phase `{Platform} (generatedText : jsstring)
  (existing : list value) (tokenUsage : option TokenUsage) (tr : list event) :
  exists r,
    AddMoreCases.parse_phase generatedText existing tokenUsage tr
    = (Ok r, tr ++ [EvParse generatedText]) /\ (status r = 200 \/ status r = 500).
Proof.
  unfold AddMoreCases.parse_phase, mbind, M_bind, attempt, parsing, lift, mret, M_ret.
  pose proof (parseTestCasesFromLLM_answers generatedText) as Hp.
  destruct (parseTestCasesFromLLM generatedText) as [parsed|e|]; [| |congruence].
  - pose proof (normalizeTestCases_answers parsed existing) as Hn.
    destruct (normalizeTestCases parsed existing) as [rs|e|]; [| |congruence];
      eexists; (split; [reflexivity|]); cbn; auto.
  - eexists. split; [reflexivity|]. cbn. auto.
Qed.

(** The context step: no call, or one compression call. *)
Lemma context_step `{Platform} (backend : Backend) (existing : list value)
  (instance : Provider) (tr : list event) :
  let run := AddMoreCases.existingTestCasesForPrompt backend existing instance tr in
  (exists c, run = (Ok c, tr)) \/
  (exists messages,
      run.2 = tr ++ [EvGenerate instance messages] /\
      match run.1 with
      | Ok _ => True
      | Throw _ => False
      | Diverge => backend tr instance messages = Diverge
      end).
Proof.
  cbv zeta. unfold AddMoreCases.existingTestCasesForPrompt. cbv zeta.
  destruct (_ <? _)%Z; [|left; eexists; reflexivity].
  right. unfold AddMoreCases.summarizeExistingTestCases. cbv zeta.
  unfold mbind, M_bind, attempt, generate, mret, M_ret.
  eexists. destruct (backend tr instance _) eqn:Hb; cbn [fst snd];
    (split; [reflexivity|]); auto.
Qed.

Lemma add_more_handled `{Platform} `{Wording} (backend : Backend)
  (request : AddMoreCases.Request) (tr : list event) :
  handled status backend tr (AddMoreCases.POST backend request tr) 2 1.
Proof.
  unfold AddMoreCases.POST.
  destruct (blank (AddMoreCases.summary request)); [refused|].
  destruct (AddMoreCases.existingTestCases request) as [| | | | |[|tc more]|]; try refused.
  destruct (blank _); [refused|]. destruct (missing _); [refused|].
  pose proof (provider_of_answers (default [] (AddMoreCases.provider request))
                (AddMoreCases.config request)) as Hp.
  destruct (provider_of _ _) as [instance|e|]; [|refused|congruence].
  cbv zeta. unfold mbind at 1. unfold M_bind at 1.
  destruct (context_step backend (tc :: more) instance tr) as [(c & ->)|(m & Htr & Hout)].
  - unfold mbind at 1. unfold M_bind, attempt, generate.
    destruct (backend tr instance _) as [result|e|] eqn:Hb.
    + match goal with |- context [AddMoreCases.parse_phase ?a ?b ?c ?d] =>
        destruct (add_more_parse_phase a b c d) as (r & -> & Hstatus) end.
      grown. exact Hstatus.
    + grown. right. reflexivity.
    + grown. intros Hr. exact (Hr _ _ _ Hb).
  - destruct (AddMoreCases.existingTestCasesForPrompt backend (tc :: more) instance tr)
      as [[c|e|] tr1]; cbn [fst snd] in Htr, Hout; subst tr1; [|contradiction|].
    + unfold mbind at 1. unfold M_bind, attempt, generate.
      match goal with |- context [backend ?t ?i ?p] =>
        destruct (backend t i p) as [result|e|] eqn:Hb end.
      * match goal with |- context [AddMoreCases.parse_phase ?a ?b ?c ?d] =>
          destruct (add_more_parse_phase a b c d) as (r & -> & Hstatus) end.
        grown. exact Hstatus.
      * grown. right. reflexivity.
      * grown. intros Hr. exact (Hr _ _ _ Hb).
    + grown. intros Hr. exact (Hr _ _ _ Hout).
Qed.

Lemma refine_handled `{Platform} `{Wording} (backend : Backend)
  (request : RefineTestCase.Request) (tr : list event) :
  handled status backend tr (RefineTestCase.POST backend request tr) 2 2.
Proof.
  unfold RefineTestCase.POST.
  destruct (blank (RefineTestCase.summary request)); [refused|].
  destruct (truthy (RefineTestCase.testCase request)) eqn:Hrecord; cbn [negb]; [|refused].
  destruct (blank _); [refused|].
  pose proof (provider_of_answers (RefineTestCase.provider request)
                (RefineTestCase.config request)) as Hp.
  destruct (provider_of _ _) as [instance|e|]; [|refused|congruence].
  cbv zeta. unfold mbind at 1. unfold M_bind, attempt, generate.
  match goal with |- context [backend tr instance ?m] => set (messages := m) end.
  destruct (backend tr instance messages) as [result|e|] eqn:Hb;
    [|grown; right; reflexivity|grown; intros Hr; exact (Hr _ _ _ Hb)].
  set (cleaned := default (trim (content result))
                    (RefineTestCase.match_braces (trim (content result)))).
  pose proof (parseTestCaseFromLLM_answers cleaned) as Hparse.
  destruct (parseTestCaseFromLLM cleaned) as [v|e|] eqn:Hfirst; [| |congruence].
  - destruct (refine_parse_phase_success backend instance (system messages)
                (RefineTestCase.testCase request) (content result) v
                (tr ++ [EvGenerate instance messages]) Hfirst Hrecord) as (refined & ->).
    grown. left. reflexivity.
  - rewrite (parse_phase_failure backend instance (system messages)
               (RefineTestCase.testCase request) (content result)
               (tr ++ [EvGenerate instance messages]) e cleaned eq_refl Hfirst).
    cbv zeta.
    match goal with |- context [backend ?t ?i ?p] =>
      destruct (backend t i p) as [correction|e'|] eqn:Hc end.
    + grown. right. reflexivity.
    + grown. right. reflexivity.
    + grown. intros Hr. exact (Hr _ _ _ Hc).
Qed.

Lemma handled_answers {R} (status : R -> nat) (backend : Backend) (tr : list event)
  (run : outcome R * list event) (g p : nat) :
  handled status backend tr run g p -> responsive backend ->
  exists r, run.1 = Ok r /\ In (status r) [200; 400; 500].
Proof.
  intros [(r & -> & Hs)|(suffix & _ & _ & _ & _ & Hout)] Hresponsive.
  - exists r. split; [reflexivity|]. rewrite Hs. cbn. auto.
  - destruct run.1 as [r|e|]; [|contradiction|contradiction].
    exists r. split; [reflexivity|]. destruct Hout as [-> | ->]; cbn; auto.
Qed.

Lemma handled_refusal {R} (status : R -> nat) (backend : Backend) (tr tr' : list event)
  (run : outcome R * list event) (g p : nat) (r : R) :
  handled status backend tr run g p -> run = (Ok r, tr') -> status r = 400 -> tr' = tr.
Proof.
  intros [(r0 & -> & _)|(suffix & _ & _ & _ & _ & Hout)] Hrun Hs.
  - congruence.
  - rewrite Hrun in Hout. cbn [fst] in Hout. destruct Hout; congruence.
Qed.

Lemma handled_bound {R} (status : R -> nat) (backend : Backend) (tr : list event)
  (run : outcome R * list event) (g p : nat) :
  handled status backend tr run g p ->
  exists suffix,
    run.2 = tr ++ suffix /\
    length (generate_calls suffix) <= g /\ length (parse_calls suffix) <= p.
Proof.
  intros [(r & -> & _)|(suffix & Htr & _ & Hg & Hp & _)].
  - exists []. cbn [snd]. rewrite app_nil_r. cbn. repeat split; lia.
  - exists suffix. auto.
Qed.

(** X5. Whatever the request and whatever the backend answers or
    throws, each of the four handlers returns a response, with status 200,
    400 or 500: no exception of the provider dispatch, the backend, the
    parsers or the normaliser escapes. *)
Theorem handlers_always_answer `{Platform} `{Wording} (backend : Backend) (tr : list event) :
  responsive backend ->
  (forall request, exists r,
      (GenerateSummary.POST backend request tr).1 = Ok r /\
      In (GenerateSummary.status r) [200; 400; 500]) /\
  (forall request, exists r,
      (GenerateCases.POST backend request tr).1 = Ok r /\ In (status r) [200; 400; 500]) /\
  (forall request, exists r,
      (AddMoreCases.POST backend request tr).1 = Ok r /\ In (status r) [200; 400; 500]) /\
  (forall request, exists r,
      (RefineTestCase.POST backend request tr).1 = Ok r /\ In (status r) [200; 400; 500]).
Proof.
  intros Hresponsive. repeat split; intros request.
  - exact (handled_answers _ _ _ _ _ _ (generate_summary_handled backend request tr)
             Hresponsive).
  - exact (handled_answers _ _ _ _ _ _ (generate_cases_handled backend request tr)
             Hresponsive).
  - exact (handled_answers _ _ _ _ _ _ (add_more_handled backend request tr) Hresponsive).
  - exact (handled_answers _ _ _ _ _ _ (refine_handled backend request tr) Hresponsive).
Qed.

Lemma handlers_always_answer_witness :
  exists r,
    (RefineTestCase.POST (scripted []) shorten_request []).1 = Ok r /\
    In (status r) [200; 400; 500].
Proof.
  apply (handlers_always_answer (scripted []) []).
  intros tr instance messages. unfold scripted. destruct (length (generate_calls tr)); discriminate.
Defined.

(** X6. A handler that answers with status 400 has called neither the
    backend nor a parser: validation and provider configuration are
    settled before the first backend call. *)
Theorem refusal_costs_nothing `{Platform} `{Wording} (backend : Backend) (tr tr' : list event) :
  (forall request r,
      GenerateSummary.POST backend request tr = (Ok r, tr') ->
      GenerateSummary.status r = 400 -> tr' = tr) /\
  (forall request r,
      GenerateCases.POST backend request tr = (Ok r, tr') -> status r = 400 -> tr' = tr) /\
  (forall request r,
      AddMoreCases.POST backend request tr = (Ok r, tr') -> status r = 400 -> tr' = tr) /\
  (forall request r,
      RefineTestCase.POST backend request tr = (Ok r, tr') -> status r = 400 -> tr' = tr).
Proof.
  repeat split; intros request r Hrun Hs.
  - exact (handled_refusal _ _ _ _ _ _ _ _ (generate_summary_handled backend request tr)
             Hrun Hs).
  - exact (handled_refusal _ _ _ _ _ _ _ _ (generate_cases_handled backend request tr)
             Hrun Hs).
  - exact (handled_refusal _ _ _ _ _ _ _ _ (add_more_handled backend request tr) Hrun Hs).
  - exact (handled_refusal _ _ _ _ _ _ _ _ (refine_handled backend request tr) Hrun Hs).
Qed.

(** X7. One request costs at most one backend call in the summary and
    initial-batch handlers and at most two in the incremental handler (the
    compression call and the generation) and in the refinement handler
    (the generation and the repair); a response parser runs at most once,
    in the refinement handler at most twice, and never in the summary
    handler.  The trace a handler leaves extends the one it found. *)
Theorem backend_calls_bounded `{Platform} `{Wording} (backend : Backend) (tr : list event) :
  (forall request, exists suffix,
      (GenerateSummary.POST backend request tr).2 = tr ++ suffix /\
      length (generate_calls suffix) <= 1 /\ length (parse_calls suffix) <= 0) /\
  (forall request, exists suffix,
      (GenerateCases.POST backend request tr).2 = tr ++ suffix /\
      length (generate_calls suffix) <= 1 /\ length (parse_calls suffix) <= 1) /\
  (forall request, exists suffix,
      (AddMoreCases.POST backend request tr).2 = tr ++ suffix /\
      length (generate_calls suffix) <= 2 /\ length (parse_calls suffix) <= 1) /\
  (forall request, exists suffix,
      (RefineTestCase.POST backend request tr).2 = tr ++ suffix /\
      length (generate_calls suffix) <= 2 /\ length (parse_calls suffix) <= 2).
Proof.
  repeat split; intros request.
  - exact (handled_bound _ _ _ _ _ _ (generate_summary_handled backend request tr)).
  - exact (handled_bound _ _ _ _ _ _ (generate_cases_handled backend request tr)).
  - exact (handled_bound _ _ _ _ _ _ (add_more_handled backend request tr)).
  - exact (handled_bound _ _ _ _ _ _ (refine_handled backend request tr)).
Qed.
(** ** What the handlers answer after the backend has answered *)

(** X8. The initial-batch handler, for a request that passed validation
    and a backend that answered: when the response parses to an array
    without [null] it answers 200 with one record per element; when the
    array holds [null], or the response does not parse, it answers 500
    with the error message and the raw response.  One backend call and
    one parse are made in each case. *)
Theorem generate_cases_outcome `{Platform} `{Wording} (backend : Backend)
  (request : GenerateCases.Request) (providerInstance : Provider)
  (result : GenerateResult) (tr : list event) :
  let messages :=
    generateTestCasePrompt (default [] (GenerateCases.text request))
      (GenerateCases.count request) in
  let run := GenerateCases.POST backend request tr in
  blank (GenerateCases.text request) = false ->
  missing (GenerateCases.provider request) = false ->
  provider_of (default [] (GenerateCases.provider request)) (GenerateCases.config request)
  = Ok providerInstance ->
  backend tr providerInstance messages = Ok result ->
  run.2 = tr ++ [EvGenerate providerInstance messages; EvParse (content result)] /\
  (forall l, parseTestCasesFromLLM (content result) = Ok l ->
     existsb nullish l = false ->
     exists rs,
       length rs = length l /\
       run.1 = Ok {| status := 200;
                     body := TestCasesBody rs (length l) (tokenUsage result)
                               (if missing (GenerateCases.summary request) then None
                                else GenerateCases.summary request) |}) /\
  (forall l, parseTestCasesFromLLM (content result) = Ok l ->
     existsb nullish l = true ->
     run.1 = Ok (failure_raw 500
                   ("Failed to parse LLM response: " ++ TypeError_message "testId")
                   (content result))) /\
  (forall e, parseTestCasesFromLLM (content result) = Throw e ->
     run.1 = Ok (failure_raw 500 ("Failed to parse LLM response: " ++ message e)
                   (content result))).
Proof.
  intros messages run Htext Hprovider Hinstance Hanswer. subst run.
  rewrite (generate_cases_POST_answered backend request providerInstance result tr
             Htext Hprovider Hinstance Hanswer).
  fold messages. split; [|split; [|split]].
  - rewrite (proj1 (batch_parse_phase_trace (content result) [] (tokenUsage result)
                      (GenerateCases.summary request) _)).
    rewrite <- app_assoc. reflexivity.
  - intros l Hparse Hclean.
    destruct (normalize_from_answers l 0 0 []) as (rs & Hrs & Hlen);
      [rewrite forallb_negb, Hclean; reflexivity|].
    exists rs. split; [exact Hlen|].
    unfold GenerateCases.parse_phase, mbind, M_bind, attempt, parsing, lift, mret, M_ret.
    rewrite Hparse. unfold normalizeTestCases.
    cbn [map_testId mbind outcome_bind JS.bind mret outcome_ret length Set_of fold_left].
    rewrite Hrs. cbn [fst]. rewrite Hlen. reflexivity.
  - intros l Hparse Hnull.
    unfold GenerateCases.parse_phase, mbind, M_bind, attempt, parsing, lift, mret, M_ret.
    rewrite Hparse. unfold normalizeTestCases.
    cbn [map_testId mbind outcome_bind JS.bind mret outcome_ret length Set_of fold_left].
    rewrite (normalize_from_nullish l 0 0 [] Hnull). reflexivity.
  - intros e Hparse.
    unfold GenerateCases.parse_phase, mbind, M_bind, attempt, parsing, lift, mret, M_ret.
    rewrite Hparse. reflexivity.
Qed.

Lemma generate_cases_outcome_witness :
  (GenerateCases.POST (scripted [answer "[null]"]) login_request []).1
  = Ok (failure_raw 500
          "Failed to parse LLM response: Cannot read properties of null (reading 'testId')"
          "[null]").
Proof.
  destruct (generate_cases_outcome (scripted [answer "[null]"]) login_request sample_provider
              {| content := "[null]"; tokenUsage := None |} [])
    as (_ & _ & Hnull & _).
  - vm_compute. reflexivity.
  - vm_compute. reflexivity.
  - vm_compute. reflexivity.
  - vm_compute. reflexivity.
  - rewrite (Hnull [VNull]); vm_compute; reflexivity.
Defined.

(** X9. The refinement handler, once the first parse has failed: whatever
    the corrective call returns, the request fails with status 500.  When
    the corrective call answers, the text parsed again is the first one,
    the error reported is the first parse error, and the corrective answer
    only appears as the raw response; when the corrective call throws, the
    loop stops after one parse and the first response is reported. *)
Theorem refine_failure_is_final `{Platform} `{Wording} (backend : Backend)
  (request : RefineTestCase.Request) (providerInstance : Provider)
  (result : GenerateResult) (tr : list event) (e : error) (cleaned : jsstring) :
  let messages :=
    refineTestCasePrompt (default [] (RefineTestCase.summary request))
      (RefineTestCase.testCase request) (default [] (RefineTestCase.followup request)) in
  let repair := generateJsonCorrectionPrompt cleaned (message e) (system messages) in
  let tr1 := (tr ++ [EvGenerate providerInstance messages]) ++ [EvParse cleaned] in
  let run := RefineTestCase.POST backend request tr in
  blank (RefineTestCase.summary request) = false ->
  truthy (RefineTestCase.testCase request) = true ->
  blank (RefineTestCase.followup request) = false ->
  provider_of (RefineTestCase.provider request) (RefineTestCase.config request)
  = Ok providerInstance ->
  backend tr providerInstance messages = Ok result ->
  cleaned = default (trim (content result))
              (RefineTestCase.match_braces (trim (content result))) ->
  parseTestCaseFromLLM cleaned = Throw e ->
  (forall correction, backend tr1 providerInstance repair = Ok correction ->
     run = (Ok (failure_raw 500 ("Failed to parse refined test case: " ++ message e)
                  (content correction)),
            (tr1 ++ [EvGenerate providerInstance repair]) ++ [EvParse cleaned])) /\
  (forall e', backend tr1 providerInstance repair = Throw e' ->
     run = (Ok (failure_raw 500
                  "Failed to parse refined test case: Failed to parse JSON after all attempts"
                  (content result)),
            tr1 ++ [EvGenerate providerInstance repair])).
Proof.
  intros messages repair tr1 run Hsummary Hrecord Hfollowup Hinstance Hanswer Hcleaned Hfail.
  subst run.
  rewrite (refine_POST_answered backend request providerInstance result tr Hsummary
             Hrecord Hfollowup Hinstance Hanswer).
  fold messages.
  rewrite (parse_phase_failure backend providerInstance (system messages)
             (RefineTestCase.testCase request) (content result)
             (tr ++ [EvGenerate providerInstance messages]) e cleaned Hcleaned Hfail).
  fold repair. fold tr1. split.
  - intros correction ->. reflexivity.
  - intros e' ->. reflexivity.
Qed.

Lemma refine_failure_is_final_witness :
  exists r,
    (RefineTestCase.POST (scripted [answer not_json; answer refined_without_id])
       shorten_request []).1 = Ok r /\
    status r = 500.
Proof.
  destruct (refine_failure_is_final (scripted [answer not_json; answer refined_without_id])
              shorten_request sample_provider {| content := not_json; tokenUsage := None |} []
              (SyntaxError not_json) not_json) as (Hanswered & _).
  - vm_compute. reflexivity.
  - vm_compute. reflexivity.
  - vm_compute. reflexivity.
  - vm_compute. reflexivity.
  - vm_compute. reflexivity.
  - vm_compute. reflexivity.
  - vm_compute. reflexivity.
  - eexists. rewrite (Hanswered {| content := refined_without_id; tokenUsage := None |});
      [split; reflexivity|vm_compute; reflexivity].
Defined.
(** ** The summary handler *)

Lemma trimEnd_head (c : N) (r : jsstring) :
  isWhiteSpace c = false -> trimEnd (c :: r) = c :: trimEnd r.
Proof. intros Hc. cbn [trimEnd]. destruct (trimEnd r); [rewrite Hc|]; reflexivity. Qed.

Lemma trimEnd_idempotent (s : jsstring) : trimEnd (trimEnd s) = trimEnd s.
Proof.
  induction s as [|c s IH]; [reflexivity|]. cbn [trimEnd].
  destruct (trimEnd s) as [|d r] eqn:E.
  - destruct (isWhiteSpace c) eqn:Hc; [reflexivity|]. cbn [trimEnd]. rewrite Hc. reflexivity.
  - cbn [trimEnd] in IH |- *. rewrite IH. reflexivity.
Qed.

Lemma trim_idempotent (s : jsstring) : trim (trim s) = trim s.
Proof.
  unfold trim. destruct (trimStart s) as [|c r] eqn:E; [reflexivity|].
  pose proof (trimStart_head s c r E) as Hc.
  rewrite (trimEnd_head c r Hc). cbn [trimStart]. rewrite Hc.
  rewrite <- (trimEnd_head c r Hc). apply trimEnd_idempotent.
Qed.

(** X10. The summary handler, for a request that passed validation:
    it makes exactly one backend call, with the summary prompt built from
    the request text; when the backend answers, the response carries the
    answer trimmed (a text that trimming leaves unchanged), also when
    nothing is left of it; when the backend throws, the response has
    status 500 and the error message. *)
Theorem generate_summary_outcome `{Platform} (backend : Backend)
  (request : GenerateSummary.Request) (providerInstance : Provider) (tr : list event) :
  let messages := generatePrdSummaryPrompt (default [] (GenerateSummary.text request)) in
  let run := GenerateSummary.POST backend request tr in
  blank (GenerateSummary.text request) = false ->
  missing (GenerateSummary.provider request) = false ->
  provider_of (default [] (GenerateSummary.provider request))
    (GenerateSummary.config request) = Ok providerInstance ->
  run.2 = tr ++ [EvGenerate providerInstance messages] /\
  (forall result, backend tr providerInstance messages = Ok result ->
     exists summary,
       run.1 = Ok {| GenerateSummary.status := 200;
                     GenerateSummary.body :=
                       GenerateSummary.SummaryBody summary (tokenUsage result) |} /\
       summary = trim (content result) /\ trim summary = summary) /\
  (forall e, backend tr providerInstance messages = Throw e ->
     run.1 = Ok {| GenerateSummary.status := 500;
                   GenerateSummary.body :=
                     GenerateSummary.ErrorBody
                       ("Failed to generate PRD summary: " ++ message e) |}).
Proof.
  intros messages run Htext Hprovider Hinstance. subst run.
  unfold GenerateSummary.POST. rewrite Htext, Hprovider, Hinstance.
  fold messages. unfold mbind, M_bind, attempt, generate, mret, M_ret.
  split; [|split].
  - destruct (backend tr providerInstance messages); reflexivity.
  - intros result ->. cbn [fst]. eexists. split; [reflexivity|].
    split; [reflexivity|apply trim_idempotent].
  - intros e ->. reflexivity.
Qed.

Lemma generate_summary_outcome_witness :
  (GenerateSummary.POST (scripted [answer "  Users log in with a password.  "])
     {| GenerateSummary.text := Some "Users can log in with email and password";
        GenerateSummary.provider := Some "ollama";
        GenerateSummary.config := None |} []).1
  = Ok {| GenerateSummary.status := 200;
          GenerateSummary.body :=
            GenerateSummary.SummaryBody "Users log in with a password." None |}.
Proof.
  destruct (generate_summary_outcome (scripted [answer "  Users log in with a password.  "])
              {| GenerateSummary.text := Some "Users can log in with email and password";
                 GenerateSummary.provider := Some "ollama";
                 GenerateSummary.config := None |} sample_provider [])
    as (_ & Hanswered & _).
  - vm_compute. reflexivity.
  - vm_compute. reflexivity.
  - vm_compute. reflexivity.
  - destruct (Hanswered {| content := "  Users log in with a password.  ";
                           tokenUsage := None |}) as (summary & -> & -> & _).
    + vm_compute. reflexivity.
    + vm_compute. reflexivity.
Defined.
(** ** Sizes of the prompts *)

Lemma length_substring0 (s : jsstring) (n : nat) : length (substring0 s n) <= n.
Proof. unfold substring0. rewrite length_take. lia. Qed.

Lemma length_ellipsis (b : bool) : length (if b then "..." else "" : jsstring) <= 3.
Proof. destruct b; cbn; lia. Qed.

(** X11. The repair prompt is bounded whatever the size of the invalid
    response and of the original instructions: its user text holds the
    parse error in full, at most 1000 characters of the invalid response
    and at most 500 characters of the original system prompt. *)
Theorem repair_prompt_is_bounded `{Wording} (invalidJson parseError originalSystemPrompt : jsstring) :
  let prompt := generateJsonCorrectionPrompt invalidJson parseError originalSystemPrompt in
  system prompt = correctionSystemPrompt /\
  length (user prompt) <= length parseError + 1000 + 500 + 281 /\
  (length invalidJson <= 1000 ->
     exists before after, user prompt = before ++ invalidJson ++ after).
Proof.
  cbv zeta. unfold generateJsonCorrectionPrompt. cbn [system user]. split; [reflexivity|].
  split.
  - rewrite !length_app.
    pose proof (length_substring0 invalidJson 1000).
    pose proof (length_substring0 originalSystemPrompt 500).
    pose proof (length_ellipsis (1000 <? length invalidJson)).
    cbn [length mkstr] in *. lia.
  - intros Hshort. unfold substring0 at 1. rewrite take_ge by exact Hshort.
    repeat rewrite <- app_assoc.
    repeat first [apply occurs_here | apply occurs_later | apply occurs_after].
Qed.

(** X12. The compression call is bounded whatever the size of the
    working set: its user text holds at most 10000 characters of the
    serialisation, and the text used when the call fails holds at most
    2000 of them. *)
Theorem compression_prompt_is_bounded `{Platform} (backend : Backend)
  (existing : list value) (providerInstance : Provider) (tr : list event) :
  let run := AddMoreCases.summarizeExistingTestCases backend existing providerInstance tr in
  exists messages,
    run.2 = tr ++ [EvGenerate providerInstance messages] /\
    system messages = AddMoreCases.summaryPrompt /\
    length (user messages) <= 10000 + 74 /\
    (forall e, backend tr providerInstance messages = Throw e ->
       exists synopsis,
         run.1 = Ok synopsis /\
         length synopsis <= length (String_of_nat (length existing)) + 2000 + 37).
Proof.
  cbv zeta. unfold AddMoreCases.summarizeExistingTestCases. cbv zeta.
  eexists {| system := AddMoreCases.summaryPrompt; user := _ |}.
  unfold mbind, M_bind, attempt, generate, mret, M_ret. cbn [system user].
  split; [destruct (backend tr providerInstance _); reflexivity|].
  split; [reflexivity|]. split.
  - rewrite !length_app.
    pose proof (length_substring0 (JSON_stringify (VArr existing)) 10000).
    pose proof (length_ellipsis (10000 <? length (JSON_stringify (VArr existing)))).
    cbn [length mkstr] in *. lia.
  - intros e ->. cbn [fst]. eexists. split; [reflexivity|].
    rewrite !length_app.
    pose proof (length_substring0 (JSON_stringify (VArr existing)) 2000).
    cbn [length mkstr] in *. lia.
Qed.

(** X13. The two composite counters: the total is the sum of the input
    and output estimates, the input estimate carries the fixed overhead
    (200 for a batch, 150 for a summary), and four times the total without
    the overhead lies between the combined length of the two texts and
    that length plus six. *)
Theorem composite_token_counts (prdText answer : jsstring) :
  let batch := countTestCaseTokens prdText answer in
  let summary := countSummaryGenerationTokens prdText answer in
  let n := Z.of_nat (length prdText + length answer) in
  (total batch = input batch + output batch /\
   total summary = input summary + output summary /\
   input batch = countPrdTokens prdText + 200 /\
   input summary = countPrdTokens prdText + 150 /\
   output batch = countSummaryTokens answer /\
   n <= 4 * (total batch - 200) <= n + 6 /\
   n <= 4 * (total summary - 150) <= n + 6)%Z.
Proof.
  cbv zeta. unfold countTestCaseTokens, countSummaryGenerationTokens, countPrdTokens,
    countSummaryTokens. cbn [total input output].
  rewrite !estimateTokens_div. repeat split; try reflexivity;
    Z.div_mod_to_equations; lia.
Qed.
(** ** Obfuscated keys *)

Lemma base64_index_char (i : N) : (i < 64)%N -> base64_index (base64_char i) = Some i.
Proof.
  intros Hi. unfold base64_char, base64_index.
  destruct (N.ltb_spec i 26); [|destruct (N.ltb_spec i 52); [|destruct (N.ltb_spec i 62);
    [|destruct (N.eqb_spec i 62)]]];
  repeat match goal with
         | |- context [(?a <=? ?b)%N] => destruct (N.leb_spec a b); cbn [andb]; try lia
         | |- context [(?a =? ?b)%N] => destruct (N.eqb_spec a b); try lia
         end;
  try (f_equal; lia).
Qed.

Lemma base64_char_not_padding (i : N) :
  base64_char i <> 61%N /\ isAsciiWhitespace (base64_char i) = false.
Proof.
  unfold base64_char.
  destruct (N.ltb_spec i 26); [|destruct (N.ltb_spec i 52); [|destruct (N.ltb_spec i 62);
    [|destruct (N.eqb_spec i 62)]]]; (split; [lia|]).
  all: unfold isAsciiWhitespace.
  all: try reflexivity.
  all: match goal with |- match ?x with _ => _ end = false =>
         assert (x <> 9 /\ x <> 10 /\ x <> 12 /\ x <> 13 /\ x <> 32)%N as Hx by lia;
         destruct x as [|p]; [reflexivity|];
         do 6 (destruct p as [p|p|]; try reflexivity; try (exfalso; lia)) end.
Qed.

Lemma list_ind3 {A} (P : list A -> Prop) :
  P [] -> (forall a, P [a]) -> (forall a b, P [a; b]) ->
  (forall a b c r, P r -> P (a :: b :: c :: r)) ->
  forall l, P l.
Proof.
  intros H0 H1 H2 H3 l.
  assert (forall n l, length l <= n -> P l) as Hall; [|exact (Hall (length l) l (le_n _))].
  clear l. induction n as [|n IH]; intros l Hl.
  - destruct l; [exact H0|cbn in Hl; lia].
  - destruct l as [|a [|b [|c r]]]; auto. apply H3, IH. cbn [length] in Hl. lia.
Qed.

Section Group.
Local Open Scope N_scope.

Lemma base64_group (a b c : N) :
  a < 256 -> b < 256 -> c < 256 ->
  let i := a / 4 in
  let j := (a mod 4) * 16 + b / 16 in
  let k := (b mod 16) * 4 + c / 64 in
  let l := c mod 64 in
  i < 64 /\ j < 64 /\ k < 64 /\ l < 64 /\
  (a mod 4) * 16 < 64 /\ (b mod 16) * 4 < 64 /\
  i * 4 + j / 16 = a /\ (j mod 16) * 16 + k / 4 = b /\ (k mod 4) * 64 + l = c /\
  i * 4 + ((a mod 4) * 16) / 16 = a /\
  (j mod 16) * 16 + ((b mod 16) * 4) / 4 = b.
Proof.
  intros Ha Hb Hc. cbv zeta. repeat split; zify; Z.to_euclidean_division_equations; lia.
Qed.

End Group.

Lemma strip_padding_cons (c : N) (r : jsstring) :
  c <> 61%N -> strip_padding (c :: r) = c :: strip_padding r.
Proof.
  intros Hc. destruct c as [|p]; [reflexivity|].
  do 6 (destruct p as [p|p|]; try reflexivity); exfalso; apply Hc; reflexivity.
Qed.

Lemma length_mod4 {A} (a b c d : A) (l : list A) :
  length (a :: b :: c :: d :: l) mod 4 = length l mod 4.
Proof.
  cbn [length]. replace (S (S (S (S (length l))))) with (length l + 1 * 4) by lia.
  apply Nat.Div0.mod_add.
Qed.

Lemma forallb_small (key : jsstring) :
  forallb (fun c => (c <? 256)%N) key = true <-> small key.
Proof.
  unfold small. rewrite forallb_forall, List.Forall_forall.
  split; intros Hall c Hc; specialize (Hall c Hc); apply N.ltb_lt; exact Hall.
Qed.

(** What the decoder makes of an encoded key, step by step. *)
Lemma base64_decode_encode (key : jsstring) :
  small key ->
  let encoded := base64_encode key in
  List.filter (fun c => negb (isAsciiWhitespace c)) encoded = encoded /\
  length encoded mod 4 = 0 /\
  length (strip_padding encoded) mod 4 <> 1 /\
  exists indices,
    base64_indices (strip_padding encoded) = Some indices /\
    base64_decode indices = key.
Proof.
  cbv zeta. induction key as [|a|a b|a b c rest IH] using list_ind3; intros Hsmall.
  - cbn. repeat split; [lia|]. exists []. split; reflexivity.
  - apply Forall_cons_iff in Hsmall as [Ha _].
    destruct (base64_group a 0 0 Ha) as (Hi & _ & _ & _ & Hj & _ & _ & _ & _ & Hdec & _);
      [lia|lia|].
    cbn [base64_encode List.filter].
    rewrite !(proj2 (base64_char_not_padding _)). cbn [negb isAsciiWhitespace].
    split; [reflexivity|]. split; [reflexivity|].
    rewrite !strip_padding_cons by apply base64_char_not_padding.
    cbn [strip_padding length base64_indices]. split; [cbn; lia|].
    rewrite !base64_index_char by assumption.
    eexists. split; [reflexivity|]. cbn [base64_decode]. f_equal. exact Hdec.
  - apply Forall_cons_iff in Hsmall as [Ha Hsmall].
    apply Forall_cons_iff in Hsmall as [Hb _].
    destruct (base64_group a b 0 Ha Hb) as (Hi & Hj & _ & _ & _ & Hk & Hd1 & _ & _ & _ & Hd2);
      [lia|].
    cbn [base64_encode List.filter].
    rewrite !(proj2 (base64_char_not_padding _)). cbn [negb isAsciiWhitespace].
    split; [reflexivity|]. split; [reflexivity|].
    rewrite !strip_padding_cons by apply base64_char_not_padding.
    cbn [strip_padding length base64_indices]. split; [cbn; lia|].
    rewrite !base64_index_char by assumption.
    eexists. split; [reflexivity|]. cbn [base64_decode]. f_equal; [exact Hd1|].
    f_equal. exact Hd2.
  - apply Forall_cons_iff in Hsmall as [Ha Hsmall].
    apply Forall_cons_iff in Hsmall as [Hb Hsmall].
    apply Forall_cons_iff in Hsmall as [Hc Hsmall].
    destruct (IH Hsmall) as (Hfilter & Hlen & Hstrip & indices & Hindices & Hdecode).
    destruct (base64_group a b c Ha Hb Hc)
      as (Hi & Hj & Hk & Hl & _ & _ & Hd1 & Hd2 & Hd3 & _).
    cbn [base64_encode List.filter].
    rewrite !(proj2 (base64_char_not_padding _)). cbn [negb].
    rewrite Hfilter. split; [reflexivity|].
    rewrite length_mod4. split; [exact Hlen|].
    rewrite !strip_padding_cons by apply base64_char_not_padding.
    rewrite length_mod4. split; [exact Hstrip|].
    cbn [base64_indices]. rewrite Hindices, !base64_index_char by assumption.
    eexists. split; [reflexivity|]. cbn [base64_decode].
    rewrite Hd1, Hd2, Hd3, Hdecode. reflexivity.
Qed.

Lemma atob_encode (key : jsstring) : small key -> atob (base64_encode key) = Some key.
Proof.
  intros Hsmall.
  destruct (base64_decode_encode key Hsmall) as (Hfilter & Hlen & Hstrip & indices & Hi & Hd).
  unfold atob. cbv zeta. rewrite Hfilter, Hlen. cbn [Nat.eqb].
  destruct (Nat.eqb_spec (length (strip_padding (base64_encode key)) mod 4) 1);
    [contradiction|].
  rewrite Hi, Hd. reflexivity.
Qed.

(** X14. Obfuscating a key and reading it back gives the key: for every
    key made of code units below 256 (every ASCII key) [obfuscateKey]
    answers and [deobfuscateKey] returns the key from its answer; for any
    other key [obfuscateKey] throws. *)
Theorem obfuscation_round_trip (key : jsstring) :
  (forallb (fun c => (c <? 256)%N) key = true ->
     exists stored, obfuscateKey key = Some stored /\ deobfuscateKey stored = key) /\
  (forallb (fun c => (c <? 256)%N) key = false -> obfuscateKey key = None).
Proof.
  unfold obfuscateKey, btoa. split; intros Hkey; rewrite Hkey.
  - destruct key as [|c key]; [exists []; split; reflexivity|].
    eexists. split; [reflexivity|].
    unfold deobfuscateKey. cbn [mkstr app].
    assert (startsWith ("obf_" ++ base64_encode (c :: key)) "obf_" = true) as Hstarts
        by reflexivity.
    cbn [mkstr app] in Hstarts. rewrite Hstarts. cbn [negb].
    assert (replace_first "obf_" "" ("obf_" ++ base64_encode (c :: key))
            = base64_encode (c :: key)) as Hreplace.
    { destruct (base64_encode (c :: key)); reflexivity. }
    cbn [mkstr app] in Hreplace. rewrite Hreplace.
    rewrite (atob_encode (c :: key)); [reflexivity|]. apply forallb_small, Hkey.
  - destruct key; [discriminate|reflexivity].
Qed.

Lemma obfuscation_round_trip_witness :
  exists stored, obfuscateKey "sk-test-0123456789" = Some stored /\
                 deobfuscateKey stored = "sk-test-0123456789".
Proof.
  apply (proj1 (obfuscation_round_trip "sk-test-0123456789")). reflexivity.
Defined.

(** ** Masked keys, plausible keys *)

(** X15. A masked key shows nothing of a key of at most eight
    characters; of a longer key it shows the first four and the last four
    characters and a bullet for every other one, so that it is as long as
    the key. *)
Theorem maskApiKey_shape (key : jsstring) :
  (length key <= 8 -> maskApiKey key = repeat bullet 8) /\
  (8 < length key ->
     length (maskApiKey key) = length key /\
     take 4 (maskApiKey key) = take 4 key /\
     drop (length key - 4) (maskApiKey key) = drop (length key - 4) key /\
     forall i, 4 <= i < length key - 4 -> nth_error (maskApiKey key) i = Some bullet).
Proof.
  unfold maskApiKey. split; intros Hlen.
  - apply Nat.leb_le in Hlen. rewrite Hlen. reflexivity.
  - destruct (Nat.leb_spec (length key) 8) as [Hle|_]; [lia|].
    assert (length (take 4 key) = 4) as Hhead by (rewrite length_take; lia).
    assert (length (repeat bullet (length key - 8)) = length key - 8) as Hmid
        by apply repeat_length.
    assert (length (drop (length key - 4) key) = 4) as Htail by (rewrite length_drop; lia).
    split; [rewrite !length_app; lia|]. split; [|split].
    + rewrite take_app_length' by (symmetry; exact Hhead). reflexivity.
    + rewrite app_assoc. rewrite drop_app_length' by (rewrite length_app; lia). reflexivity.
    + intros i Hi. rewrite nth_error_app2 by lia. rewrite nth_error_app1 by lia.
      rewrite Hhead. apply nth_error_repeat. lia.
Qed.

Lemma maskApiKey_shape_witness :
  take 4 (maskApiKey "sk-test-0123456789") = "sk-t" /\
  length (maskApiKey "sk-test-0123456789") = 18.
Proof.
  destruct (proj2 (maskApiKey_shape "sk-test-0123456789")) as (Hlen & Hhead & _).
  - cbn. lia.
  - rewrite Hhead, Hlen. split; reflexivity.
Defined.

(** X16. The plausibility check of a key looks at the key without the
    whitespace around it, and accepts no key of ten characters or less,
    whatever the provider. *)
Theorem isValidApiKeyFormat_trimmed (key provider : jsstring) :
  isValidApiKeyFormat key provider = isValidApiKeyFormat (trim key) provider /\
  (isValidApiKeyFormat key provider = true -> 10 < length (trim key)).
Proof.
  unfold isValidApiKeyFormat, blank. cbv zeta. rewrite trim_idempotent. split; [reflexivity|].
  destruct (trim key) as [|c r] eqn:E; [discriminate|].
  destruct (string_eqb provider "openai"); [|destruct (string_eqb provider "azure");
    [|destruct (string_eqb provider "gemini")]].
  - intros [_ Hl]%andb_prop. apply Nat.ltb_lt in Hl. lia.
  - intros Hl. apply Nat.leb_le in Hl. lia.
  - intros [_ Hl]%andb_prop. apply Nat.ltb_lt in Hl. lia.
  - intros Hl. apply Nat.ltb_lt in Hl. exact Hl.
Qed.

Lemma isValidApiKeyFormat_trimmed_witness :
  10 < length (trim "  sk-0123456789abcdefghij  ").
Proof.
  apply (proj2 (isValidApiKeyFormat_trimmed "  sk-0123456789abcdefghij  " "openai")).
  vm_compute. reflexivity.
Defined.
(** ** The CSV export can be read back *)

Lemma includes_unit (s : jsstring) (c : N) : includes s [c] = false -> ~ In c s.
Proof.
  induction s as [|a s IH]; cbn [includes startsWith]; [intros _ []|].
  rewrite andb_true_r. intros [Ha Hs]%orb_false_elim [->|Hin].
  - rewrite N.eqb_refl in Ha. discriminate.
  - exact (IH Hs Hin).
Qed.

Lemma In_includes_unit (s : jsstring) (c : N) : In c s -> includes s [c] = true.
Proof.
  induction s as [|a s IH]; cbn [includes startsWith]; [intros []|].
  rewrite andb_true_r. intros [->|Hin]; [rewrite N.eqb_refl; reflexivity|].
  rewrite (IH Hin). apply orb_true_r.
Qed.

Lemma read_plain (v : jsstring) (field : jsstring) (row : list jsstring) (t : jsstring) :
  ~ In 44%N v -> ~ In 10%N v ->
  read_csv_from Plain field row (v ++ t) = read_csv_from Plain (rev v ++ field) row t.
Proof.
  revert field. induction v as [|c v IH]; intros field Hcomma Hnl; [reflexivity|].
  cbn [app read_csv_from].
  destruct (N.eqb_spec c 44) as [->|_]; [exfalso; apply Hcomma; left; reflexivity|].
  destruct (N.eqb_spec c 10) as [->|_]; [exfalso; apply Hnl; left; reflexivity|].
  rewrite IH by (intros Hin; first [apply Hcomma; right; exact Hin | apply Hnl; right; exact Hin]).
  cbn [rev]. rewrite <- app_assoc. reflexivity.
Qed.

Lemma read_quoted (v : jsstring) (field : jsstring) (row : list jsstring) (t : jsstring) :
  read_csv_from Quoted field row (double_quotes v ++ dq :: t)
  = read_csv_from QuoteSeen (rev v ++ field) row t.
Proof.
  revert field. induction v as [|c v IH]; intros field.
  - cbn [double_quotes flat_map app read_csv_from rev]. rewrite N.eqb_refl. reflexivity.
  - unfold double_quotes in *. cbn [flat_map].
    destruct (N.eqb_spec c dq) as [->|Hc].
    + cbn [app read_csv_from]. rewrite !N.eqb_refl. rewrite IH.
      cbn [rev]. rewrite <- app_assoc. reflexivity.
    + cbn [app read_csv_from]. apply N.eqb_neq in Hc. rewrite Hc. rewrite IH.
      cbn [rev]. rewrite <- app_assoc. reflexivity.
Qed.

(** Reading a cell: whatever follows it, when that is the end of the
    text, a comma or a line feed, finds the field complete. *)
Lemma read_cell (v : jsstring) (row : list jsstring) (t : jsstring) :
  match t with [] => True | c :: _ => c = 44%N \/ c = 10%N end ->
  read_csv_from FieldStart [] row (escapeCSV v ++ t) = read_csv_from Plain (rev v) row t.
Proof.
  intros Ht. unfold escapeCSV.
  destruct (includes v "," || includes v [dq] || includes v [10%N]) eqn:Hspecial.
  - cbn [app read_csv_from]. rewrite N.eqb_refl. rewrite <- app_assoc. cbn [app].
    rewrite read_quoted, app_nil_r.
    destruct t as [|c t]; [reflexivity|]. cbn [read_csv_from].
    destruct Ht as [-> | ->]; reflexivity.
  - apply orb_false_elim in Hspecial as [Hspecial Hnl].
    apply orb_false_elim in Hspecial as [Hcomma Hquote].
    apply includes_unit in Hnl, Hcomma, Hquote.
    destruct v as [|c v].
    + cbn [app rev]. destruct t as [|c t]; [reflexivity|]. cbn [read_csv_from].
      destruct Ht as [-> | ->]; reflexivity.
    + cbn [app read_csv_from].
      destruct (N.eqb_spec c dq) as [->|_]; [exfalso; apply Hquote; left; reflexivity|].
      destruct (N.eqb_spec c 44) as [->|_]; [exfalso; apply Hcomma; left; reflexivity|].
      destruct (N.eqb_spec c 10) as [->|_]; [exfalso; apply Hnl; left; reflexivity|].
      rewrite read_plain by (intros Hin; first [apply Hcomma; right; exact Hin | apply Hnl; right; exact Hin]).
      cbn [rev]. reflexivity.
Qed.

Lemma last_cons_default {A} (a d : A) (l : list A) : List.last (a :: l) d = List.last l a.
Proof.
  revert a d. induction l as [|b l IH]; intros a d; [reflexivity|].
  change (List.last (a :: b :: l) d) with (List.last (b :: l) d). rewrite !IH. reflexivity.
Qed.

Lemma read_row (cell : jsstring) (cells : list jsstring) (row : list jsstring) (t : jsstring) :
  match t with [] => True | c :: _ => c = 44%N \/ c = 10%N end ->
  read_csv_from FieldStart [] row (join "," (map escapeCSV (cell :: cells)) ++ t)
  = read_csv_from Plain (rev (List.last cells cell)) (rev (removelast (cell :: cells)) ++ row) t.
Proof.
  revert cell row. induction cells as [|cell' cells IH]; intros cell row Ht.
  - cbn [map join List.last removelast rev app]. apply read_cell, Ht.
  - change (join "," (map escapeCSV (cell :: cell' :: cells)))
      with (escapeCSV cell ++ "," ++ join "," (map escapeCSV (cell' :: cells))).
    rewrite <- !app_assoc. rewrite read_cell by (cbn; auto).
    cbn [mkstr app read_csv_from N.eqb Pos.eqb]. rewrite rev_involutive.
    rewrite IH by exact Ht.
    change (removelast (cell :: cell' :: cells)) with (cell :: removelast (cell' :: cells)).
    rewrite <- (last_cons_default cell' cell cells). cbn [rev]. rewrite <- app_assoc.
    reflexivity.
Qed.

Lemma read_closed_row (cell : jsstring) (cells : list jsstring) :
  rev (rev (rev (List.last cells cell)) :: rev (removelast (cell :: cells)) ++ []) = cell :: cells.
Proof.
  rewrite app_nil_r, rev_involutive. cbn [rev]. rewrite rev_involutive.
  rewrite <- (last_cons_default cell cell cells).
  symmetry. apply app_removelast_last. discriminate.
Qed.

Lemma read_rows (row : list jsstring) (rows : list (list jsstring)) :
  Forall (fun r => r <> []) (row :: rows) ->
  read_csv_from FieldStart [] []
    (join [10%N] (map (fun r => join "," (map escapeCSV r)) (row :: rows)))
  = row :: rows.
Proof.
  revert row. induction rows as [|row' rows IH]; intros row Hall.
  - apply Forall_cons_iff in Hall as [Hrow _]. destruct row as [|cell cells]; [contradiction|].
    change (join [10%N] (map (fun r => join "," (map escapeCSV r)) [cell :: cells]))
      with (join "," (map escapeCSV (cell :: cells))).
    rewrite <- (app_nil_r (join _ _)). rewrite read_row by exact I.
    cbn [read_csv_from]. rewrite read_closed_row. reflexivity.
  - apply Forall_cons_iff in Hall as [Hrow Hall]. destruct row as [|cell cells]; [contradiction|].
    change (join [10%N] (map (fun r => join "," (map escapeCSV r))
                           ((cell :: cells) :: row' :: rows)))
      with (join "," (map escapeCSV (cell :: cells)) ++ [10%N]
            ++ join [10%N] (map (fun r => join "," (map escapeCSV r)) (row' :: rows))).
    rewrite read_row by (cbn; auto). cbn [app read_csv_from N.eqb Pos.eqb].
    rewrite read_closed_row. rewrite IH by exact Hall. reflexivity.
Qed.

Lemma read_csv_export (testCases : list Typed.TestCase) :
  read_csv (testCasesToCSV testCases) = csv_headers :: map csv_cells testCases.
Proof.
  unfold read_csv, testCasesToCSV. cbv zeta.
  change (join "," csv_headers) with (join "," (map escapeCSV csv_headers)).
  rewrite <- (map_map csv_cells (fun r => join "," (map escapeCSV r))).
  change (join "," (map escapeCSV csv_headers)
          :: map (fun r => join "," (map escapeCSV r)) (map csv_cells testCases))
    with (map (fun r => join "," (map escapeCSV r)) (csv_headers :: map csv_cells testCases)).
  apply read_rows. constructor; [discriminate|].
  apply List.Forall_forall. intros r (tc & <- & _)%in_map_iff. discriminate.
Qed.

(** X17. The CSV export can be read back: a reader that ends records at
    line feeds and fields at commas, and takes a double-quoted field up to
    its closing quote with doubled quotes standing for one, finds the
    header record followed by one record of eight cells per test case,
    each cell holding the field as it was (the steps joined into one
    cell). *)
Theorem testCasesToCSV_read_back (testCases : list Typed.TestCase) :
  read_csv (testCasesToCSV testCases) = csv_headers :: map csv_cells testCases /\
  length (read_csv (testCasesToCSV testCases)) = S (length testCases) /\
  Forall (fun record => length record = 8) (read_csv (testCasesToCSV testCases)).
Proof.
  rewrite read_csv_export. split; [reflexivity|]. split.
  - cbn [length]. rewrite length_map. reflexivity.
  - constructor; [reflexivity|]. apply List.Forall_forall.
    intros r (tc & <- & _)%in_map_iff. reflexivity.
Qed.

(** X18. The CSV export loses nothing but the boundaries between steps:
    two cells with the same escaped text are the same cell, and two
    working sets with the same export have the same cells, record by
    record. *)
Theorem testCasesToCSV_injective :
  (forall a b : jsstring, escapeCSV a = escapeCSV b -> a = b) /\
  (forall a b : list Typed.TestCase,
      testCasesToCSV a = testCasesToCSV b -> map csv_cells a = map csv_cells b).
Proof.
  split.
  - intros a b Heq.
    pose proof (read_cell a [] [] I) as Ha. pose proof (read_cell b [] [] I) as Hb.
    rewrite !app_nil_r in Ha, Hb. rewrite Heq, Hb in Ha. cbn [read_csv_from] in Ha.
    rewrite !rev_involutive in Ha. cbn [rev app] in Ha. congruence.
  - intros a b Heq. pose proof (read_csv_export a) as Ha.
    rewrite Heq, read_csv_export in Ha. congruence.
Qed.
(** ** The model chosen for Gemini *)

Lemma found_Some (m : option jsstring) (x : jsstring) : found m = Some x -> m = Some x.
Proof. destruct m as [[|c r]|]; cbn; congruence. Qed.

Lemma found_find_In (p : jsstring -> bool) (l : list jsstring) (x : jsstring) :
  found (find p l) = Some x -> In x l.
Proof. intros Hf%found_Some. apply find_some in Hf. tauto. Qed.

(** X19. The Gemini model chosen is one of the models the key can use,
    whenever there is one: the preferred model when it is among them, and
    otherwise one picked from the list.  Only when the list is empty is the
    preferred model (or the default name) returned unchecked. *)
Theorem findAvailableGeminiModel_available (availableModels : list jsstring)
  (preferredModel : option jsstring) :
  (availableModels <> [] ->
     In (findAvailableGeminiModel availableModels preferredModel) availableModels) /\
  (forall preferred,
      preferredModel = Some preferred -> preferred <> [] -> In preferred availableModels ->
      findAvailableGeminiModel availableModels preferredModel = preferred) /\
  (availableModels = [] ->
     findAvailableGeminiModel availableModels preferredModel
     = match found preferredModel with
       | Some preferred => preferred
       | None => "gemini-1.5-flash-latest"
       end).
Proof.
  split; [|split].
  - destruct availableModels as [|first rest]; [congruence|]. intros _.
    unfold findAvailableGeminiModel.
    set (models := first :: rest).
    assert (In match found (find (fun m => includes m "flash") models) with
               | Some flashModel => flashModel
               | None => first
               end models) as Hflash.
    { destruct (found (find _ models)) as [x|] eqn:E; [exact (found_find_In _ _ _ E)|].
      left. reflexivity. }
    revert Hflash.
    generalize (match found (find (fun m => includes m "flash") models) with
                | Some flashModel => flashModel
                | None => first
                end).
    intros flash Hflash.
    destruct (found preferredModel) as [preferred|]; [|exact Hflash].
    destruct (existsb (string_eqb preferred) models) eqn:Hin.
    + apply existsb_exists in Hin as (x & Hx & Heq). apply string_eqb_eq in Heq.
      subst x. exact Hx.
    + repeat match goal with
             | |- In (match ?a with Some _ => _ | None => _ end) _ =>
                 let E := fresh "E" in
                 destruct a as [x|] eqn:E; [exact (found_find_In _ _ _ E)|]
             end.
      exact Hflash.
  - intros preferred -> Hne Hin. destruct availableModels as [|first rest]; [destruct Hin|].
    unfold findAvailableGeminiModel. destruct preferred as [|c r]; [contradiction|].
    cbn [found].
    assert (existsb (string_eqb (c :: r)) (first :: rest) = true) as ->; [|reflexivity].
    apply existsb_exists. exists (c :: r). split; [exact Hin|apply string_eqb_refl].
  - intros ->. reflexivity.
Qed.

Lemma findAvailableGeminiModel_available_witness :
  findAvailableGeminiModel ["gemini-1.5-flash-latest"; "gemini-1.5-pro-latest"]
    (Some "gemini-1.5-pro-latest") = "gemini-1.5-pro-latest".
Proof.
  apply (proj1 (proj2 (findAvailableGeminiModel_available
                         ["gemini-1.5-flash-latest"; "gemini-1.5-pro-latest"]
                         (Some "gemini-1.5-pro-latest"))) "gemini-1.5-pro-latest").
  - reflexivity.
  - discriminate.
  - right. left. reflexivity.
Defined.

(** ** The browser's dispatch against the server's *)

(** X20. Every configuration the browser's dispatch accepts is accepted
    by [createProvider] as well, for the same kind of provider, with the
    same key or base URL, and with the same model unless the model given is
    the empty string (which only the browser replaces by the default).
    The browser refuses [azure], and [ollama] without a base URL, both of
    which the server accepts. *)
Theorem client_dispatch_agrees {Messages} (config : ProviderConfig) (messages : Messages) :
  (forall call, callLLMClient config messages = Ok call ->
     exists instance,
       createProvider config = Ok instance /\
       match call, instance with
       | callOpenAI key m _, openaiProvider key' m' =>
           key = key' /\ (model config <> Some [] -> m = m')
       | callGemini key m _, geminiProvider key' m' =>
           key = key' /\ (model config <> Some [] -> m = m')
       | callOllama url m _, ollamaProvider m' url' =>
           url = url' /\ (model config <> Some [] -> m = m')
       | _, _ => False
       end) /\
  (provider config = "azure" -> exists m, callLLMClient config messages = Throw (Error m)) /\
  (provider config = "ollama" -> missing (baseUrl config) = true ->
     (exists m, callLLMClient config messages = Throw (Error m)) /\
     exists instance, createProvider config = Ok instance).
Proof.
  assert (forall d, model config <> Some [] -> or_else (model config) d = or_default (model config) d)
    as Hmodel.
  { intros d Hm. unfold or_else, or_default. destruct (model config) as [[|c r]|];
      [exfalso; apply Hm; reflexivity|reflexivity|reflexivity]. }
  split; [|split].
  - intros call. unfold callLLMClient, createProvider.
    destruct (string_eqb (provider config) "openai") eqn:E1.
    { destruct (missing (apiKey config)); [discriminate|]. intros [= <-].
      eexists. split; [reflexivity|]. split; [reflexivity|]. apply Hmodel. }
    destruct (string_eqb (provider config) "gemini") eqn:E2.
    { destruct (string_eqb (provider config) "azure") eqn:E3.
      { apply string_eqb_eq in E2, E3. rewrite E2 in E3. discriminate. }
      destruct (string_eqb (provider config) "ollama") eqn:E4.
      { apply string_eqb_eq in E2, E4. rewrite E2 in E4. discriminate. }
      destruct (missing (apiKey config)); [discriminate|]. intros [= <-].
      eexists. split; [reflexivity|]. split; [reflexivity|]. apply Hmodel. }
    destruct (string_eqb (provider config) "ollama") eqn:E4.
    { destruct (string_eqb (provider config) "azure") eqn:E3.
      { apply string_eqb_eq in E3, E4. rewrite E3 in E4. discriminate. }
      destruct (missing (baseUrl config)) eqn:Hurl; [discriminate|]. intros [= <-].
      eexists. split; [reflexivity|]. split; [|apply Hmodel].
      unfold or_default. destruct (baseUrl config) as [[|c r]|]; try discriminate. reflexivity. }
    destruct (string_eqb (provider config) "azure"); discriminate.
  - intros Hp. unfold callLLMClient. rewrite Hp. cbn. eauto.
  - intros Hp Hurl. unfold callLLMClient, createProvider. rewrite Hp. cbn. rewrite Hurl.
    split; eauto.
Qed.

Lemma client_dispatch_agrees_witness :
  exists m,
    callLLMClient {| provider := "ollama"; apiKey := None; model := None; endpoint := None;
                     deployment := None; apiVersion := None; baseUrl := None |} tt
    = Throw (Error m).
Proof.
  apply (proj2 (proj2 (client_dispatch_agrees
                         {| provider := "ollama"; apiKey := None; model := None;
                            endpoint := None; deployment := None; apiVersion := None;
                            baseUrl := None |} tt))); reflexivity.
Defined.

(** ** The navigation state is read once *)

(** X21. Whatever was called before: after a configuration is stored,
    and any number of checks, the store reports that it holds a value and
    the first read returns that configuration; after a read, and any number
    of checks, the store reports that it is empty and a read returns
    nothing. *)
Theorem navigation_state_read_once (history checks : list NavigationState.call)
  (config : NavigationState.ProviderConfig) :
  forallb NavigationState.is_has checks = true ->
  let stored := NavigationState.after (history ++ NavigationState.Set_ config :: checks) in
  let cleared := NavigationState.after (history ++ NavigationState.GetAndClear :: checks) in
  NavigationState.hasNavigationState stored = true /\
  NavigationState.getAndClearNavigationState stored = (Some config, None) /\
  NavigationState.hasNavigationState cleared = false /\
  NavigationState.getAndClearNavigationState cleared = (None, None).
Proof.
  intros Hchecks stored cleared.
  assert (forall s, fold_left NavigationState.step checks s = s) as Hidle.
  { induction checks as [|c checks IH]; intros s; [reflexivity|].
    cbn [forallb] in Hchecks. apply andb_prop in Hchecks as [Hc Hrest].
    destruct c; try discriminate. cbn [fold_left NavigationState.step]. apply IH, Hrest. }
  subst stored cleared. unfold NavigationState.after.
  rewrite !fold_left_app. cbn [fold_left]. rewrite !Hidle.
  cbn. repeat split.
Qed.

Lemma navigation_state_read_once_witness :
  NavigationState.getAndClearNavigationState
    (NavigationState.after
       [NavigationState.GetAndClear;
        NavigationState.Set_ {| NavigationState.provider := "ollama";
                                NavigationState.config :=
                                  {| cfg_apiKey := None; cfg_model := None;
                                     cfg_endpoint := None; cfg_deployment := None;
                                     cfg_apiVersion := None; cfg_baseUrl := None |} |};
        NavigationState.Has])
  = (Some {| NavigationState.provider := "ollama";
             NavigationState.config :=
               {| cfg_apiKey := None; cfg_model := None; cfg_endpoint := None;
                  cfg_deployment := None; cfg_apiVersion := None; cfg_baseUrl := None |} |},
     None).
Proof.
  apply (navigation_state_read_once [NavigationState.GetAndClear] [NavigationState.Has]).
  reflexivity.
Defined.
(** ** The context threshold, in characters *)

(** X22. The threshold of 5000 estimated tokens is a threshold of 20000
    characters: a working set whose serialisation has at most 20000
    characters goes into the incremental prompt as it is, without a
    backend call, and a longer one costs exactly one compression call. *)
Theorem compression_threshold_in_characters `{Platform} (backend : Backend)
  (existing : list value) (providerInstance : Provider) (tr : list event) :
  let json := JSON_stringify (VArr existing) in
  let run := AddMoreCases.existingTestCasesForPrompt backend existing providerInstance tr in
  ((Z.of_nat (length json) <= 20000)%Z -> run = (Ok (inl existing), tr)) /\
  ((20000 < Z.of_nat (length json))%Z ->
     exists messages, run.2 = tr ++ [EvGenerate providerInstance messages]).
Proof.
  intros json run. subst run. unfold AddMoreCases.existingTestCasesForPrompt.
  fold json. cbv zeta. rewrite estimateTokens_div. unfold AddMoreCases.TOKEN_LIMIT_THRESHOLD.
  split; intros Hlen.
  - assert ((5000 <? (Z.of_nat (length json) + 3) / 4)%Z = false) as ->; [|reflexivity].
    apply Z.ltb_ge. Z.div_mod_to_equations. lia.
  - assert ((5000 <? (Z.of_nat (length json) + 3) / 4)%Z = true) as ->.
    { apply Z.ltb_lt. Z.div_mod_to_equations. lia. }
    unfold AddMoreCases.summarizeExistingTestCases. cbv zeta.
    unfold mbind, M_bind, attempt, generate, mret, M_ret.
    eexists. destruct (backend tr providerInstance _); reflexivity.
Qed.

Lemma compression_threshold_in_characters_witness :
  AddMoreCases.existingTestCasesForPrompt (scripted []) [sample_record] sample_provider []
  = (Ok (inl [sample_record]), []).
Proof.
  apply (proj1 (compression_threshold_in_characters (scripted []) [sample_record]
                  sample_provider [])).
  vm_compute. discriminate.
Defined.

(** ** Default identifiers of a batch *)

Lemma map_testId_sound (existing ids : list value) (v : value) :
  map_testId existing = Ok ids -> In v ids ->
  exists e, In e existing /\ get e "testId" = Ok v.
Proof.
  revert ids. induction existing as [|e existing IH]; intros ids; cbn [map_testId].
  - intros [= <-] [].
  - destruct (get e "testId") as [x| |] eqn:Hx; cbn [mbind outcome_bind JS.bind];
      try discriminate.
    destruct (map_testId existing) as [rest| |]; cbn [JS.bind mret outcome_ret];
      try discriminate.
    intros [= <-] [<-|Hin].
    + exists e. split; [left; reflexivity|exact Hx].
    + destruct (IH rest eq_refl Hin) as (e' & He' & Hget). exists e'. split; [right|]; auto.
Qed.

Lemma normalize_from_defaults (batch : list value) (offset start : nat) (ids : list value) :
  Forall (fun tc => exists props, tc = VObj props /\ lookup_prop "testId" props = VUndefined)
    batch ->
  (forall j, offset + start + 2 <= j -> ~ In (VStr (tcId j)) ids) ->
  exists rs,
    normalize_from offset start batch ids = Ok rs /\
    map testId rs = map (fun i => VStr (tcId (offset + i + 2))) (seq start (length batch)).
Proof.
  revert start ids. induction batch as [|tc batch IH]; intros start ids Hbatch Hfree.
  - exists []. split; reflexivity.
  - apply Forall_cons_iff in Hbatch as [(props & -> & Habsent) Hbatch].
    destruct (normalizeTestCase_default_id props (offset + start + 1) ids Habsent)
      as (r & Hr & Hid).
    { replace (offset + start + 1 + 1) with (offset + start + 2) by lia. apply Hfree. lia. }
    replace (offset + start + 1 + 1) with (offset + start + 2) in Hr, Hid by lia.
    destruct (IH (S start) (ids ++ [VStr (tcId (offset + start + 2))]) Hbatch)
      as (rs & Hrs & Hids).
    { intros j Hj [Hin|[Heq|[]]]%in_app_or.
      - apply (Hfree j); [lia|exact Hin].
      - assert (tcId (offset + start + 2) = tcId j) as Heq' by congruence.
        apply tcId_inj in Heq'. lia. }
    exists (r :: rs). cbn [normalize_from]. rewrite Hr.
    cbn [mbind outcome_bind JS.bind mret outcome_ret fst snd from_option id].
    rewrite Hrs. cbn [JS.bind]. split; [reflexivity|].
    cbn [map length seq]. rewrite Hid, Hids. reflexivity.
Qed.

(** X23. The identifiers given by default skip one number: in a batch
    of records without testId, normalised against a working set of [k]
    records, the record at position [i] (counted from 0) is named after
    [k + i + 2], provided the working set uses none of the names from
    [k + 2] on.  After [TC-001] and [TC-002] come [TC-004], [TC-005]. *)
Theorem default_identifiers_skip_one (batch existing : list value) :
  Forall (fun tc => exists props, tc = VObj props /\ lookup_prop "testId" props = VUndefined)
    batch ->
  Forall (fun e => isObject e = true) existing ->
  (forall e j, In e existing -> length existing + 2 <= j ->
     get e "testId" <> Ok (VStr (tcId j))) ->
  exists rs,
    normalizeTestCases batch existing = Ok rs /\
    map testId rs
    = map (fun i => VStr (tcId (length existing + i + 2))) (seq 0 (length batch)).
Proof.
  intros Hbatch Hexisting Hfree.
  destruct (map_testId_objects existing Hexisting) as (ids & Hids & _).
  unfold normalizeTestCases. rewrite Hids. cbn [mbind outcome_bind JS.bind].
  apply normalize_from_defaults; [exact Hbatch|].
  intros j Hj Hin. apply Set_has_VStr in Hin. rewrite Set_has_of in Hin.
  apply Set_has_VStr in Hin.
  destruct (map_testId_sound existing ids _ Hids Hin) as (e & He & Hget).
  apply (Hfree e j He); [lia|exact Hget].
Qed.

Lemma default_identifiers_skip_one_witness :
  exists rs,
    normalizeTestCases [VObj []; VObj []]
      [VObj [("testId", VStr "TC-001")]; VObj [("testId", VStr "TC-002")]] = Ok rs /\
    map testId rs = [VStr "TC-004"; VStr "TC-005"].
Proof.
  apply (default_identifiers_skip_one [VObj []; VObj []]
           [VObj [("testId", VStr "TC-001")]; VObj [("testId", VStr "TC-002")]]).
  - repeat constructor; eexists; split; reflexivity.
  - repeat constructor.
  - intros e j [<-|[<-|[]]] Hj Hget; cbn [length] in Hj.
    + change (get (VObj [("testId", VStr "TC-001")]) "testId") with (Ok (VStr (tcId 1))) in Hget.
      assert (tcId 1 = tcId j) as Heq by congruence. apply tcId_inj in Heq. lia.
    + change (get (VObj [("testId", VStr "TC-002")]) "testId") with (Ok (VStr (tcId 2))) in Hget.
      assert (tcId 2 = tcId j) as Heq by congruence. apply tcId_inj in Heq. lia.
Defined.

(** ** A fence that is opened and not closed *)

Lemma lex_backtick_end (x : jsstring) (st : lex_state) : lex st (x ++ [96%N]) = None.
Proof.
  revert st. induction x as [|c x IH]; intros st.
  - cbn [app]. rewrite lex_cons. destruct st as [|acc|acc|acc ds|acc|w n]; cbn [lex_step].
    + reflexivity.
    + reflexivity.
    + reflexivity.
    + reflexivity.
    + cbn. destruct (valid_number (rev acc)); reflexivity.
    + destruct (nth_error (spelling w) n) as [c'|] eqn:Hn; [|reflexivity].
      apply keyword_letter in Hn. cbn [In] in Hn.
      repeat (destruct Hn as [<-|Hn]; [reflexivity|]). destruct Hn.
  - cbn [app]. rewrite lex_cons. destruct (lex_step st c) as [[ts st']|]; [|reflexivity].
    rewrite IH. reflexivity.
Qed.

Lemma valid_json_has_no_fence (text : jsstring) (v : value) (a b : jsstring) :
  JSON_parse text = Ok v -> text = a ++ b -> close_fence_here b = false.
Proof.
  intros Hparse ->. destruct (close_fence_here b) eqn:Hc; [|reflexivity]. exfalso.
  unfold close_fence_here in Hc. apply string_eqb_eq in Hc.
  destruct (trimStart_split b) as (w & _ & Hb). rewrite Hc in Hb.
  unfold JSON_parse in Hparse. rewrite Hb in Hparse.
  replace (a ++ w ++ [96; 96; 96]%N) with ((a ++ w ++ [96; 96]%N) ++ [96%N]) in Hparse
    by (rewrite <- !app_assoc; reflexivity).
  rewrite lex_backtick_end in Hparse. discriminate.
Qed.

Lemma strip_close_fence_none (s : jsstring) :
  (forall a b, s = a ++ b -> close_fence_here b = false) -> strip_close_fence s = s.
Proof.
  induction s as [|c s IH]; intros Hnone; rewrite strip_close_fence_unfold.
  - rewrite (Hnone [] [] eq_refl). reflexivity.
  - rewrite (Hnone [] (c :: s) eq_refl). f_equal. apply IH.
    intros a b ->. apply (Hnone (c :: a) b). reflexivity.
Qed.

Lemma trimEnd_app (a b : jsstring) : trimEnd b <> [] -> trimEnd (a ++ b) = a ++ trimEnd b.
Proof.
  intros Hb. induction a as [|c a IH]; [reflexivity|].
  cbn [app trimEnd]. rewrite IH. destruct (a ++ trimEnd b) eqn:E; [|reflexivity].
  apply app_eq_nil in E as [_ E]. contradiction.
Qed.

Lemma trim_commutes (t : jsstring) : trimStart (trimEnd t) = trimEnd (trimStart t).
Proof.
  destruct (trimStart_split t) as (w & Hw & Ht).
  destruct (trimStart t) as [|c r] eqn:E.
  - rewrite app_nil_r in Ht. subst w.
    rewrite (proj2 (trimEnd_nil t) Hw). reflexivity.
  - pose proof (trimStart_head t c r E) as Hc.
    rewrite Ht at 1. rewrite trimEnd_after by exact Hc.
    rewrite trimStart_before by exact Hc.
    rewrite <- (app_nil_r w), trimStart_whitespace by exact Hw.
    cbn [trimStart app]. rewrite trimEnd_head by exact Hc. reflexivity.
Qed.

(** X24. An opening fence without a closing one is removed as well: a
    valid JSON text after three backticks and an optional [json] tag, with
    any whitespace around, is cleaned to that text and parses to its
    value. *)
Theorem unclosed_fence_is_accepted (t tag o1 w1 o2 : jsstring) (v : value) :
  JSON_parse t = Ok v ->
  fence_tag tag -> whitespace o1 -> whitespace w1 -> whitespace o2 ->
  let text := o1 ++ "```" ++ tag ++ w1 ++ t ++ o2 in
  cleanLLMJsonResponse text = trim t /\
  JSON_parse (cleanLLMJsonResponse text) = Ok v.
Proof.
  intros Hparse Htag Ho1 Hw1 Ho2 text. subst text.
  destruct (JSON_parse_trim t v Hparse) as (Htrim & Hstart).
  assert (trimEnd t <> []) as Hend.
  { intros Hnil. apply trimEnd_nil in Hnil. apply Hstart.
    rewrite <- (app_nil_r t). rewrite trimStart_whitespace by exact Hnil. reflexivity. }
  assert (cleanLLMJsonResponse (o1 ++ "```" ++ tag ++ w1 ++ t ++ o2) = trim t) as Hclean.
  { unfold cleanLLMJsonResponse.
    assert (trim (o1 ++ "```" ++ tag ++ w1 ++ t ++ o2) = "```" ++ tag ++ w1 ++ trimEnd t) as ->.
    { unfold trim. rewrite trimStart_whitespace by exact Ho1. rewrite trimStart_fence.
      replace ("```" ++ tag ++ w1 ++ t ++ o2) with ((("```" ++ tag ++ w1) ++ t) ++ o2)
        by (repeat first [rewrite <- app_assoc | progress cbn [app mkstr]]; reflexivity).
      rewrite trimEnd_whitespace by exact Ho2. rewrite trimEnd_app by exact Hend.
      repeat first [rewrite <- app_assoc | progress cbn [app mkstr]]. reflexivity. }
    rewrite startsWith_fence.
    rewrite strip_open_fence_trimStart; [|exact Htag|].
    - rewrite trimStart_whitespace by exact Hw1. rewrite trim_commutes. fold (trim t).
      rewrite strip_close_fence_none
        by (intros a b Hsplit; exact (valid_json_has_no_fence (trim t) v a b Htrim Hsplit)).
      apply replace_defect_none. intros a b Hsplit.
      exact (valid_json_has_no_defect (trim t) v a b Htrim Hsplit).
    - intros _ a b c d r Heq. apply not_tag. destruct w1 as [|e w1].
      + cbn [app] in Heq. destruct t as [|a' t']; [contradiction|].
        destruct (isWhiteSpace a') eqn:Hws.
        * assert (trimEnd (a' :: t') = a' :: trimEnd t') as Hhead.
          { cbn [trimEnd]. destruct (trimEnd t') eqn:E; [|reflexivity].
            exfalso. apply Hend. cbn [trimEnd]. rewrite E, Hws. reflexivity. }
          rewrite Hhead in Heq. injection Heq as <- _. apply whitespace_not_tag, Hws.
        * rewrite trimEnd_head in Heq by exact Hws. injection Heq as <- _.
          exact (valid_first_char (a' :: t') v a' t' Hparse eq_refl).
      + cbn [app] in Heq. injection Heq as <- _. apply whitespace_not_tag.
        inversion Hw1. assumption. }
  split; [exact Hclean|]. rewrite Hclean. exact Htrim.
Qed.

Lemma unclosed_fence_is_accepted_witness :
  exists l,
    parseTestCasesFromLLM ("```json" ++ [10%N] ++ three_records) = Ok l /\ length l = 3.
Proof.
  destruct (unclosed_fence_is_accepted three_records "json" [] [10%N] []
              (VArr [VObj [("title", VStr "Login with valid credentials")];
                     VObj [("title", VStr "Login with a wrong password")];
                     VObj [("title", VStr "Login with an empty email")]]))
    as (_ & Hparse).
  - vm_compute. reflexivity.
  - right. exists 106%N, 115%N, 111%N, 110%N. split; reflexivity.
  - constructor.
  - repeat constructor.
  - constructor.
  - cbv zeta in Hparse. rewrite app_nil_r in Hparse. cbn [app] in Hparse.
    unfold parseTestCasesFromLLM. cbv zeta. cbn [app mkstr]. cbn [app mkstr] in Hparse.
    rewrite Hparse. eexists. split; reflexivity.
Defined.
